(** * NovelMind build pipeline: resource packs, build orchestration, size analysis

    A shallow embedding of [editor/src/build_system.cpp] and
    [editor/src/build_size_analyzer.cpp].

    Conventions.
    - Fixed-width unsigned integers are [Z] with the wrap-around written out
      ([u32], [u64]); bytes are [Z] in [0, 256).
    - [std::string] is [string]; [std::vector] is [list]; [std::map] and
      [std::unordered_map] are [gmap].
    - The file system is a finite map from (normalised, POSIX) path strings to
      nodes.  Operations fail exactly where the modelled node structure makes
      them fail (missing file, missing parent directory, file in place of a
      directory); permission and device errors are outside the model.
    - [f32] values are modelled exactly: a finite binary32 number is the
      integer count of its units of 2^-149. *)

From Stdlib Require Import ZArith Lia String Ascii List Sorting.Permutation.
From stdpp Require Import base option list gmap strings sorting.

Local Open Scope Z_scope.
Local Open Scope string_scope.
Local Open Scope list_scope.

(** ** Results and exceptions *)

(** [Result<T>]: either a value or an error message. *)
Inductive Result (A : Type) : Type :=
| Ok (a : A)
| Error (msg : string).
Arguments Ok {A} a.
Arguments Error {A} msg.

Definition isError {A} (r : Result A) : bool :=
  match r with Ok _ => false | Error _ => true end.

Definition isOk {A} (r : Result A) : bool := negb (isError r).

(** ** Machine integers and little-endian byte strings *)

Definition u32 (v : Z) : Z := v mod 2 ^ 32.
Definition u64 (v : Z) : Z := v mod 2 ^ 64.

(** The [n] low-order bytes of [v], least significant first: what
    [output.write(reinterpret_cast<const char *>(&v), n)] emits on a
    little-endian target. *)
Fixpoint le_bytes (n : nat) (v : Z) : list Z :=
  match n with
  | O => []
  | S k => v mod 256 :: le_bytes k (v / 256)
  end.

Fixpoint le_decode (bs : list Z) : Z :=
  match bs with
  | [] => 0
  | b :: r => b + 256 * le_decode r
  end.

Definition char_byte (c : ascii) : Z := Z.of_nat (nat_of_ascii c).

Definition string_bytes (s : string) : list Z :=
  char_byte <$> list_ascii_of_string s.

Definition byte_char (b : Z) : ascii := ascii_of_nat (Z.to_nat b).

Definition bytes_string (bs : list Z) : string :=
  string_of_list_ascii (byte_char <$> bs).

(** [id.c_str()] written with [id.size() + 1] bytes. *)
Definition cstr_bytes (s : string) : list Z := string_bytes s ++ [0].

Definition zeros (n : nat) : list Z := replicate n 0.

(** ** Paths ([std::filesystem::path], POSIX flavour) *)

Definition is_slash (c : ascii) : bool := Ascii.eqb c "/"%char.

Fixpoint has_slash (s : string) : bool :=
  match s with
  | EmptyString => false
  | String c r => is_slash c || has_slash r
  end.

(** [path::filename()]: the component after the last separator. *)
Fixpoint filename (s : string) : string :=
  match s with
  | EmptyString => EmptyString
  | String c r =>
      if has_slash r then filename r
      else if is_slash c then r else s
  end.

(** [path::parent_path()]: everything before the last separator; the root
    is its own parent. *)
Fixpoint parent_path (s : string) : string :=
  match s with
  | EmptyString => EmptyString
  | String c r =>
      if has_slash r then String c (parent_path r)
      else EmptyString
  end.

Definition parent_dir (s : string) : string :=
  match s, parent_path s with
  | String c _, EmptyString => if is_slash c then "/" else ""
  | _, p => p
  end.

Fixpoint ends_with_slash (s : string) : bool :=
  match s with
  | EmptyString => false
  | String c EmptyString => is_slash c
  | String _ r => ends_with_slash r
  end.

Definition is_absolute (s : string) : bool :=
  match s with
  | String c _ => is_slash c
  | EmptyString => false
  end.

(** [operator/] on paths. *)
Definition path_join (p q : string) : string :=
  if is_absolute q then q
  else match p with
       | EmptyString => q
       | _ => if ends_with_slash p then p +:+ q else p +:+ "/" +:+ q
       end.

Infix "</>" := path_join (at level 45, left associativity).

(** [path::extension()]: from the last dot of the file name, unless the dot
    is its first character or the name is [.] or [..]. *)
Fixpoint has_dot (s : string) : bool :=
  match s with
  | EmptyString => false
  | String c r => Ascii.eqb c "."%char || has_dot r
  end.

Fixpoint last_dot_suffix (s : string) : string :=
  match s with
  | EmptyString => EmptyString
  | String c r => if has_dot r then last_dot_suffix r else s
  end.

Definition extension (p : string) : string :=
  match filename p with
  | EmptyString => ""
  | String c r =>
      if String.eqb (String c r) "." || String.eqb (String c r) ".." then ""
      else if has_dot r then last_dot_suffix r else ""
  end.

(** ** The file system *)

Inductive node : Type :=
| File (content : list Z)
| Dir.

Abbreviation FS := (gmap string node).

Definition fs_exists (fs : FS) (p : string) : bool :=
  match p with
  | EmptyString => false
  | _ => bool_decide (is_Some (fs !! p)) || String.eqb p "/"
  end.

Definition is_regular_file (fs : FS) (p : string) : bool :=
  match fs !! p with Some (File _) => true | _ => false end.

Definition is_directory (fs : FS) (p : string) : bool :=
  match p with
  | EmptyString => true
  | _ => match fs !! p with
         | Some Dir => true
         | Some (File _) => false
         | None => String.eqb p "/"
         end
  end.

(** [fs::file_size]: throws unless the path is a regular file. *)
Definition file_size (fs : FS) (p : string) : option Z :=
  match fs !! p with
  | Some (File c) => Some (Z.of_nat (length c))
  | _ => None
  end.

Definition read_file (fs : FS) (p : string) : option (list Z) :=
  match fs !! p with
  | Some (File c) => Some c
  | _ => None
  end.

(** An [std::ofstream] opens (creating or truncating the file) when the
    target is not a directory and its parent directory exists. *)
Definition can_open_write (fs : FS) (p : string) : bool :=
  match p with
  | EmptyString => false
  | _ => match fs !! p with Some Dir => false | _ => true end
         && negb (String.eqb p "/")
         && is_directory fs (parent_dir p)
  end.

Definition write_file (fs : FS) (p : string) (c : list Z) : FS :=
  <[p := File c]> fs.

(** [q] is [p] itself or lies below it. *)
Definition under (p q : string) : bool :=
  String.eqb p q
  || String.prefix (if ends_with_slash p then p else p +:+ "/") q.

Definition strictly_under (p q : string) : bool :=
  negb (String.eqb p q) && under p q.

(** [fs::remove_all]. *)
Definition remove_all (fs : FS) (p : string) : FS :=
  filter (fun kv => under p kv.1 = false) fs.

(** ** Output streams *)

(** An [std::ofstream]: the bytes written so far, the put position and the
    fail bit.  Once the fail bit is set every later [write] and [seekp] is a
    no-op and [tellp] answers -1. *)
Record ofstream : Type := mkStream { buf : list Z; pos : nat; failbit : bool }.

Definition stream_open : ofstream := mkStream [] 0 false.

(** [write] overwrites at the put position and extends the file as needed. *)
Definition stream_write (bs : list Z) (o : ofstream) : ofstream :=
  if failbit o then o
  else mkStream (take (pos o) (buf o) ++ bs ++ drop (pos o + length bs) (buf o))
                (pos o + length bs) false.

Definition tellp (o : ofstream) : Z :=
  if failbit o then -1 else Z.of_nat (pos o).

Definition seekp (p : Z) (o : ofstream) : ofstream :=
  if failbit o then o else mkStream (buf o) (Z.to_nat p) false.

(** [output << input.rdbuf()]: inserts the whole input; inserting no
    character at all sets the fail bit. *)
Definition stream_insert_rdbuf (content : list Z) (o : ofstream) : ofstream :=
  if failbit o then o
  else match content with
       | [] => mkStream (buf o) (pos o) true
       | _ => stream_write content o
       end.

Definition write_u16 (v : Z) := stream_write (le_bytes 2 v).
Definition write_u32 (v : Z) := stream_write (le_bytes 4 v).
Definition write_u64 (v : Z) := stream_write (le_bytes 8 v).

(** ** ResourcePackFormat: [BuildSystem::buildPack] *)

(** The text of [filesystem_error::what()] for a missing path. *)
Definition filesystem_error_what (op path : string) : string :=
  "filesystem error: " +:+ op +:+ ": No such file or directory [" +:+ path
  +:+ "]".

(** First loop of [buildPack]: the resource ids and their offsets in the
    string table, starting from [currentStringOffset]. *)
Fixpoint build_string_table (files : list string) (currentStringOffset : Z)
  : list string * list Z :=
  match files with
  | [] => ([], [])
  | file :: rest =>
      let resourceId := filename file in
      let next :=
        u32 (currentStringOffset
             + u32 (u32 (Z.of_nat (String.length resourceId)) + 1)) in
      let '(resourceIds, stringOffsets) := build_string_table rest next in
      (resourceId :: resourceIds, currentStringOffset :: stringOffsets)
  end.

(** One 48-byte resource-table record. *)
Definition write_table_entry (stringIdOffset currentDataOffset fileSize : Z)
    (o : ofstream) : ofstream :=
  let o := write_u32 stringIdOffset o in
  let resourceType := 8 in
  let o := write_u32 resourceType o in
  let dataOffsetEntry := currentDataOffset in
  let o := write_u64 dataOffsetEntry o in
  let compressedSize := fileSize in
  let uncompressedSize := fileSize in
  let o := write_u64 compressedSize o in
  let o := write_u64 uncompressedSize o in
  let resourceFlags := 0 in
  let o := write_u32 resourceFlags o in
  let crc32 := 0 in
  let o := write_u32 crc32 o in
  stream_write (zeros 8) o.

(** Second loop of [buildPack].  [fs::file_size] throws on a path that is
    not a regular file; the stream written so far is kept with the
    exception. *)
Fixpoint write_resource_table (fs : FS) (files : list string)
    (stringOffsets : list Z) (currentDataOffset : Z) (o : ofstream)
  : (string * ofstream) + (Z * ofstream) :=
  match files, stringOffsets with
  | file :: files', stringIdOffset :: stringOffsets' =>
      match file_size fs file with
      | None =>
          (* the two fields before the call to file_size are already out *)
          let o := write_u32 stringIdOffset o in
          let o := write_u32 8 o in
          let o := write_u64 currentDataOffset o in
          inl (filesystem_error_what "cannot get file size" file, o)
      | Some sz =>
          let fileSize := u64 sz in
          let o := write_table_entry stringIdOffset currentDataOffset fileSize o in
          write_resource_table fs files' stringOffsets'
            (u64 (currentDataOffset + fileSize)) o
      end
  | _, _ => inr (currentDataOffset, o)
  end.

(** Last loop of [buildPack]: the data section. *)
Fixpoint write_resource_data (fs : FS) (files : list string) (o : ofstream)
  : ofstream :=
  match files with
  | [] => o
  | file :: rest =>
      let o := match read_file fs file with
               | Some content => stream_insert_rdbuf content o
               | None => o
               end in
      write_resource_data fs rest o
  end.

(** [now] is [std::chrono::system_clock::now().time_since_epoch().count()]. *)
Definition buildPack (now : Z) (fs : FS) (outputPath : string)
    (files : list string) (encrypt compress : bool) : Result unit * FS :=
  if negb (can_open_write fs outputPath)
  then (Error ("Cannot create pack file: " +:+ outputPath), fs)
  else
    let fs := write_file fs outputPath [] in
    let o := stream_open in
    (* pack header *)
    let o := stream_write (string_bytes "NMRS") o in
    let versionMajor := 1 in
    let versionMinor := 0 in
    let o := write_u16 versionMajor o in
    let o := write_u16 versionMinor o in
    let flags := 0 in
    let flags := if encrypt then Z.lor flags 1 else flags in
    let flags := if compress then Z.lor flags 2 else flags in
    let o := write_u32 flags o in
    let resourceCount := u32 (Z.of_nat (length files)) in
    let o := write_u32 resourceCount o in
    let headerPos := tellp o in
    let o := write_u64 0 o in
    let o := write_u64 0 o in
    let o := write_u64 0 o in
    let o := write_u64 0 o in
    let o := stream_write (zeros 16) o in
    let resourceTableOffset := u64 (tellp o) in
    (* string table contents *)
    let '(resourceIds, stringOffsets) := build_string_table files 0 in
    (* resource table *)
    match write_resource_table fs files stringOffsets 0 o with
    | inl (what, o) =>
        (Error ("Pack creation failed: " +:+ what),
         write_file fs outputPath (buf o))
    | inr (_, o) =>
        (* string table *)
        let stringTableOffset := u64 (tellp o) in
        let stringCount := u32 (Z.of_nat (length resourceIds)) in
        let o := write_u32 stringCount o in
        let o := foldl (fun o offset => write_u32 offset o) o stringOffsets in
        let o := foldl (fun o id => stream_write (cstr_bytes id) o) o
                       resourceIds in
        (* resource data *)
        let dataOffset := u64 (tellp o) in
        let o := write_resource_data fs files o in
        (* footer *)
        let o := stream_write (string_bytes "NMRF") o in
        let tableCrc := 0 in
        let o := write_u32 tableCrc o in
        let timestamp := u64 now in
        let o := write_u64 timestamp o in
        let buildNumber := 1 in
        let o := write_u32 buildNumber o in
        let o := stream_write (zeros 12) o in
        (* patch the header *)
        let totalFileSize := u64 (tellp o) in
        let o := seekp headerPos o in
        let o := write_u64 resourceTableOffset o in
        let o := write_u64 stringTableOffset o in
        let o := write_u64 dataOffset o in
        let o := write_u64 totalFileSize o in
        (Ok tt, write_file fs outputPath (buf o))
    end.

(** *** Reading the fields of a written pack

    Field positions follow the writer: a 64-byte header with [resourceCount]
    at byte 12, then the 48-byte records, then the string table (a count, one
    [u32] offset per resource, the null-terminated names). *)

Definition slice (off len : nat) (bs : list Z) : list Z :=
  take len (drop off bs).

Definition get_u32 (off : nat) (bs : list Z) : Z := le_decode (slice off 4 bs).
Definition get_u64 (off : nat) (bs : list Z) : Z := le_decode (slice off 8 bs).

Definition header_resourceCount (bs : list Z) : Z := get_u32 12 bs.
Definition header_resourceTableOffset (bs : list Z) : Z := get_u64 16 bs.
Definition header_stringTableOffset (bs : list Z) : Z := get_u64 24 bs.
Definition header_dataOffset (bs : list Z) : Z := get_u64 32 bs.
Definition header_totalFileSize (bs : list Z) : Z := get_u64 40 bs.

Record TableEntry : Type := mkEntry {
  stringOffset : Z;
  resourceType : Z;
  dataOffset : Z;
  compressedSize : Z;
  uncompressedSize : Z;
  entryFlags : Z;
  crc32 : Z
}.

Definition entry_at (bs : list Z) (i : nat) : TableEntry :=
  let base := (64 + 48 * i)%nat in
  mkEntry (get_u32 base bs) (get_u32 (base + 4) bs) (get_u64 (base + 8) bs)
          (get_u64 (base + 16) bs) (get_u64 (base + 24) bs)
          (get_u32 (base + 32) bs) (get_u32 (base + 36) bs).

Definition table_entries (bs : list Z) : list TableEntry :=
  entry_at bs <$> seq 0 (Z.to_nat (header_resourceCount bs)).

(** The bytes up to the first null. *)
Fixpoint read_cstr (bs : list Z) : list Z :=
  match bs with
  | [] => []
  | b :: r => if Z.eqb b 0 then [] else b :: read_cstr r
  end.

(** Start of the name blob: after the records, the count and the offsets. *)
Definition string_blob_start (bs : list Z) : nat :=
  let n := Z.to_nat (header_resourceCount bs) in
  (64 + 48 * n + 4 + 4 * n)%nat.

Definition name_at (bs : list Z) (off : Z) : string :=
  bytes_string (read_cstr (drop (string_blob_start bs + Z.to_nat off) bs)).

Definition entry_names (bs : list Z) : list string :=
  (fun e => name_at bs (stringOffset e)) <$> table_entries bs.

Definition pack_bytes (r : Result unit * FS) (outputPath : string) : list Z :=
  default [] (read_file r.2 outputPath).

(** *** Closed forms of the writer's loops, used to state and prove its
    properties *)

Definition Zsum (l : list Z) : Z := foldr Z.add 0 l.

(** A stream positioned at its end with no error. *)
Definition app_stream (b : list Z) : ofstream := mkStream b (length b) false.

(** The bytes of one record, from (string offset, data offset, size). *)
Definition entry_bytes (row : Z * Z * Z) : list Z :=
  let '(so, doff, sz) := row in
  le_bytes 4 so ++ le_bytes 4 8 ++ le_bytes 8 doff ++ le_bytes 8 sz
  ++ le_bytes 8 sz ++ le_bytes 4 0 ++ le_bytes 4 0 ++ zeros 8.

(** The rows the table loop produces for given string offsets and sizes. *)
Fixpoint table_rows (stringOffsets sizes : list Z) (currentDataOffset : Z)
  : list (Z * Z * Z) :=
  match stringOffsets, sizes with
  | so :: sos, sz :: szs =>
      (so, currentDataOffset, u64 sz)
      :: table_rows sos szs (u64 (currentDataOffset + u64 sz))
  | _, _ => []
  end.

(** Sizes of the input files, as [fs::file_size] reports them. *)
Definition file_sizes (fs : FS) (files : list string) : list Z :=
  (fun f => default 0 (file_size fs f)) <$> files.

(** Bytes each recorded name takes in the string table (with its null). *)
Definition name_sizes (files : list string) : list Z :=
  (fun f => Z.of_nat (String.length (filename f)) + 1) <$> files.

Definition nul_free (s : string) : bool :=
  forallb (fun c => negb (Ascii.eqb c zero)) (list_ascii_of_string s).

(** The first 16 bytes of every pack. *)
Definition header_prefix (n : nat) (encrypt compress : bool) : list Z :=
  let flags := 0 in
  let flags := if encrypt then Z.lor flags 1 else flags in
  let flags := if compress then Z.lor flags 2 else flags in
  string_bytes "NMRS" ++ le_bytes 2 1 ++ le_bytes 2 0 ++ le_bytes 4 flags
  ++ le_bytes 4 (u32 (Z.of_nat n)).

Definition string_table_bytes (ids : list string) (offs : list Z) : list Z :=
  le_bytes 4 (u32 (Z.of_nat (length ids)))
  ++ concat (le_bytes 4 <$> offs) ++ concat (cstr_bytes <$> ids).

(** A stream that still holds [b0] as a prefix and is either failed or
    positioned at its end. *)
Definition extends (b0 : list Z) (o : ofstream) : Prop :=
  (exists rest, buf o = (b0 ++ rest))
  /\ (failbit o = true \/ pos o = length (buf o)).

Definition name_len (id : string) : Z := Z.of_nat (String.length id) + 1.

(** What the [i]-th record of a pack built from [files] must hold. *)
Definition expected_entry (fs : FS) (files : list string) (i : nat)
  : TableEntry :=
  let sz := default 0 (file_sizes fs files !! i) in
  mkEntry (Zsum (take i (name_sizes files))) 8
          (Zsum (take i (file_sizes fs files))) sz sz 0 0.

(** A small staging tree used to run the writer. *)
Definition fs_pack_example : FS :=
  {[ "/s/packs" := Dir;
     "/s/assets/a/x.png" := File [1; 2; 3];
     "/s/assets/b/x.png" := File [4; 5];
     "/s/assets/empty.dat" := File [] ]}.

Definition files_pack_example : list string :=
  ["/s/assets/a/x.png"; "/s/assets/empty.dat"; "/s/assets/b/x.png"].

(** ** More of [std::filesystem] *)

(** Every proper prefix of [s] that ends just before a separator, then [s]
    itself: the directories [create_directories] has to make. *)
Fixpoint path_prefixes_aux (pre s : string) : list string :=
  match s with
  | EmptyString => [pre]
  | String c r =>
      if is_slash c
      then pre :: path_prefixes_aux (pre +:+ "/") r
      else path_prefixes_aux (pre +:+ String c EmptyString) r
  end.

Definition path_prefixes (p : string) : list string :=
  filter (fun q => q <> "" /\ ends_with_slash q = false)
         (path_prefixes_aux "" p).

(** [fs::create_directories]: makes the path and its missing ancestors;
    throws when one of them is a regular file. *)
Definition create_directories (fs : FS) (p : string) : option FS :=
  foldl (fun acc q =>
           fs' ← acc;
           match fs' !! q with
           | Some (File _) => None
           | Some Dir => Some fs'
           | None => Some (<[q := Dir]> fs')
           end)
        (Some fs) (path_prefixes p).

(** The paths strictly below [dir], as a [recursive_directory_iterator]
    visits them (in an unspecified order); throws unless [dir] is a
    directory. *)
Definition list_recursive (fs : FS) (dir : string) : option (list string) :=
  if is_directory fs dir
  then Some (filter (fun q => strictly_under dir q = true) (map_to_list fs).*1)
  else None.

(** The direct children of [dir], as a [directory_iterator] visits them. *)
Definition list_directory (fs : FS) (dir : string) : option (list string) :=
  if is_directory fs dir
  then Some (filter (fun q => strictly_under dir q = true
                              /\ has_slash (String.substring
                                   (String.length
                                      (if ends_with_slash dir then dir
                                       else dir +:+ "/"))
                                   (String.length q) q) = false)
                    (map_to_list fs).*1)
  else None.

(** The rest of [q] after the prefix [p], when [p] is a prefix. *)
Fixpoint strip_prefix (p q : string) : option string :=
  match p, q with
  | EmptyString, _ => Some q
  | String a p', String b q' =>
      if Ascii.eqb a b then strip_prefix p' q' else None
  | _, _ => None
  end.

(** [fs::relative(p, base)] for a path below [base]: the remainder of the
    path.  (A path outside [base] would get a [..]-relative name; the build
    only asks for paths it found below [base].) *)
Definition relative (p base : string) : string :=
  match strip_prefix (if ends_with_slash base then base else base +:+ "/") p with
  | Some r => r
  | None => if String.eqb p base then "." else p
  end.

(** [fs::copy(from, to, overwrite_existing)] of a regular file; throws when
    the source is no regular file or the target cannot be written. *)
Definition copy_file (fs : FS) (from to : string) : option FS :=
  match read_file fs from with
  | Some c => if can_open_write fs to then Some (write_file fs to c) else None
  | None => None
  end.

(** [fs::copy(from, to, recursive | overwrite_existing)] of a directory. *)
Definition copy_tree (fs : FS) (from to : string) : option FS :=
  if is_directory fs from && is_directory fs (parent_dir to)
  then Some (foldl (fun acc kv =>
                      match strip_prefix from kv.1 with
                      | Some rest =>
                          if under from kv.1 then <[to +:+ rest := kv.2]> acc
                          else acc
                      | None => acc
                      end)
                   fs (map_to_list fs))
  else None.

(** [fs::rename(from, to)]: moves the node and everything below it. *)
Definition rename (fs : FS) (from to : string) : option FS :=
  if fs_exists fs from && is_directory fs (parent_dir to)
  then Some (foldl (fun acc kv =>
                      match strip_prefix from kv.1 with
                      | Some rest =>
                          if under from kv.1
                          then <[to +:+ rest := kv.2]> (delete kv.1 acc)
                          else acc
                      | None => acc
                      end)
                   fs (map_to_list fs))
  else None.

(** [BuildUtils::calculateDirectorySize]: the sizes of the regular files
    below [path]; 0 when the directory cannot be read. *)
Definition calculateDirectorySize (fs : FS) (path : string) : Z :=
  match list_recursive fs path with
  | Some entries =>
      foldl (fun total q => total + default 0 (file_size fs q)) 0 entries
  | None => 0
  end.

(** [std::string::find(needle) != npos] and [find(needle) == 0]. *)
Definition find (hay needle : string) : option nat := String.index 0 needle hay.

Definition contains (hay needle : string) : bool :=
  match find hay needle with Some _ => true | None => false end.

Definition starts_with (hay needle : string) : bool :=
  match find hay needle with Some O => true | _ => false end.

(** [::tolower] over a string. *)
Definition tolower_char (c : ascii) : ascii :=
  let n := nat_of_ascii c in
  if (65 <=? n)%nat && (n <=? 90)%nat then ascii_of_nat (n + 32) else c.

Fixpoint tolower (s : string) : string :=
  match s with
  | EmptyString => EmptyString
  | String c r => String (tolower_char c) (tolower r)
  end.

(** [std::replace(s.begin(), s.end(), from, to)]. *)
Fixpoint replace_char (from to : ascii) (s : string) : string :=
  match s with
  | EmptyString => EmptyString
  | String c r =>
      String (if Ascii.eqb c from then to else c) (replace_char from to r)
  end.

(** ** binary32 arithmetic

    A finite [f32] value is represented by the integer [v] with value
    [v * 2^-149]: every finite binary32 number, subnormal or not, is such a
    multiple.  Operations compute the exact rational result and round it to
    nearest, ties to even, at 24 significant bits.  Overflow to infinity is
    outside the model (no value here comes near 2^128). *)

(** [n / d] rounded to the nearest integer, ties to even ([0 < d]). *)
Definition rne (n d : Z) : Z :=
  let q := n / d in
  let r := n mod d in
  if Z.ltb (2 * r) d then q
  else if Z.ltb d (2 * r) then q + 1
  else if Z.even q then q else q + 1.

(** The non-negative rational [n / d], counted in units of 2^-149, rounded
    to a binary32 number: below 2^24 units the spacing is one unit, above
    it the spacing is [2^e] with [e = floor(log2 (n/d)) - 23]. *)
Definition round_pos (n d : Z) : Z :=
  let e := Z.max 0 (Z.log2 (n / d) - 23) in
  rne n (d * 2 ^ e) * 2 ^ e.

Definition round_f32 (n d : Z) : Z :=
  if Z.ltb n 0 then - round_pos (- n) d else round_pos n d.

Definition f32_one_units : Z := 2 ^ 149.

(** A decimal literal [num/den] with the [f] suffix. *)
Definition f32_lit (num den : Z) : Z := round_f32 (num * f32_one_units) den.

(** [static_cast<f32>] of an integer. *)
Definition f32_of_int (k : Z) : Z := round_f32 (k * f32_one_units) 1.

Definition f32_add (a b : Z) : Z := round_f32 (a + b) 1.
Definition f32_mul (a b : Z) : Z := round_f32 (a * b) f32_one_units.
(** Division by a positive divisor. *)
Definition f32_div (a b : Z) : Z := round_f32 (a * f32_one_units) b.

(** The numerator of an [f32] over the denominator 2^149, for display and
    tests. *)
Definition f32_is (v num : Z) (exp2 : Z) : bool :=
  Z.eqb (v * 2 ^ exp2) (num * f32_one_units).

(** ** The build system's data model

    Modelled from the spec: [build_system.hpp], which declares [BuildConfig],
    [BuildStep], [BuildProgress], [BuildResult] and the members of
    [BuildSystem], is not among the sources.  The records below carry the
    fields [build_system.cpp] reads and writes, with the types the spec's data
    model gives them; wall-clock fields ([duration], [elapsedMs],
    [buildTimeMs]) are left out.  [BuildProgress{}] and [BuildResult{}] are
    taken to be zero-initialised (numbers 0, flags false, containers
    empty). *)

Inductive BuildPlatform : Type := Windows | Linux | MacOS | All.

Inductive CompressionLevel : Type :=
| CompressionNone | CompressionFast | CompressionBalanced | CompressionMaximum.

Definition compression_is_none (c : CompressionLevel) : bool :=
  match c with CompressionNone => true | _ => false end.

Record BuildConfig : Type := mkConfig {
  projectPath : string;
  outputPath : string;
  platform : BuildPlatform;
  compression : CompressionLevel;
  encryptAssets : bool;
  packAssets : bool;
  includedLanguages : list string;
  defaultLanguage : string;
  executableName : string;
  version : string;
  signExecutable : bool;
  signingCertificate : string;
  enableLogging : bool;
  includeDebugConsole : bool
}.

(** [progressWeight] is an [f32]. *)
Record BuildStep : Type := mkStep {
  step_name : string;
  step_description : string;
  progressWeight : Z;
  completed : bool;
  step_success : bool;
  step_errorMessage : string
}.

Definition step_set_name (v : string) (r : BuildStep) : BuildStep :=
  mkStep v (step_description r) (progressWeight r) (completed r) (step_success r) (step_errorMessage r).

Definition step_set_description (v : string) (r : BuildStep) : BuildStep :=
  mkStep (step_name r) v (progressWeight r) (completed r) (step_success r) (step_errorMessage r).

Definition step_set_progressWeight (v : Z) (r : BuildStep) : BuildStep :=
  mkStep (step_name r) (step_description r) v (completed r) (step_success r) (step_errorMessage r).

Definition step_set_completed (v : bool) (r : BuildStep) : BuildStep :=
  mkStep (step_name r) (step_description r) (progressWeight r) v (step_success r) (step_errorMessage r).

Definition step_set_success (v : bool) (r : BuildStep) : BuildStep :=
  mkStep (step_name r) (step_description r) (progressWeight r) (completed r) v (step_errorMessage r).

Definition step_set_errorMessage (v : string) (r : BuildStep) : BuildStep :=
  mkStep (step_name r) (step_description r) (progressWeight r) (completed r) (step_success r) v.

(** [progress] is an [f32]; [currentStepIndex] an [i32]. *)
Record BuildProgress : Type := mkProgress {
  progress : Z;
  currentStep : string;
  currentTask : string;
  steps : list BuildStep;
  currentStepIndex : Z;
  totalFiles : Z;
  filesProcessed : Z;
  bytesProcessed : Z;
  errors : list string;
  warnings : list string;
  infoMessages : list string;
  isRunning : bool;
  isComplete : bool;
  wasSuccessful : bool;
  wasCancelled : bool
}.

Definition progress_set_progress (v : Z) (r : BuildProgress) : BuildProgress :=
  mkProgress v (currentStep r) (currentTask r) (steps r) (currentStepIndex r) (totalFiles r) (filesProcessed r) (bytesProcessed r) (errors r) (warnings r) (infoMessages r) (isRunning r) (isComplete r) (wasSuccessful r) (wasCancelled r).

Definition progress_set_currentStep (v : string) (r : BuildProgress) : BuildProgress :=
  mkProgress (progress r) v (currentTask r) (steps r) (currentStepIndex r) (totalFiles r) (filesProcessed r) (bytesProcessed r) (errors r) (warnings r) (infoMessages r) (isRunning r) (isComplete r) (wasSuccessful r) (wasCancelled r).

Definition progress_set_currentTask (v : string) (r : BuildProgress) : BuildProgress :=
  mkProgress (progress r) (currentStep r) v (steps r) (currentStepIndex r) (totalFiles r) (filesProcessed r) (bytesProcessed r) (errors r) (warnings r) (infoMessages r) (isRunning r) (isComplete r) (wasSuccessful r) (wasCancelled r).

Definition progress_set_steps (v : list BuildStep) (r : BuildProgress) : BuildProgress :=
  mkProgress (progress r) (currentStep r) (currentTask r) v (currentStepIndex r) (totalFiles r) (filesProcessed r) (bytesProcessed r) (errors r) (warnings r) (infoMessages r) (isRunning r) (isComplete r) (wasSuccessful r) (wasCancelled r).

Definition progress_set_currentStepIndex (v : Z) (r : BuildProgress) : BuildProgress :=
  mkProgress (progress r) (currentStep r) (currentTask r) (steps r) v (totalFiles r) (filesProcessed r) (bytesProcessed r) (errors r) (warnings r) (infoMessages r) (isRunning r) (isComplete r) (wasSuccessful r) (wasCancelled r).

Definition progress_set_totalFiles (v : Z) (r : BuildProgress) : BuildProgress :=
  mkProgress (progress r) (currentStep r) (currentTask r) (steps r) (currentStepIndex r) v (filesProcessed r) (bytesProcessed r) (errors r) (warnings r) (infoMessages r) (isRunning r) (isComplete r) (wasSuccessful r) (wasCancelled r).

Definition progress_set_filesProcessed (v : Z) (r : BuildProgress) : BuildProgress :=
  mkProgress (progress r) (currentStep r) (currentTask r) (steps r) (currentStepIndex r) (totalFiles r) v (bytesProcessed r) (errors r) (warnings r) (infoMessages r) (isRunning r) (isComplete r) (wasSuccessful r) (wasCancelled r).

Definition progress_set_bytesProcessed (v : Z) (r : BuildProgress) : BuildProgress :=
  mkProgress (progress r) (currentStep r) (currentTask r) (steps r) (currentStepIndex r) (totalFiles r) (filesProcessed r) v (errors r) (warnings r) (infoMessages r) (isRunning r) (isComplete r) (wasSuccessful r) (wasCancelled r).

Definition progress_set_errors (v : list string) (r : BuildProgress) : BuildProgress :=
  mkProgress (progress r) (currentStep r) (currentTask r) (steps r) (currentStepIndex r) (totalFiles r) (filesProcessed r) (bytesProcessed r) v (warnings r) (infoMessages r) (isRunning r) (isComplete r) (wasSuccessful r) (wasCancelled r).

Definition progress_set_warnings (v : list string) (r : BuildProgress) : BuildProgress :=
  mkProgress (progress r) (currentStep r) (currentTask r) (steps r) (currentStepIndex r) (totalFiles r) (filesProcessed r) (bytesProcessed r) (errors r) v (infoMessages r) (isRunning r) (isComplete r) (wasSuccessful r) (wasCancelled r).

Definition progress_set_infoMessages (v : list string) (r : BuildProgress) : BuildProgress :=
  mkProgress (progress r) (currentStep r) (currentTask r) (steps r) (currentStepIndex r) (totalFiles r) (filesProcessed r) (bytesProcessed r) (errors r) (warnings r) v (isRunning r) (isComplete r) (wasSuccessful r) (wasCancelled r).

Definition progress_set_isRunning (v : bool) (r : BuildProgress) : BuildProgress :=
  mkProgress (progress r) (currentStep r) (currentTask r) (steps r) (currentStepIndex r) (totalFiles r) (filesProcessed r) (bytesProcessed r) (errors r) (warnings r) (infoMessages r) v (isComplete r) (wasSuccessful r) (wasCancelled r).

Definition progress_set_isComplete (v : bool) (r : BuildProgress) : BuildProgress :=
  mkProgress (progress r) (currentStep r) (currentTask r) (steps r) (currentStepIndex r) (totalFiles r) (filesProcessed r) (bytesProcessed r) (errors r) (warnings r) (infoMessages r) (isRunning r) v (wasSuccessful r) (wasCancelled r).

Definition progress_set_wasSuccessful (v : bool) (r : BuildProgress) : BuildProgress :=
  mkProgress (progress r) (currentStep r) (currentTask r) (steps r) (currentStepIndex r) (totalFiles r) (filesProcessed r) (bytesProcessed r) (errors r) (warnings r) (infoMessages r) (isRunning r) (isComplete r) v (wasCancelled r).

Definition progress_set_wasCancelled (v : bool) (r : BuildProgress) : BuildProgress :=
  mkProgress (progress r) (currentStep r) (currentTask r) (steps r) (currentStepIndex r) (totalFiles r) (filesProcessed r) (bytesProcessed r) (errors r) (warnings r) (infoMessages r) (isRunning r) (isComplete r) (wasSuccessful r) v.

Definition BuildProgress_default : BuildProgress :=
  mkProgress 0 "" "" [] 0 0 0 0 [] [] [] false false false false.

Record BuildResult : Type := mkResult {
  result_success : bool;
  result_outputPath : string;
  result_errorMessage : string;
  scriptsCompiled : Z;
  assetsProcessed : Z;
  totalSize : Z;
  result_compressedSize : Z;
  result_warnings : list string
}.

Definition set_result_success (v : bool) (r : BuildResult) : BuildResult :=
  mkResult v (result_outputPath r) (result_errorMessage r) (scriptsCompiled r) (assetsProcessed r) (totalSize r) (result_compressedSize r) (result_warnings r).

Definition set_result_outputPath (v : string) (r : BuildResult) : BuildResult :=
  mkResult (result_success r) v (result_errorMessage r) (scriptsCompiled r) (assetsProcessed r) (totalSize r) (result_compressedSize r) (result_warnings r).

Definition set_result_errorMessage (v : string) (r : BuildResult) : BuildResult :=
  mkResult (result_success r) (result_outputPath r) v (scriptsCompiled r) (assetsProcessed r) (totalSize r) (result_compressedSize r) (result_warnings r).

Definition set_scriptsCompiled (v : Z) (r : BuildResult) : BuildResult :=
  mkResult (result_success r) (result_outputPath r) (result_errorMessage r) v (assetsProcessed r) (totalSize r) (result_compressedSize r) (result_warnings r).

Definition set_assetsProcessed (v : Z) (r : BuildResult) : BuildResult :=
  mkResult (result_success r) (result_outputPath r) (result_errorMessage r) (scriptsCompiled r) v (totalSize r) (result_compressedSize r) (result_warnings r).

Definition set_totalSize (v : Z) (r : BuildResult) : BuildResult :=
  mkResult (result_success r) (result_outputPath r) (result_errorMessage r) (scriptsCompiled r) (assetsProcessed r) v (result_compressedSize r) (result_warnings r).

Definition set_result_compressedSize (v : Z) (r : BuildResult) : BuildResult :=
  mkResult (result_success r) (result_outputPath r) (result_errorMessage r) (scriptsCompiled r) (assetsProcessed r) (totalSize r) v (result_warnings r).

Definition set_result_warnings (v : list string) (r : BuildResult) : BuildResult :=
  mkResult (result_success r) (result_outputPath r) (result_errorMessage r) (scriptsCompiled r) (assetsProcessed r) (totalSize r) (result_compressedSize r) v.

Definition BuildResult_default : BuildResult :=
  mkResult false "" "" 0 0 0 0 [].

(** The state a build runs in: the members of [BuildSystem], the file
    system, the clock, and what the registered callbacks have been handed so
    far (oldest first).

    [m_onProgressUpdate] is the registered progress callback, if any.  The
    callback runs on the build thread; its answer says whether it calls
    [cancelBuild()] before it returns.  This is how a cancellation request
    enters a run: at a progress report.  The other three callbacks only
    observe. *)
Record BS : Type := mkBS {
  m_config : BuildConfig;
  m_buildInProgress : bool;
  m_cancelRequested : bool;
  m_progress : BuildProgress;
  m_lastResult : BuildResult;
  m_scriptFiles : list string;
  m_assetFiles : list string;
  m_assetMapping : gmap string string;
  m_buildThread : bool;
  m_onProgressUpdate : option (BuildProgress -> bool);
  disk : FS;
  clock : Z;
  progressReports : list BuildProgress;
  stepReports : list BuildStep;
  resultReports : list BuildResult;
  logReports : list (string * bool)
}.

Definition set_m_config (v : BuildConfig) (r : BS) : BS :=
  mkBS v (m_buildInProgress r) (m_cancelRequested r) (m_progress r) (m_lastResult r) (m_scriptFiles r) (m_assetFiles r) (m_assetMapping r) (m_buildThread r) (m_onProgressUpdate r) (disk r) (clock r) (progressReports r) (stepReports r) (resultReports r) (logReports r).

Definition set_m_buildInProgress (v : bool) (r : BS) : BS :=
  mkBS (m_config r) v (m_cancelRequested r) (m_progress r) (m_lastResult r) (m_scriptFiles r) (m_assetFiles r) (m_assetMapping r) (m_buildThread r) (m_onProgressUpdate r) (disk r) (clock r) (progressReports r) (stepReports r) (resultReports r) (logReports r).

Definition set_m_cancelRequested (v : bool) (r : BS) : BS :=
  mkBS (m_config r) (m_buildInProgress r) v (m_progress r) (m_lastResult r) (m_scriptFiles r) (m_assetFiles r) (m_assetMapping r) (m_buildThread r) (m_onProgressUpdate r) (disk r) (clock r) (progressReports r) (stepReports r) (resultReports r) (logReports r).

Definition set_m_progress (v : BuildProgress) (r : BS) : BS :=
  mkBS (m_config r) (m_buildInProgress r) (m_cancelRequested r) v (m_lastResult r) (m_scriptFiles r) (m_assetFiles r) (m_assetMapping r) (m_buildThread r) (m_onProgressUpdate r) (disk r) (clock r) (progressReports r) (stepReports r) (resultReports r) (logReports r).

Definition set_m_lastResult (v : BuildResult) (r : BS) : BS :=
  mkBS (m_config r) (m_buildInProgress r) (m_cancelRequested r) (m_progress r) v (m_scriptFiles r) (m_assetFiles r) (m_assetMapping r) (m_buildThread r) (m_onProgressUpdate r) (disk r) (clock r) (progressReports r) (stepReports r) (resultReports r) (logReports r).

Definition set_m_scriptFiles (v : list string) (r : BS) : BS :=
  mkBS (m_config r) (m_buildInProgress r) (m_cancelRequested r) (m_progress r) (m_lastResult r) v (m_assetFiles r) (m_assetMapping r) (m_buildThread r) (m_onProgressUpdate r) (disk r) (clock r) (progressReports r) (stepReports r) (resultReports r) (logReports r).

Definition set_m_assetFiles (v : list string) (r : BS) : BS :=
  mkBS (m_config r) (m_buildInProgress r) (m_cancelRequested r) (m_progress r) (m_lastResult r) (m_scriptFiles r) v (m_assetMapping r) (m_buildThread r) (m_onProgressUpdate r) (disk r) (clock r) (progressReports r) (stepReports r) (resultReports r) (logReports r).

Definition set_m_assetMapping (v : gmap string string) (r : BS) : BS :=
  mkBS (m_config r) (m_buildInProgress r) (m_cancelRequested r) (m_progress r) (m_lastResult r) (m_scriptFiles r) (m_assetFiles r) v (m_buildThread r) (m_onProgressUpdate r) (disk r) (clock r) (progressReports r) (stepReports r) (resultReports r) (logReports r).

Definition set_m_buildThread (v : bool) (r : BS) : BS :=
  mkBS (m_config r) (m_buildInProgress r) (m_cancelRequested r) (m_progress r) (m_lastResult r) (m_scriptFiles r) (m_assetFiles r) (m_assetMapping r) v (m_onProgressUpdate r) (disk r) (clock r) (progressReports r) (stepReports r) (resultReports r) (logReports r).

Definition set_m_onProgressUpdate (v : option (BuildProgress -> bool)) (r : BS) : BS :=
  mkBS (m_config r) (m_buildInProgress r) (m_cancelRequested r) (m_progress r) (m_lastResult r) (m_scriptFiles r) (m_assetFiles r) (m_assetMapping r) (m_buildThread r) v (disk r) (clock r) (progressReports r) (stepReports r) (resultReports r) (logReports r).

Definition set_disk (v : FS) (r : BS) : BS :=
  mkBS (m_config r) (m_buildInProgress r) (m_cancelRequested r) (m_progress r) (m_lastResult r) (m_scriptFiles r) (m_assetFiles r) (m_assetMapping r) (m_buildThread r) (m_onProgressUpdate r) v (clock r) (progressReports r) (stepReports r) (resultReports r) (logReports r).

Definition set_clock (v : Z) (r : BS) : BS :=
  mkBS (m_config r) (m_buildInProgress r) (m_cancelRequested r) (m_progress r) (m_lastResult r) (m_scriptFiles r) (m_assetFiles r) (m_assetMapping r) (m_buildThread r) (m_onProgressUpdate r) (disk r) v (progressReports r) (stepReports r) (resultReports r) (logReports r).

Definition set_progressReports (v : list BuildProgress) (r : BS) : BS :=
  mkBS (m_config r) (m_buildInProgress r) (m_cancelRequested r) (m_progress r) (m_lastResult r) (m_scriptFiles r) (m_assetFiles r) (m_assetMapping r) (m_buildThread r) (m_onProgressUpdate r) (disk r) (clock r) v (stepReports r) (resultReports r) (logReports r).

Definition set_stepReports (v : list BuildStep) (r : BS) : BS :=
  mkBS (m_config r) (m_buildInProgress r) (m_cancelRequested r) (m_progress r) (m_lastResult r) (m_scriptFiles r) (m_assetFiles r) (m_assetMapping r) (m_buildThread r) (m_onProgressUpdate r) (disk r) (clock r) (progressReports r) v (resultReports r) (logReports r).

Definition set_resultReports (v : list BuildResult) (r : BS) : BS :=
  mkBS (m_config r) (m_buildInProgress r) (m_cancelRequested r) (m_progress r) (m_lastResult r) (m_scriptFiles r) (m_assetFiles r) (m_assetMapping r) (m_buildThread r) (m_onProgressUpdate r) (disk r) (clock r) (progressReports r) (stepReports r) v (logReports r).

Definition set_logReports (v : list (string * bool)) (r : BS) : BS :=
  mkBS (m_config r) (m_buildInProgress r) (m_cancelRequested r) (m_progress r) (m_lastResult r) (m_scriptFiles r) (m_assetFiles r) (m_assetMapping r) (m_buildThread r) (m_onProgressUpdate r) (disk r) (clock r) (progressReports r) (stepReports r) (resultReports r) v.

Definition on_progress (f : BuildProgress -> BuildProgress) (s : BS) : BS :=
  set_m_progress (f (m_progress s)) s.

(** ** Computations on the build state, with C++ exceptions *)

Inductive outcome (A : Type) : Type :=
| Val (a : A)
| Throw (what : string).
Arguments Val {A} a.
Arguments Throw {A} what.

Definition M (A : Type) : Type := BS -> outcome A * BS.

Definition ret {A} (a : A) : M A := fun s => (Val a, s).

Definition bind {A B} (m : M A) (k : A -> M B) : M B :=
  fun s => match m s with
           | (Val a, s') => k a s'
           | (Throw w, s') => (Throw w, s')
           end.

Definition throw {A} (what : string) : M A := fun s => (Throw what, s).

Definition gets {A} (f : BS -> A) : M A := fun s => (Val (f s), s).

Definition modify (f : BS -> BS) : M unit := fun s => (Val tt, f s).

(** [try { m } catch (const std::exception &e) { h(e.what()) }]. *)
Definition try_catch {A} (m : M A) (h : string -> M A) : M A :=
  fun s => match m s with
           | (Throw w, s') => h w s'
           | r => r
           end.

Notation "x <- m ;; k" := (bind m (fun x => k))
  (at level 100, m at next level, right associativity).
Notation "m ;;; k" := (bind m (fun _ => k))
  (at level 100, right associativity).

(** A file-system call that may throw [filesystem_error]. *)
Definition fs_try (op path : string) (f : FS -> option FS) : M unit :=
  fun s => match f (disk s) with
           | Some d => (Val tt, set_disk d s)
           | None => (Throw (filesystem_error_what op path), s)
           end.

(** A range-based [for] whose body may [return] from the enclosing
    function: the body yields [inr r] to return [r], [inl acc] to go on with
    the loop-carried variables [acc]. *)
Fixpoint for_each {X Acc R} (l : list X) (acc : Acc)
    (body : X -> Acc -> M (Acc + R)) : M (Acc + R) :=
  match l with
  | [] => ret (inl acc)
  | x :: rest =>
      r <- body x acc ;;
      match r with
      | inl acc' => for_each rest acc' body
      | inr v => ret (inr v)
      end
  end.

(** ** [BuildSystem]: progress, logging and the public entry points *)

Definition nl : string := String (ascii_of_nat 10) EmptyString.
Definition dq : string := String (ascii_of_nat 34) EmptyString.
Definition quoted (s : string) : string := dq +:+ s +:+ dq.
Definition json_bool (b : bool) : string := if b then "true" else "false".

(** [std::to_string] and [operator<<] on integers. *)
Definition to_string (n : Z) : string := pretty.pretty n.

(** Text written through an [std::ofstream] that is only used when it
    opened. *)
Definition write_text (path content : string) : M unit :=
  modify (fun s =>
            if can_open_write (disk s) path
            then set_disk (write_file (disk s) path (string_bytes content)) s
            else s).

Definition logMessage (message : string) (isError : bool) : M unit :=
  modify (fun s =>
    let s := on_progress
               (fun p => if isError
                         then progress_set_errors (errors p ++ [message]) p
                         else progress_set_infoMessages
                                (infoMessages p ++ [message]) p) s in
    set_logReports (logReports s ++ [(message, isError)]) s).

Definition cancelBuild : M unit :=
  inProgress <- gets m_buildInProgress ;;
  if inProgress
  then modify (set_m_cancelRequested true) ;;;
       logMessage "Build cancellation requested..." false
  else ret tt.

(** The loop [for (i = 0; i < currentStepIndex; i++) completedWeight +=
    steps[i].progressWeight], starting from [0.0f]. *)
Definition completedWeight (steps : list BuildStep) (idx : Z) : Z :=
  foldl f32_add 0 (progressWeight <$> take (Z.to_nat idx) steps).

(** [if (m_onProgressUpdate) m_onProgressUpdate(m_progress)]: the callback
    receives the current progress and may call [cancelBuild]. *)
Definition notifyProgress : M unit :=
  fun s =>
    match m_onProgressUpdate s with
    | Some handler =>
        let p := m_progress s in
        let s := set_progressReports (progressReports s ++ [p]) s in
        if handler p then cancelBuild s else (Val tt, s)
    | None => (Val tt, s)
    end.

Definition updateProgress (stepProgress : Z) (task : string) : M unit :=
  modify (on_progress (fun p =>
    let idx := currentStepIndex p in
    if Z.leb 0 idx && Z.ltb idx (Z.of_nat (length (steps p)))
    then
      let currentWeight :=
        default 0 (progressWeight <$> steps p !! Z.to_nat idx) in
      progress_set_progress
        (f32_add (completedWeight (steps p) idx)
                 (f32_mul currentWeight stepProgress)) p
    else p)) ;;;
  modify (on_progress (progress_set_currentTask task)) ;;;
  notifyProgress.

Fixpoint find_step (name : string) (steps : list BuildStep) (i : nat)
  : option nat :=
  match steps with
  | [] => None
  | st :: rest =>
      if String.eqb (step_name st) name then Some i
      else find_step name rest (S i)
  end.

Definition beginStep (name description : string) : M unit :=
  modify (on_progress (fun p =>
    match find_step name (steps p) 0 with
    | Some i =>
        let p := progress_set_currentStepIndex (Z.of_nat i) p in
        let p := progress_set_currentStep name p in
        progress_set_steps
          (alter (step_set_description description) i (steps p)) p
    | None => p
    end)) ;;;
  logMessage ("Starting: " +:+ name +:+ " - " +:+ description) false ;;;
  updateProgress (f32_lit 0 1) description.

Definition endStep (success : bool) (errorMessage : string) : M unit :=
  modify (fun s =>
    let p := m_progress s in
    let idx := currentStepIndex p in
    if Z.leb 0 idx && Z.ltb idx (Z.of_nat (length (steps p)))
    then match steps p !! Z.to_nat idx with
         | Some step =>
             let step := step_set_completed true step in
             let step := step_set_success success step in
             let step := step_set_errorMessage errorMessage step in
             let s := on_progress
                        (progress_set_steps
                           (<[Z.to_nat idx := step]> (steps p))) s in
             set_stepReports (stepReports s ++ [step]) s
         | None => s
         end
    else s) ;;;
  if negb success
  then logMessage ("Step failed: " +:+ errorMessage) true
  else ret tt.

Definition validateProject (fs : FS) (projectPath : string)
  : Result (list string) :=
  let errors : list string := [] in
  if negb (fs_exists fs projectPath)
  then
    let errors :=
      errors ++ ["Project directory does not exist: " +:+ projectPath] in
    Ok errors
  else
    let projectFile := projectPath </> "project.json" in
    let errors :=
      if negb (fs_exists fs projectFile)
      then errors ++ ["Missing project.json in project directory"]
      else errors in
    let requiredDirs := ["scripts"; "assets"] in
    let errors :=
      foldl (fun errors dir =>
               let dirPath := projectPath </> dir in
               if negb (fs_exists fs dirPath)
               then errors ++ ["Missing required directory: " +:+ dir]
               else errors)
            errors requiredDirs in
    Ok errors.

(** The step list [startBuild] installs. *)
Definition initial_steps : list BuildStep :=
  [ mkStep "Preflight" "Validating project structure" (f32_lit 5 100) false true "";
    mkStep "Compile" "Compiling scripts" (f32_lit 15 100) false true "";
    mkStep "Index" "Building resource index" (f32_lit 10 100) false true "";
    mkStep "Pack" "Creating resource packs" (f32_lit 35 100) false true "";
    mkStep "Bundle" "Bundling runtime" (f32_lit 25 100) false true "";
    mkStep "Verify" "Verifying build" (f32_lit 10 100) false true "" ].

(** The decimal literals of the six weights, in hundredths. *)
Definition weight_literals : list Z := [5; 15; 10; 35; 25; 10].

(** [startBuild] up to the point where it hands [runBuildPipeline] to a new
    thread; [m_buildThread] records that the thread was created. *)
Definition startBuild (config : BuildConfig) (s : BS) : Result unit * BS :=
  if m_buildInProgress s
  then (Error "Build already in progress", s)
  else if String.eqb (projectPath config) ""
  then (Error "Project path is required", s)
  else if String.eqb (outputPath config) ""
  then (Error "Output path is required", s)
  else if negb (fs_exists (disk s) (projectPath config))
  then (Error ("Project path does not exist: " +:+ projectPath config), s)
  else
    let s := set_m_config config s in
    let s := set_m_buildInProgress true s in
    let s := set_m_cancelRequested false s in
    let s := set_m_progress BuildProgress_default s in
    let s := on_progress (progress_set_isRunning true) s in
    let s := on_progress (progress_set_steps initial_steps) s in
    let s := set_m_buildThread true s in
    (Ok tt, s).

(** ** The six stages *)

Definition stagingDirOf (config : BuildConfig) : string :=
  outputPath config </> ".staging".
Arguments stagingDirOf : simpl never.

Definition push_error (e : string) : M unit :=
  modify (on_progress (fun p => progress_set_errors (errors p ++ [e]) p)).

Definition push_warning (w : string) : M unit :=
  modify (on_progress (fun p => progress_set_warnings (warnings p ++ [w]) p)).

Definition mkdirs (path : string) : M unit :=
  fs_try "cannot create directories" path (fun d => create_directories d path).

(** A [recursive_directory_iterator] over [dir]. *)
Definition iterate_recursive (dir : string) : M (list string) :=
  fun s => match list_recursive (disk s) dir with
           | Some l => (Val l, s)
           | None =>
               (Throw (filesystem_error_what
                         "recursive directory iterator cannot open directory"
                         dir), s)
           end.

Definition iterate_directory (dir : string) : M (list string) :=
  fun s => match list_directory (disk s) dir with
           | Some l => (Val l, s)
           | None =>
               (Throw (filesystem_error_what
                         "directory iterator cannot open directory" dir), s)
           end.

(** *** Stage 0: Preflight *)

Definition prepareOutputDirectory : M (Result unit) :=
  beginStep "Preflight" "Validating project and preparing output" ;;;
  updateProgress (f32_lit 1 10) "Validating project structure..." ;;;
  config <- gets m_config ;;
  d <- gets disk ;;
  match validateProject d (projectPath config) with
  | Error e => endStep false e ;;; ret (Error e)
  | Ok errors =>
      match errors with
      | _ :: _ =>
          let errorMsg := foldl (fun msg err => msg +:+ err +:+ nl) "" errors in
          foldr (fun err k => push_error err ;;; k) (ret tt) errors ;;;
          endStep false "Project validation failed" ;;;
          ret (Error ("Project validation failed:" +:+ nl +:+ errorMsg))
      | [] =>
          updateProgress (f32_lit 5 10) "Creating output directories..." ;;;
          let stagingDir := stagingDirOf config in
          created <-
            try_catch
              (mkdirs (stagingDir </> "packs") ;;;
               mkdirs (stagingDir </> "config") ;;;
               mkdirs (stagingDir </> "logs") ;;;
               mkdirs (stagingDir </> "saves") ;;;
               ret (Ok tt))
              (fun what =>
                 endStep false what ;;;
                 ret (Error ("Failed to create directories: " +:+ what))) ;;
          match created with
          | Error e => ret (Error e)
          | Ok _ =>
              (* script files *)
              updateProgress (f32_lit 7 10) "Scanning script files..." ;;;
              modify (set_m_scriptFiles []) ;;;
              let scriptsDir := projectPath config </> "scripts" in
              d <- gets disk ;;
              (if fs_exists d scriptsDir
               then entries <- iterate_recursive scriptsDir ;;
                    modify (set_m_scriptFiles
                      (filter (fun e =>
                                 is_regular_file d e = true
                                 /\ (extension e = ".nms"
                                     \/ extension e = ".nmscript"))
                              entries))
               else ret tt) ;;;
              (* asset files *)
              updateProgress (f32_lit 9 10) "Scanning asset files..." ;;;
              modify (set_m_assetFiles []) ;;;
              let assetsDir := projectPath config </> "assets" in
              d <- gets disk ;;
              (if fs_exists d assetsDir
               then entries <- iterate_recursive assetsDir ;;
                    modify (set_m_assetFiles
                      (filter (fun e => is_regular_file d e = true) entries))
               else ret tt) ;;;
              scripts <- gets m_scriptFiles ;;
              assets <- gets m_assetFiles ;;
              logMessage ("Found " +:+ to_string (Z.of_nat (length scripts))
                          +:+ " script files and "
                          +:+ to_string (Z.of_nat (length assets))
                          +:+ " asset files") false ;;;
              modify (on_progress (progress_set_totalFiles
                        (Z.of_nat (length scripts + length assets)))) ;;;
              endStep true "" ;;;
              ret (Ok tt)
          end
      end
  end.

(** *** Stage 1: Compile *)

Record ScriptCompileResult : Type := mkScriptResult {
  script_sourcePath : string;
  script_success : bool;
  script_errors : list string;
  script_warnings : list string;
  bytecodeSize : Z
}.

(** The brace and parenthesis counters after scanning [source]. *)
Fixpoint count_brackets (source : list ascii) (braceCount parenCount : Z)
  : Z * Z :=
  match source with
  | [] => (braceCount, parenCount)
  | c :: rest =>
      if Ascii.eqb c "{" then count_brackets rest (braceCount + 1) parenCount
      else if Ascii.eqb c "}" then count_brackets rest (braceCount - 1) parenCount
      else if Ascii.eqb c "(" then count_brackets rest braceCount (parenCount + 1)
      else if Ascii.eqb c ")" then count_brackets rest braceCount (parenCount - 1)
      else count_brackets rest braceCount parenCount
  end.

Definition compileScript (fs : FS) (scriptPath : string) : ScriptCompileResult :=
  match read_file fs scriptPath with
  | None =>
      mkScriptResult scriptPath false ["Cannot open file: " +:+ scriptPath] [] 0
  | Some bytes =>
      let source := byte_char <$> bytes in
      let warnings : list string := [] in
      let warnings :=
        match source with
        | [] => warnings ++ ["Script file is empty"]
        | _ => warnings
        end in
      let '(braceCount, parenCount) := count_brackets source 0 0 in
      let warnings :=
        if negb (Z.eqb braceCount 0)
        then warnings ++ ["Unbalanced braces detected"] else warnings in
      let warnings :=
        if negb (Z.eqb parenCount 0)
        then warnings ++ ["Unbalanced parentheses detected"] else warnings in
      mkScriptResult scriptPath true [] warnings (Z.of_nat (length source))
  end.

Definition compileBytecode (outputPath : string) : M (Result unit) :=
  d <- gets disk ;;
  if negb (can_open_write d outputPath)
  then ret (Error ("Cannot create bytecode file: " +:+ outputPath))
  else
    scripts <- gets m_scriptFiles ;;
    let o := stream_open in
    let o := stream_write (string_bytes "NMBC") o in
    let version := 1 in
    let o := write_u32 version o in
    let scriptCount := u32 (Z.of_nat (length scripts)) in
    let o := write_u32 scriptCount o in
    let o :=
      foldl (fun o scriptPath =>
               match read_file d scriptPath with
               | Some source =>
                   let size := u32 (Z.of_nat (length source)) in
                   stream_write source (write_u32 size o)
               | None => o
               end) o scripts in
    modify (fun s => set_disk (write_file (disk s) outputPath (buf o)) s) ;;;
    ret (Ok tt).

Definition compileScripts : M (Result unit) :=
  beginStep "Compile" "Compiling NMScript files" ;;;
  scripts <- gets m_scriptFiles ;;
  match scripts with
  | [] =>
      logMessage "No script files to compile" false ;;;
      endStep true "" ;;;
      ret (Ok tt)
  | _ :: _ =>
      config <- gets m_config ;;
      let stagingDir := stagingDirOf config in
      let compiledDir := stagingDir </> "compiled" in
      mkdirs compiledDir ;;;
      looped <-
        for_each scripts (0, [])
          (fun scriptPath '(compiled, results) =>
             cancelled <- gets m_cancelRequested ;;
             if cancelled : bool
             then endStep false "Cancelled" ;;;
                  ret (inr (Error "Build cancelled"))
             else
               let progress :=
                 f32_div (f32_of_int compiled)
                         (f32_of_int (Z.of_nat (length scripts))) in
               updateProgress progress
                 ("Compiling: " +:+ filename scriptPath) ;;;
               d <- gets disk ;;
               let result := compileScript d scriptPath in
               (if negb (script_success result)
                then foldr (fun err k =>
                              push_error (scriptPath +:+ ": " +:+ err) ;;; k)
                           (ret tt) (script_errors result)
                else ret tt) ;;;
               foldr (fun warn k =>
                        push_warning (scriptPath +:+ ": " +:+ warn) ;;; k)
                     (ret tt) (script_warnings result) ;;;
               modify (on_progress (fun p =>
                         progress_set_filesProcessed (filesProcessed p + 1) p)) ;;;
               ret (inl (compiled + 1, results ++ [result]))) ;;
      match looped with
      | inr r => ret r
      | inl (compiled, results) =>
          let hasErrors := existsb (fun r => negb (script_success r)) results in
          if hasErrors
          then endStep false "Script compilation failed" ;;;
               ret (Error "One or more scripts failed to compile")
          else
            bundleResult <-
              compileBytecode (compiledDir </> "compiled_scripts.bin") ;;
            match bundleResult with
            | Error e => endStep false e ;;; ret (Error e)
            | Ok _ =>
                logMessage ("Compiled " +:+ to_string compiled
                            +:+ " scripts successfully") false ;;;
                endStep true "" ;;;
                ret (Ok tt)
            end
      end
  end.

(** *** Stage 2: Index *)

Record AssetProcessResult : Type := mkAssetResult {
  asset_success : bool;
  asset_errorMessage : string;
  originalSize : Z;
  processedSize : Z
}.

(** The common body of [processImage], [processAudio], [processFont] and
    [processData]: a copy, with the exception turned into a failed result. *)
Definition process_copy (sourcePath outputPath : string)
  : M AssetProcessResult :=
  fun s =>
    match copy_file (disk s) sourcePath outputPath with
    | Some d =>
        let size := default 0 (file_size d outputPath) in
        (Val (mkAssetResult true "" (default 0 (file_size d sourcePath)) size),
         set_disk d s)
    | None =>
        (Val (mkAssetResult false
                (filesystem_error_what "cannot copy" sourcePath) 0 0), s)
    end.

Definition processImage := process_copy.
Definition processAudio := process_copy.
Definition processFont := process_copy.
Definition processData := process_copy.

Definition ext_in (ext : string) (l : list string) : bool :=
  existsb (String.eqb ext) l.

Definition manifest_text (mapping : gmap string string) : string :=
  "{" +:+ nl
  +:+ "  " +:+ quoted "version" +:+ ": " +:+ quoted "1.0" +:+ "," +:+ nl
  +:+ "  " +:+ quoted "resource_count" +:+ ": "
  +:+ to_string (Z.of_nat (size mapping)) +:+ "," +:+ nl
  +:+ "  " +:+ quoted "resources" +:+ ": [" +:+ nl
  +:+ (foldl (fun '(first, text) '(sourcePath, vfsPath) =>
                (false,
                 text +:+ (if first : bool then "" else "," +:+ nl)
                 +:+ "    {" +:+ quoted "source" +:+ ": " +:+ quoted sourcePath
                 +:+ ", " +:+ quoted "vfs_path" +:+ ": " +:+ quoted vfsPath
                 +:+ "}"))
             (true, "") (map_to_list mapping)).2
  +:+ nl +:+ "  ]" +:+ nl +:+ "}" +:+ nl.

Definition processAssets : M (Result unit) :=
  beginStep "Index" "Processing and indexing assets" ;;;
  assets <- gets m_assetFiles ;;
  match assets with
  | [] =>
      logMessage "No assets to process" false ;;;
      endStep true "" ;;;
      ret (Ok tt)
  | _ :: _ =>
      config <- gets m_config ;;
      let stagingDir := stagingDirOf config in
      let assetsDir := stagingDir </> "assets" in
      mkdirs assetsDir ;;;
      modify (set_m_assetMapping ∅) ;;;
      looped <-
        for_each assets 0
          (fun assetPath processed =>
             cancelled <- gets m_cancelRequested ;;
             if cancelled : bool
             then endStep false "Cancelled" ;;;
                  ret (inr (Error "Build cancelled"))
             else
               let progress :=
                 f32_div (f32_of_int processed)
                         (f32_of_int (Z.of_nat (length assets))) in
               updateProgress progress
                 ("Processing: " +:+ filename assetPath) ;;;
               let ext := tolower (extension assetPath) in
               let relativePath :=
                 relative assetPath (projectPath config </> "assets") in
               let outputPath := assetsDir </> relativePath in
               mkdirs (parent_path outputPath) ;;;
               result <-
                 (if ext_in ext [".png"; ".jpg"; ".jpeg"; ".bmp"]
                  then processImage assetPath outputPath
                  else if ext_in ext [".ogg"; ".wav"; ".mp3"]
                  then processAudio assetPath outputPath
                  else if ext_in ext [".ttf"; ".otf"]
                  then processFont assetPath outputPath
                  else processData assetPath outputPath) ;;
               (if negb (asset_success result)
                then push_warning ("Asset processing warning: " +:+ assetPath
                                   +:+ " - " +:+ asset_errorMessage result)
                else ret tt) ;;;
               let vfsPath := replace_char "\" "/" relativePath in
               modify (fun s =>
                         set_m_assetMapping
                           (<[assetPath := vfsPath]> (m_assetMapping s)) s) ;;;
               modify (on_progress (fun p =>
                         progress_set_filesProcessed (filesProcessed p + 1) p)) ;;;
               modify (on_progress (fun p =>
                         progress_set_bytesProcessed
                           (bytesProcessed p + processedSize result) p)) ;;;
               ret (inl (processed + 1))) ;;
      match looped with
      | inr r => ret r
      | inl processed =>
          mapping <- gets m_assetMapping ;;
          write_text (stagingDir </> "resource_manifest.json")
                     (manifest_text mapping) ;;;
          logMessage ("Processed " +:+ to_string processed +:+ " assets")
                     false ;;;
          endStep true "" ;;;
          ret (Ok tt)
      end
  end.

(** *** Stage 3: Pack *)

(** [vfsPath.find("/" + lang + "/") != npos || vfsPath.find(lang + "/") == 0]. *)
Definition in_language (vfsPath lang : string) : bool :=
  contains vfsPath ("/" +:+ lang +:+ "/") || starts_with vfsPath (lang +:+ "/").

Definition isLocaleSpecific (languages : list string) (vfsPath : string) : bool :=
  existsb (in_language vfsPath) languages.

(** Where [processAssets] put the copy of [sourcePath]. *)
Definition processedPathOf (config : BuildConfig) (sourcePath : string) : string :=
  stagingDirOf config </> "assets"
  </> relative sourcePath (projectPath config </> "assets").

(** The files of one pack: the staged copies, where they exist, of the
    mapped assets that [selected] picks by their VFS path. *)
Definition pack_files (config : BuildConfig) (d : FS)
    (mapping : gmap string string) (selected : string -> bool) : list string :=
  foldl (fun files '(sourcePath, vfsPath) =>
           if selected vfsPath : bool
           then let processedPath := processedPathOf config sourcePath in
                if fs_exists d processedPath
                then files ++ [processedPath] else files
           else files)
        [] (map_to_list mapping).

Definition buildPack_m (outputPath : string) (files : list string)
    (encrypt compress : bool) : M (Result unit) :=
  fun s =>
    let '(r, d) := buildPack (clock s) (disk s) outputPath files encrypt compress in
    (Val r, set_disk d s).

Definition language_index_entry (lang packName : string) (encrypted : bool)
  : string :=
  "," +:+ nl
  +:+ "    {" +:+ nl
  +:+ "      " +:+ quoted "id" +:+ ": " +:+ quoted ("lang_" +:+ lang) +:+ "," +:+ nl
  +:+ "      " +:+ quoted "filename" +:+ ": " +:+ quoted packName +:+ "," +:+ nl
  +:+ "      " +:+ quoted "type" +:+ ": " +:+ quoted "Language" +:+ "," +:+ nl
  +:+ "      " +:+ quoted "priority" +:+ ": 3," +:+ nl
  +:+ "      " +:+ quoted "locale" +:+ ": " +:+ quoted lang +:+ "," +:+ nl
  +:+ "      " +:+ quoted "encrypted" +:+ ": " +:+ json_bool encrypted +:+ nl
  +:+ "    }".

(** The languages whose pack file exists, in configuration order: the
    language entries of [packs_index.json]. *)
Definition indexed_languages (d : FS) (packsDir : string)
    (languages : list string) : list string :=
  filter (fun lang =>
            fs_exists d (packsDir </> ("Lang_" +:+ lang +:+ ".nmres")) = true)
         languages.

Definition packs_index_text (config : BuildConfig) (listed : list string)
  : string :=
  "{" +:+ nl
  +:+ "  " +:+ quoted "version" +:+ ": " +:+ quoted "1.0" +:+ "," +:+ nl
  +:+ "  " +:+ quoted "packs" +:+ ": [" +:+ nl
  +:+ "    {" +:+ nl
  +:+ "      " +:+ quoted "id" +:+ ": " +:+ quoted "base" +:+ "," +:+ nl
  +:+ "      " +:+ quoted "filename" +:+ ": " +:+ quoted "Base.nmres" +:+ "," +:+ nl
  +:+ "      " +:+ quoted "type" +:+ ": " +:+ quoted "Base" +:+ "," +:+ nl
  +:+ "      " +:+ quoted "priority" +:+ ": 0," +:+ nl
  +:+ "      " +:+ quoted "encrypted" +:+ ": "
  +:+ json_bool (encryptAssets config) +:+ nl
  +:+ "    }"
  +:+ foldl (fun text lang =>
               text +:+ language_index_entry lang
                          ("Lang_" +:+ lang +:+ ".nmres")
                          (encryptAssets config))
            "" listed
  +:+ nl +:+ "  ]," +:+ nl
  +:+ "  " +:+ quoted "default_locale" +:+ ": "
  +:+ quoted (defaultLanguage config) +:+ nl
  +:+ "}" +:+ nl.

Definition packResources : M (Result unit) :=
  beginStep "Pack" "Creating resource packs" ;;;
  config <- gets m_config ;;
  let stagingDir := stagingDirOf config in
  let packsDir := stagingDir </> "packs" in
  mkdirs packsDir ;;;
  if negb (packAssets config)
  then logMessage "Skipping pack creation (packAssets=false)" false ;;;
       endStep true "" ;;;
       ret (Ok tt)
  else
    updateProgress (f32_lit 1 10) "Building Base pack..." ;;;
    mapping <- gets m_assetMapping ;;
    let languages := includedLanguages config in
    let compress := negb (compression_is_none (compression config)) in
    d <- gets disk ;;
    let baseFiles :=
      pack_files config d mapping
                 (fun vfsPath => negb (isLocaleSpecific languages vfsPath)) in
    baseResult <-
      buildPack_m (packsDir </> "Base.nmres") baseFiles
                  (encryptAssets config) compress ;;
    match baseResult with
    | Error e => endStep false e ;;; ret (Error e)
    | Ok _ =>
        looped <-
          for_each languages 0
            (fun lang langPacksBuilt =>
               cancelled <- gets m_cancelRequested ;;
               if cancelled : bool
               then endStep false "Cancelled" ;;;
                    ret (inr (Error "Build cancelled"))
               else
                 let progress :=
                   f32_add (f32_lit 3 10)
                     (f32_div (f32_mul (f32_lit 6 10) (f32_of_int langPacksBuilt))
                              (f32_of_int (Z.of_nat (length languages)))) in
                 updateProgress progress
                   ("Building language pack: " +:+ lang) ;;;
                 d <- gets disk ;;
                 let langFiles :=
                   pack_files config d mapping
                              (fun vfsPath => in_language vfsPath lang) in
                 match langFiles with
                 | [] => ret (inl langPacksBuilt)
                 | _ :: _ =>
                     let packName := "Lang_" +:+ lang +:+ ".nmres" in
                     langResult <-
                       buildPack_m (packsDir </> packName) langFiles
                                   (encryptAssets config) compress ;;
                     match langResult with
                     | Error e =>
                         push_warning ("Failed to create language pack for "
                                       +:+ lang +:+ ": " +:+ e) ;;;
                         ret (inl langPacksBuilt)
                     | Ok _ => ret (inl (langPacksBuilt + 1))
                     end
                 end) ;;
        match looped with
        | inr r => ret r
        | inl langPacksBuilt =>
            updateProgress (f32_lit 95 100) "Generating pack index..." ;;;
            d <- gets disk ;;
            write_text (packsDir </> "packs_index.json")
              (packs_index_text config
                 (indexed_languages d packsDir languages)) ;;;
            logMessage ("Created Base pack and " +:+ to_string langPacksBuilt
                        +:+ " language packs") false ;;;
            endStep true "" ;;;
            ret (Ok tt)
        end
    end.

(** *** Stage 4: Bundle *)

Definition getPlatformName (platform : BuildPlatform) : string :=
  match platform with
  | Windows => "Windows"
  | Linux => "Linux"
  | MacOS => "macOS"
  | All => "All Platforms"
  end.

(** Built for a non-Windows host: [All] has no extension. *)
Definition getExecutableExtension (platform : BuildPlatform) : string :=
  match platform with
  | Windows => ".exe"
  | Linux | MacOS | All => ""
  end.

Definition buildWindowsExecutable (outputPath : string) : M (Result unit) :=
  config <- gets m_config ;;
  let batchPath := outputPath </> (executableName config +:+ "_launcher.bat") in
  write_text batchPath
    ("@echo off" +:+ nl
     +:+ "echo NovelMind Runtime - " +:+ executableName config +:+ nl
     +:+ "echo Version: " +:+ version config +:+ nl
     +:+ "echo." +:+ nl
     +:+ "echo This is a placeholder launcher." +:+ nl
     +:+ "echo In production, this would start the game runtime." +:+ nl
     +:+ "pause" +:+ nl) ;;;
  ret (Ok tt).

(** [fs::permissions] changes no content and is not modelled. *)
Definition buildLinuxExecutable (outputPath : string) : M (Result unit) :=
  config <- gets m_config ;;
  let scriptPath := outputPath </> (executableName config +:+ "_launcher.sh") in
  write_text scriptPath
    ("#!/bin/bash" +:+ nl
     +:+ "echo " +:+ quoted ("NovelMind Runtime - " +:+ executableName config) +:+ nl
     +:+ "echo " +:+ quoted ("Version: " +:+ version config) +:+ nl
     +:+ "echo " +:+ quoted "" +:+ nl
     +:+ "echo " +:+ quoted "This is a placeholder launcher." +:+ nl
     +:+ "echo " +:+ quoted "In production, this would start the game runtime."
     +:+ nl) ;;;
  ret (Ok tt).

Definition plist_key (k v : string) : string :=
  "  <key>" +:+ k +:+ "</key>" +:+ nl
  +:+ "  <string>" +:+ v +:+ "</string>" +:+ nl.

Definition buildMacOSBundle (outputPath : string) : M (Result unit) :=
  config <- gets m_config ;;
  let appName := executableName config +:+ ".app" in
  let appPath := outputPath </> appName in
  let contentsPath := appPath </> "Contents" in
  let macOSPath := contentsPath </> "MacOS" in
  let resourcesPath := contentsPath </> "Resources" in
  mkdirs macOSPath ;;;
  mkdirs resourcesPath ;;;
  write_text (contentsPath </> "Info.plist")
    ("<?xml version=" +:+ quoted "1.0" +:+ " encoding=" +:+ quoted "UTF-8"
     +:+ "?>" +:+ nl
     +:+ "<!DOCTYPE plist PUBLIC " +:+ quoted "-//Apple//DTD PLIST 1.0//EN"
     +:+ " " +:+ quoted "http://www.apple.com/DTDs/PropertyList-1.0.dtd"
     +:+ ">" +:+ nl
     +:+ "<plist version=" +:+ quoted "1.0" +:+ ">" +:+ nl
     +:+ "<dict>" +:+ nl
     +:+ plist_key "CFBundleExecutable" (executableName config)
     +:+ plist_key "CFBundleIdentifier"
           ("com.novelmind." +:+ executableName config)
     +:+ plist_key "CFBundleName" (executableName config)
     +:+ plist_key "CFBundleShortVersionString" (version config)
     +:+ plist_key "CFBundleVersion" (version config)
     +:+ plist_key "CFBundlePackageType" "APPL"
     +:+ "</dict>" +:+ nl
     +:+ "</plist>" +:+ nl) ;;;
  write_text (macOSPath </> executableName config)
    ("#!/bin/bash" +:+ nl
     +:+ "echo " +:+ quoted ("NovelMind Runtime - " +:+ executableName config) +:+ nl
     +:+ "echo " +:+ quoted ("Version: " +:+ version config) +:+ nl) ;;;
  let stagingPacks := outputPath </> "packs" in
  let stagingConfig := outputPath </> "config" in
  d <- gets disk ;;
  (if fs_exists d stagingPacks
   then fs_try "cannot copy" stagingPacks
          (fun d => copy_tree d stagingPacks (resourcesPath </> "packs"))
   else ret tt) ;;;
  d <- gets disk ;;
  (if fs_exists d stagingConfig
   then fs_try "cannot copy" stagingConfig
          (fun d => copy_tree d stagingConfig (resourcesPath </> "config"))
   else ret tt) ;;;
  ret (Ok tt).

Definition runtime_config_text (config : BuildConfig) : string :=
  "{" +:+ nl
  +:+ "  " +:+ quoted "version" +:+ ": " +:+ quoted "1.0" +:+ "," +:+ nl
  +:+ "  " +:+ quoted "game" +:+ ": {" +:+ nl
  +:+ "    " +:+ quoted "name" +:+ ": " +:+ quoted (executableName config)
  +:+ "," +:+ nl
  +:+ "    " +:+ quoted "version" +:+ ": " +:+ quoted (version config) +:+ nl
  +:+ "  }," +:+ nl
  +:+ "  " +:+ quoted "localization" +:+ ": {" +:+ nl
  +:+ "    " +:+ quoted "default_locale" +:+ ": "
  +:+ quoted (defaultLanguage config) +:+ "," +:+ nl
  +:+ "    " +:+ quoted "available_locales" +:+ ": ["
  +:+ (foldl (fun '(first, text) lang =>
                (false,
                 text +:+ (if first : bool then "" else ", ") +:+ quoted lang))
             (true, "") (includedLanguages config)).2
  +:+ "]" +:+ nl
  +:+ "  }," +:+ nl
  +:+ "  " +:+ quoted "packs" +:+ ": {" +:+ nl
  +:+ "    " +:+ quoted "directory" +:+ ": " +:+ quoted "packs" +:+ "," +:+ nl
  +:+ "    " +:+ quoted "index_file" +:+ ": " +:+ quoted "packs_index.json"
  +:+ "," +:+ nl
  +:+ "    " +:+ quoted "encrypted" +:+ ": "
  +:+ json_bool (encryptAssets config) +:+ nl
  +:+ "  }," +:+ nl
  +:+ "  " +:+ quoted "runtime" +:+ ": {" +:+ nl
  +:+ "    " +:+ quoted "enable_logging" +:+ ": "
  +:+ json_bool (enableLogging config) +:+ "," +:+ nl
  +:+ "    " +:+ quoted "enable_debug_console" +:+ ": "
  +:+ json_bool (includeDebugConsole config) +:+ nl
  +:+ "  }" +:+ nl
  +:+ "}" +:+ nl.

Definition generateExecutable : M (Result unit) :=
  beginStep "Bundle" "Creating runtime bundle" ;;;
  config <- gets m_config ;;
  let stagingDir := stagingDirOf config in
  updateProgress (f32_lit 2 10) "Preparing runtime executable..." ;;;
  result <-
    match platform config with
    | Windows => buildWindowsExecutable stagingDir
    | Linux => buildLinuxExecutable stagingDir
    | MacOS => buildMacOSBundle stagingDir
    | All => buildLinuxExecutable stagingDir
    end ;;
  match result with
  | Error e => endStep false e ;;; ret (Error e)
  | Ok _ =>
      updateProgress (f32_lit 8 10) "Generating runtime configuration..." ;;;
      let configDir := stagingDir </> "config" in
      mkdirs configDir ;;;
      write_text (configDir </> "runtime_config.json")
                 (runtime_config_text config) ;;;
      logMessage ("Runtime bundle created for "
                  +:+ getPlatformName (platform config)) false ;;;
      endStep true "" ;;;
      ret (Ok tt)
  end.

(** *** Stage 5: Verify *)

(** [BuildUtils::formatFileSize] prints through floating point; the log
    line carries the byte count instead. *)
Definition formatFileSize (bytes : Z) : string := to_string bytes +:+ " B".

Definition signAndFinalize : M (Result unit) :=
  beginStep "Verify" "Verifying and finalizing build" ;;;
  config <- gets m_config ;;
  let stagingDir := stagingDirOf config in
  updateProgress (f32_lit 2 10) "Verifying pack integrity..." ;;;
  let packsDir := stagingDir </> "packs" in
  d <- gets disk ;;
  verified <-
    (if fs_exists d packsDir
     then entries <- iterate_directory packsDir ;;
          for_each entries tt
            (fun entry _ =>
               if String.eqb (extension entry) ".nmres"
               then match read_file d entry with
                    | None =>
                        endStep false ("Cannot read pack file: " +:+ entry) ;;;
                        ret (inr (Error ("Pack file verification failed: "
                                         +:+ entry)))
                    | Some bytes =>
                        (if (4 <=? length bytes)%nat
                            && negb (String.eqb (bytes_string (take 4 bytes))
                                                "NMRS")
                         then push_warning
                                ("Pack file has invalid magic number: "
                                 +:+ entry)
                         else ret tt) ;;;
                        ret (inl tt)
                    end
               else ret (inl tt))
     else ret (inl tt)) ;;
  match verified with
  | inr r => ret r
  | inl _ =>
      updateProgress (f32_lit 5 10) "Verifying configuration..." ;;;
      let configPath := stagingDir </> "config" </> "runtime_config.json" in
      d <- gets disk ;;
      (if fs_exists d configPath && negb (is_regular_file d configPath)
       then push_warning "Cannot read runtime_config.json"
       else ret tt) ;;;
      (if signExecutable config
          && negb (String.eqb (signingCertificate config) "")
       then updateProgress (f32_lit 7 10) "Signing executable..." ;;;
            logMessage "Code signing not yet implemented - skipping" false ;;;
            push_warning "Code signing requested but not yet implemented"
       else ret tt) ;;;
      updateProgress (f32_lit 9 10) "Calculating build statistics..." ;;;
      d <- gets disk ;;
      packFiles <-
        (if fs_exists d packsDir
         then iterate_recursive packsDir
         else ret []) ;;
      let compressedSize :=
        foldl (fun total q => total + default 0 (file_size d q)) 0 packFiles in
      let totalSize := calculateDirectorySize d stagingDir in
      modify (fun s =>
                set_m_lastResult
                  (set_result_compressedSize compressedSize
                     (set_totalSize totalSize (m_lastResult s))) s) ;;;
      logMessage ("Build verification complete. Total size: "
                  +:+ formatFileSize totalSize) false ;;;
      endStep true "" ;;;
      ret (Ok tt)
  end.

(** ** Cleanup and the pipeline *)

(** [fs::remove_all] on the staging tree does not throw in this model. *)
Definition cleanup : M (Result unit) :=
  p <- gets m_progress ;;
  if negb (wasSuccessful p)
  then
    config <- gets m_config ;;
    let stagingDir := stagingDirOf config in
    d <- gets disk ;;
    (if fs_exists d stagingDir
     then modify (set_disk (remove_all d stagingDir))
     else ret tt) ;;;
    ret (Ok tt)
  else ret (Ok tt).

(** One stage behind its guard [success && !m_cancelRequested]; [st] is the
    pair of locals [(success, errorMessage)]. *)
Definition guarded_stage (stage : M (Result unit)) (st : bool * string)
  : M (bool * string) :=
  cancelled <- gets m_cancelRequested ;;
  if st.1 && negb cancelled
  then result <- stage ;;
       match result with
       | Error e => ret (false, e)
       | Ok _ => ret st
       end
  else ret st.

(** The move of the staging tree to the output path. *)
Definition promote_staging (stagingDir : string) : M unit :=
  config <- gets m_config ;;
  let finalOutput := outputPath config in
  (if has_slash finalOutput && negb (String.eqb (parent_path finalOutput) "")
   then mkdirs (parent_path finalOutput)
   else ret tt) ;;;
  d <- gets disk ;;
  (if fs_exists d finalOutput && negb (String.eqb finalOutput stagingDir)
   then modify (set_disk (remove_all d finalOutput))
   else ret tt) ;;;
  entries <- iterate_directory stagingDir ;;
  foldr (fun entry k =>
           let dest := finalOutput </> filename entry in
           d <- gets disk ;;
           (if fs_exists d dest
            then modify (set_disk (remove_all d dest)) else ret tt) ;;;
           fs_try "cannot rename" entry (fun d => rename d entry dest) ;;;
           k)
        (ret tt) entries ;;;
  d <- gets disk ;;
  modify (set_disk (remove_all d stagingDir)).

(** The [try] block of [runBuildPipeline]: the stages and the promotion;
    its value is the pair of locals [(success, errorMessage)]. *)
Definition pipeline_stages : M (bool * string) :=
  config <- gets m_config ;;
  let stagingDir := stagingDirOf config in
  try_catch
    (d <- gets disk ;;
     (if fs_exists d stagingDir
      then modify (set_disk (remove_all d stagingDir)) else ret tt) ;;;
     mkdirs stagingDir ;;;
     (* Stage 0: its guard does not look at [success] *)
     cancelled <- gets m_cancelRequested ;;
     st <- (if negb cancelled
            then result <- prepareOutputDirectory ;;
                 match result with
                 | Error e => ret (false, e)
                 | Ok _ => ret (true, "")
                 end
            else ret (true, "")) ;;
     st <- guarded_stage compileScripts st ;;
     st <- guarded_stage processAssets st ;;
     st <- guarded_stage packResources st ;;
     st <- guarded_stage generateExecutable st ;;
     st <- guarded_stage signAndFinalize st ;;
     cancelled <- gets m_cancelRequested ;;
     (if st.1 && negb cancelled
      then promote_staging stagingDir else ret tt) ;;;
     ret st)
    (fun what => ret (false, "Build exception: " +:+ what)).

(** The rest of [runBuildPipeline]: cleanup, the result, the terminal flags
    and the completion callback. *)
Definition pipeline_finish (st : bool * string) : M unit :=
  let '(success, errorMessage) := st in
  config <- gets m_config ;;
  cleanupResult <- cleanup ;;
  match cleanupResult with
  | Error e => logMessage ("Cleanup warning: " +:+ e) true
  | Ok _ => ret tt
  end ;;;
  cancelled <- gets m_cancelRequested ;;
  p <- gets m_progress ;;
  scripts <- gets m_scriptFiles ;;
  assets <- gets m_assetFiles ;;
  d <- gets disk ;;
  let result := BuildResult_default in
  let result := set_result_success (success && negb cancelled) result in
  let result := set_result_outputPath (outputPath config) result in
  let result :=
    set_result_errorMessage
      (if cancelled : bool then "Build cancelled" else errorMessage) result in
  let result := set_scriptsCompiled (Z.of_nat (length scripts)) result in
  let result := set_assetsProcessed (Z.of_nat (length assets)) result in
  let result := set_result_warnings (warnings p) result in
  let result :=
    if success && fs_exists d (outputPath config)
    then set_totalSize (calculateDirectorySize d (outputPath config)) result
    else result in
  modify (set_m_lastResult result) ;;;
  modify (on_progress (progress_set_isRunning false)) ;;;
  modify (on_progress (progress_set_isComplete true)) ;;;
  modify (on_progress (progress_set_wasSuccessful (success && negb cancelled))) ;;;
  modify (on_progress (progress_set_wasCancelled cancelled)) ;;;
  modify (fun s => set_resultReports (resultReports s ++ [result]) s) ;;;
  modify (set_m_buildInProgress false).

Definition runBuildPipeline : M unit :=
  st <- pipeline_stages ;;
  pipeline_finish st.

(** A whole build: [startBuild], then, when it accepted the configuration,
    the pipeline on the thread it created. *)
Definition build (config : BuildConfig) (s : BS) : Result unit * BS :=
  match startBuild config s with
  | (Ok _, s') => (Ok tt, (runBuildPipeline s').2)
  | (Error e, s') => (Error e, s')
  end.

(** The progress reports a build delivers: those added to the ones the
    callback had received before. *)
Definition reports_of_build (config : BuildConfig) (s : BS)
  : list BuildProgress :=
  drop (length (progressReports s)) (progressReports (build config s).2).

(** A [BuildSystem] that has not built anything yet. *)
Definition BS_new (d : FS) (now : Z)
    (callback : option (BuildProgress -> bool)) : BS :=
  mkBS (mkConfig "" "" Linux CompressionNone false false [] "" "" "" false ""
                 false false)
       false false BuildProgress_default BuildResult_default [] [] ∅ false
       callback d now [] [] [] [].

(** A project tree and configurations used to run the model. *)
Definition fs_project_example : FS :=
  {[ "/p" := Dir;
     "/p/project.json" := File [123; 125];
     "/p/scripts" := Dir;
     "/p/scripts/main.nms" := File (string_bytes "scene { (a) }");
     "/p/assets" := Dir;
     "/p/assets/en" := Dir;
     "/p/assets/en/a.png" := File [1; 2];
     "/p/assets/b.ogg" := File [3] ]}.

Definition config_example : BuildConfig :=
  mkConfig "/p" "/out" Linux CompressionNone false true ["en"; "ru"] "en"
           "game" "1.0" false "" true false.

Definition config_missing_project : BuildConfig :=
  mkConfig "/nope" "/out" Linux CompressionNone false true [] "en"
           "game" "1.0" false "" true false.

(** ** Reasoning about build computations *)

(** [m], started in a state satisfying [P], ends with an outcome and a state
    satisfying [Q]. *)
Definition hoare {A} (P : BS -> Prop) (m : M A)
    (Q : outcome A -> BS -> Prop) : Prop :=
  forall s, P s -> Q (m s).1 (m s).2.

(** [m] keeps the state invariant [J], however it ends. *)
Definition preserves (J : BS -> Prop) {A} (m : M A) : Prop :=
  forall s, J s -> J (m s).2.

(** What holds throughout a pipeline run with progress callback [handler],
    where the callback had received [n0] reports before: the build is marked
    in progress, [wasSuccessful] is still unset, and once the callback has
    asked for cancellation the flag is up. *)
Definition cancel_inv (config : BuildConfig) (handler : BuildProgress -> bool)
    (n0 : nat) (s : BS) : Prop :=
  m_buildInProgress s = true
  /\ m_onProgressUpdate s = Some handler
  /\ m_config s = config
  /\ wasSuccessful (m_progress s) = false
  /\ (forall p, p ∈ drop n0 (progressReports s) -> handler p = true ->
                m_cancelRequested s = true).

(** Invariants that do not look at the file system. *)
Definition disk_blind (J : BS -> Prop) : Prop :=
  forall s d, J s -> J (set_disk d s).

(** A progress callback that calls [cancelBuild] when the Pack step reports
    the task [task]. *)
Definition cancel_at_task (task : string) (p : BuildProgress) : bool :=
  String.eqb (currentStep p) "Pack" && String.eqb (currentTask p) task.

(** A callback that only watches. *)
Definition never_cancel (p : BuildProgress) : bool := false.

(** ** The progress reports of a build *)

Definition step_weight (i : nat) : Z :=
  default 0 (progressWeight <$> initial_steps !! i).

(** What [updateProgress] computes in step [i] for step progress [x]. *)
Definition prog (i : nat) (x : Z) : Z :=
  f32_add (completedWeight initial_steps (Z.of_nat i))
          (f32_mul (step_weight i) x).

(** The largest value a build can report. *)
Definition prog_top : Z := prog 5 f32_one_units.

(** The aggregate progress values reported since the callback had received
    [n0] reports. *)
Definition new_progress (n0 : nat) (s : BS) : list Z :=
  progress <$> drop n0 (progressReports s).

(** The step weights and names are those [startBuild] installed, and the
    values reported so far are in non-decreasing order and at most [b]. *)
Definition W (n0 : nat) (b : Z) (s : BS) : Prop :=
  progressWeight <$> steps (m_progress s) = progressWeight <$> initial_steps
  /\ step_name <$> steps (m_progress s) = step_name <$> initial_steps
  /\ StronglySorted Z.le (new_progress n0 s)
  /\ Forall (fun v => v <= b) (new_progress n0 s)
  /\ b <= prog_top.

(** [W], within step [i]. *)
Definition K (n0 : nat) (i : nat) (b : Z) (s : BS) : Prop :=
  W n0 b s /\ currentStepIndex (m_progress s) = Z.of_nat i /\ (i < 6)%nat.

(** From [P], a normal end with value [a] establishes [V a]; an exception
    leaves at least [W] at the top bound. *)
Definition triple {A} (n0 : nat) (P : BS -> Prop) (m : M A)
    (V : A -> BS -> Prop) : Prop :=
  forall s, P s ->
    match (m s).1 with
    | Val a => V a (m s).2
    | Throw _ => W n0 prog_top (m s).2
    end.

(** ** The helper classes of [build_system.cpp]

    Modelled from the spec: [build_system.hpp], which declares
    [PackBuilder], [AssetProcessor] and [IntegrityChecker] with their member
    variables and nested types, is not among the sources.  The records below
    carry the members [build_system.cpp] reads and writes. *)

(** [static_cast<i32>] and [static_cast<i64>] of an integer. *)
Definition i32 (v : Z) : Z := (v + 2 ^ 31) mod 2 ^ 32 - 2 ^ 31.
Definition i64 (v : Z) : Z := (v + 2 ^ 63) mod 2 ^ 64 - 2 ^ 63.

(** *** [PackBuilder] *)

Module PackBuilder.

Record PackEntry : Type := mkPackEntry {
  path : string;
  data : list Z;
  originalSize : Z
}.

Record PackStats : Type := mkPackStats {
  fileCount : Z;
  uncompressedSize : Z;
  compressedSize : Z;
  compressionRatio : Z
}.

Record t : Type := mkBuilder {
  m_outputPath : string;
  m_entries : list PackEntry;
  m_encryptionKey : string;
  m_compressionLevel : CompressionLevel
}.

Definition beginPack (outputPath : string) (b : t) : Result unit * t :=
  (Ok tt, mkBuilder outputPath [] (m_encryptionKey b) (m_compressionLevel b)).

Definition addFile (fs : FS) (sourcePath packPath : string) (b : t)
  : Result unit * t :=
  match read_file fs sourcePath with
  | None => (Error ("Cannot open file: " +:+ sourcePath), b)
  | Some data =>
      let entry := mkPackEntry packPath data (i64 (Z.of_nat (length data))) in
      (Ok tt, mkBuilder (m_outputPath b) (m_entries b ++ [entry])
                        (m_encryptionKey b) (m_compressionLevel b))
  end.

Definition addData (packPath : string) (data : list Z) (b : t)
  : Result unit * t :=
  let entry := mkPackEntry packPath data (i64 (Z.of_nat (length data))) in
  (Ok tt, mkBuilder (m_outputPath b) (m_entries b ++ [entry])
                    (m_encryptionKey b) (m_compressionLevel b)).

Definition setEncryptionKey (key : string) (b : t) : t :=
  mkBuilder (m_outputPath b) (m_entries b) key (m_compressionLevel b).

Definition setCompressionLevel (level : CompressionLevel) (b : t) : t :=
  mkBuilder (m_outputPath b) (m_entries b) (m_encryptionKey b) level.

Definition compressData (data : list Z) : Result (list Z) := Ok data.

Definition encryptData (data : list Z) : Result (list Z) := Ok data.

(** The bytes [finalizePack] stores for an entry's payload. *)
Definition processedData (b : t) (entry : PackEntry) : list Z :=
  let processedData := data entry in
  let processedData :=
    if negb (compression_is_none (m_compressionLevel b))
    then match compressData (data entry) with
         | Ok v => v
         | Error _ => processedData
         end
    else processedData in
  if negb (String.eqb (m_encryptionKey b) "")
  then match encryptData processedData with
       | Ok v => v
       | Error _ => processedData
       end
  else processedData.

Definition write_entry (b : t) (o : ofstream) (entry : PackEntry) : ofstream :=
  let pathLen := u32 (Z.of_nat (String.length (path entry))) in
  let o := write_u32 pathLen o in
  let o := stream_write (take (Z.to_nat pathLen) (string_bytes (path entry))) o in
  let processedData := processedData b entry in
  let dataSize := u64 (Z.of_nat (length processedData)) in
  let o := write_u64 dataSize o in
  stream_write (take (Z.to_nat dataSize) processedData) o.

Definition finalizePack (fs : FS) (b : t) : Result unit * FS :=
  if String.eqb (m_outputPath b) ""
  then (Error "Pack not initialized - call beginPack first", fs)
  else if negb (can_open_write fs (m_outputPath b))
  then (Error ("Cannot create pack file: " +:+ m_outputPath b), fs)
  else
    let o := stream_open in
    let o := stream_write (string_bytes "NMRS") o in
    let entryCount := u32 (Z.of_nat (length (m_entries b))) in
    let o := write_u32 entryCount o in
    let o := foldl (write_entry b) o (m_entries b) in
    (Ok tt, write_file fs (m_outputPath b) (buf o)).

(** The sums are [i64] accumulators; they are kept unbounded here. *)
Definition getStats (b : t) : PackStats :=
  let fileCount := i32 (Z.of_nat (length (m_entries b))) in
  let uncompressedSize :=
    foldl (fun total entry => total + originalSize entry) 0 (m_entries b) in
  let compressedSize :=
    foldl (fun total entry => total + i64 (Z.of_nat (length (data entry))))
          0 (m_entries b) in
  let compressionRatio :=
    if Z.ltb 0 uncompressedSize
    then f32_div (f32_of_int compressedSize) (f32_of_int uncompressedSize)
    else f32_one_units in
  mkPackStats fileCount uncompressedSize compressedSize compressionRatio.

(** The calls a client can make on a builder, and a run of them. *)
Inductive call : Type :=
| BeginPack (outputPath : string)
| AddFile (sourcePath packPath : string)
| AddData (packPath : string) (data : list Z)
| SetEncryptionKey (key : string)
| SetCompressionLevel (level : CompressionLevel).

Definition run_call (fs : FS) (b : t) (c : call) : t :=
  match c with
  | BeginPack outputPath => (beginPack outputPath b).2
  | AddFile sourcePath packPath => (addFile fs sourcePath packPath b).2
  | AddData packPath data => (addData packPath data b).2
  | SetEncryptionKey key => setEncryptionKey key b
  | SetCompressionLevel level => setCompressionLevel level b
  end.

(** The bytes of one entry whose lengths fit their fields. *)
Definition entry_bytes (entry : PackEntry) : list Z :=
  le_bytes 4 (Z.of_nat (String.length (path entry)))
  ++ string_bytes (path entry)
  ++ le_bytes 8 (Z.of_nat (length (data entry)))
  ++ data entry.

(** The lengths of an entry fit the [u32] and [u64] that store them. *)
Definition fits (entry : PackEntry) : Prop :=
  Z.of_nat (String.length (path entry)) < 2 ^ 32
  /\ Z.of_nat (length (data entry)) < 2 ^ 64.

(** Every entry records the length of its data as its original size. *)
Definition sizes_recorded (b : t) : Prop :=
  Forall (fun entry => originalSize entry = i64 (Z.of_nat (length (data entry))))
         (m_entries b).

(** *** Reading a pack written by [finalizePack]

    The layout follows the writer: the magic, a [u32] entry count, then for
    each entry a [u32] path length, the path, a [u64] data size and the
    data. *)
Fixpoint read_entries (n : nat) (bs : list Z) : list (string * list Z) :=
  match n with
  | O => []
  | S n' =>
      let pathLen := Z.to_nat (get_u32 0 bs) in
      let p := bytes_string (slice 4 pathLen bs) in
      let dataSize := Z.to_nat (get_u64 (4 + pathLen) bs) in
      let d := slice (4 + pathLen + 8) dataSize bs in
      (p, d) :: read_entries n' (drop (4 + pathLen + 8 + dataSize) bs)
  end.

Definition read_pack (bs : list Z) : option (list (string * list Z)) :=
  if String.eqb (bytes_string (slice 0 4 bs)) "NMRS"
  then Some (read_entries (Z.to_nat (get_u32 4 bs)) (drop 8 bs))
  else None.

End PackBuilder.

(** *** [AssetProcessor] *)

Module AssetProcessor.

Definition getAssetType (path : string) : string :=
  let ext := tolower (extension path) in
  if ext_in ext [".png"; ".jpg"; ".jpeg"; ".bmp"; ".gif"] then "image"
  else if ext_in ext [".ogg"; ".wav"; ".mp3"; ".flac"] then "audio"
  else if ext_in ext [".ttf"; ".otf"; ".woff"; ".woff2"] then "font"
  else if ext_in ext [".nms"; ".nmscript"] then "script"
  else if ext_in ext [".json"; ".xml"; ".yaml"] then "data"
  else "other".

End AssetProcessor.

(** *** [IntegrityChecker] *)

Module IntegrityChecker.

Inductive Severity : Type := SeverityInfo | SeverityWarning | SeverityError.

Record Issue : Type := mkIssue {
  severity : Severity;
  message : string;
  file : string
}.

Record t : Type := mkChecker {
  m_referencedAssets : list string;
  m_existingAssets : list string
}.

(** The issues for the required directories that do not exist. *)
Definition missing_directories (fs : FS) (projectPath : string)
    (requiredDirs : list string) : list Issue :=
  foldl (fun issues dir =>
           if negb (fs_exists fs (projectPath </> dir))
           then issues ++ [mkIssue SeverityError
                             ("Missing required directory: " +:+ dir)
                             projectPath]
           else issues)
        [] requiredDirs.

(** The [recursive_directory_iterator] throws when [assets] exists but is
    not a directory; nothing catches the exception. *)
Definition checkMissingAssets (fs : FS) (projectPath : string) (c : t)
  : outcome (list Issue) * t :=
  let c := mkChecker [] [] in
  let assetsDir := projectPath </> "assets" in
  let scanned :=
    if fs_exists fs assetsDir
    then match list_recursive fs assetsDir with
         | Some entries =>
             Val (mkChecker
                    (m_referencedAssets c)
                    (foldl (fun existing entry =>
                              if is_regular_file fs entry
                              then existing ++ [relative entry assetsDir]
                              else existing)
                           (m_existingAssets c) entries))
         | None =>
             Throw (filesystem_error_what
                      "recursive directory iterator cannot open directory"
                      assetsDir)
         end
    else Val c in
  match scanned with
  | Throw w => (Throw w, c)
  | Val c =>
      (Val (missing_directories fs projectPath ["assets"; "scripts"]), c)
  end.

(** The brace counter and the line counter after scanning [content]. *)
Fixpoint count_braces (content : list ascii) (braceCount line : Z) : Z * Z :=
  match content with
  | [] => (braceCount, line)
  | c :: rest =>
      let line := if Ascii.eqb c (ascii_of_nat 10) then line + 1 else line in
      let braceCount := if Ascii.eqb c "{" then braceCount + 1 else braceCount in
      let braceCount := if Ascii.eqb c "}" then braceCount - 1 else braceCount in
      count_braces rest braceCount line
  end.

(** The issue, if any, for one entry of the scripts directory. *)
Definition check_script (fs : FS) (entry : string) : list Issue :=
  if is_regular_file fs entry
  then
    let ext := extension entry in
    if String.eqb ext ".nms" || String.eqb ext ".nmscript"
    then match read_file fs entry with
         | None => [mkIssue SeverityError "Cannot open script file" entry]
         | Some bytes =>
             let content := byte_char <$> bytes in
             let '(braceCount, line) := count_braces content 0 1 in
             if negb (Z.eqb braceCount 0)
             then [mkIssue SeverityWarning "Unbalanced braces detected" entry]
             else []
         end
    else []
  else [].

Definition checkScripts (fs : FS) (projectPath : string)
  : outcome (list Issue) :=
  let scriptsDir := projectPath </> "scripts" in
  if negb (fs_exists fs scriptsDir) then Val []
  else match list_recursive fs scriptsDir with
       | Some entries =>
           Val (foldl (fun issues entry => issues ++ check_script fs entry)
                      [] entries)
       | None =>
           Throw (filesystem_error_what
                    "recursive directory iterator cannot open directory"
                    scriptsDir)
       end.

Definition checkLocalization (fs : FS) (projectPath : string) : list Issue :=
  let localizationDir := projectPath </> "localization" in
  if negb (fs_exists fs localizationDir)
  then [mkIssue SeverityInfo "No localization directory found" projectPath]
  else [].

Definition checkUnreachableContent (projectPath : string) : list Issue := [].

Definition checkCircularReferences (projectPath : string) : list Issue := [].

Definition checkProject (fs : FS) (projectPath : string) (c : t)
  : outcome (Result (list Issue)) * t :=
  let allIssues : list Issue := [] in
  match checkMissingAssets fs projectPath c with
  | (Throw w, c) => (Throw w, c)
  | (Val missingAssets, c) =>
      let allIssues := allIssues ++ missingAssets in
      match checkScripts fs projectPath with
      | Throw w => (Throw w, c)
      | Val scriptIssues =>
          let allIssues := allIssues ++ scriptIssues in
          let localizationIssues := checkLocalization fs projectPath in
          let allIssues := allIssues ++ localizationIssues in
          let unreachableIssues := checkUnreachableContent projectPath in
          let allIssues := allIssues ++ unreachableIssues in
          let circularIssues := checkCircularReferences projectPath in
          let allIssues := allIssues ++ circularIssues in
          (Val (Ok allIssues), c)
      end
  end.

End IntegrityChecker.

(** A project tree used to run the checker. *)
Definition checker_example_fs : FS :=
  {[ "/p" := Dir;
     "/p/scripts" := Dir;
     "/p/scripts/a.nms" := File (string_bytes "scene { ( }}");
     "/p/scripts/b.nms" := File (string_bytes "scene { ) }") ]}.

(** ** [BuildSizeAnalyzer]

    Modelled from the spec: [build_size_analyzer.hpp], which declares the
    analysis records, the configuration and the members of
    [BuildSizeAnalyzer], is not among the sources.  The records below carry
    the fields [build_size_analyzer.cpp] reads and writes; a
    default-constructed record is taken to be zero-initialised (numbers 0,
    flags false, strings and containers empty), sizes are [u64], ratios are
    [f32], and the wall-clock fields ([analysisTimeMs],
    [analysisTimestamp]) are left out.  [m_hashToFiles] is taken to be an
    unordered map from the fingerprint to the paths that have it. *)

Module Analyzer.

Inductive AssetCategory : Type :=
| Images | Audio | Scripts | Fonts | Video | Data | Other.

#[global] Instance AssetCategory_eq_dec : EqDecision AssetCategory.
Proof. solve_decision. Defined.

(** [CompressionType::None] is [CompressionTypeNone]. *)
Inductive CompressionType : Type :=
| CompressionTypeNone | Png | Jpeg | Ogg.

Inductive Priority : Type := Low | Medium | High | Critical.

Inductive SuggestionType : Type :=
| RemoveDuplicate | CompressImage | CompressAudio | RemoveUnused.

Record AssetSizeInfo : Type := mkAsset {
  path : string;
  name : string;
  category : AssetCategory;
  originalSize : Z;
  compressedSize : Z;
  compression : CompressionType;
  compressionRatio : Z;
  isOversized : bool;
  optimizationSuggestions : list string;
  isDuplicate : bool;
  duplicateOf : string;
  isUnused : bool
}.

Definition set_path (v : string) (r : AssetSizeInfo) : AssetSizeInfo :=
  mkAsset v (name r) (category r) (originalSize r) (compressedSize r) (compression r) (compressionRatio r) (isOversized r) (optimizationSuggestions r) (isDuplicate r) (duplicateOf r) (isUnused r).

Definition set_name (v : string) (r : AssetSizeInfo) : AssetSizeInfo :=
  mkAsset (path r) v (category r) (originalSize r) (compressedSize r) (compression r) (compressionRatio r) (isOversized r) (optimizationSuggestions r) (isDuplicate r) (duplicateOf r) (isUnused r).

Definition set_category (v : AssetCategory) (r : AssetSizeInfo) : AssetSizeInfo :=
  mkAsset (path r) (name r) v (originalSize r) (compressedSize r) (compression r) (compressionRatio r) (isOversized r) (optimizationSuggestions r) (isDuplicate r) (duplicateOf r) (isUnused r).

Definition set_originalSize (v : Z) (r : AssetSizeInfo) : AssetSizeInfo :=
  mkAsset (path r) (name r) (category r) v (compressedSize r) (compression r) (compressionRatio r) (isOversized r) (optimizationSuggestions r) (isDuplicate r) (duplicateOf r) (isUnused r).

Definition set_compressedSize (v : Z) (r : AssetSizeInfo) : AssetSizeInfo :=
  mkAsset (path r) (name r) (category r) (originalSize r) v (compression r) (compressionRatio r) (isOversized r) (optimizationSuggestions r) (isDuplicate r) (duplicateOf r) (isUnused r).

Definition set_compression (v : CompressionType) (r : AssetSizeInfo) : AssetSizeInfo :=
  mkAsset (path r) (name r) (category r) (originalSize r) (compressedSize r) v (compressionRatio r) (isOversized r) (optimizationSuggestions r) (isDuplicate r) (duplicateOf r) (isUnused r).

Definition set_compressionRatio (v : Z) (r : AssetSizeInfo) : AssetSizeInfo :=
  mkAsset (path r) (name r) (category r) (originalSize r) (compressedSize r) (compression r) v (isOversized r) (optimizationSuggestions r) (isDuplicate r) (duplicateOf r) (isUnused r).

Definition set_isOversized (v : bool) (r : AssetSizeInfo) : AssetSizeInfo :=
  mkAsset (path r) (name r) (category r) (originalSize r) (compressedSize r) (compression r) (compressionRatio r) v (optimizationSuggestions r) (isDuplicate r) (duplicateOf r) (isUnused r).

Definition set_optimizationSuggestions (v : (list string)) (r : AssetSizeInfo) : AssetSizeInfo :=
  mkAsset (path r) (name r) (category r) (originalSize r) (compressedSize r) (compression r) (compressionRatio r) (isOversized r) v (isDuplicate r) (duplicateOf r) (isUnused r).

Definition set_isDuplicate (v : bool) (r : AssetSizeInfo) : AssetSizeInfo :=
  mkAsset (path r) (name r) (category r) (originalSize r) (compressedSize r) (compression r) (compressionRatio r) (isOversized r) (optimizationSuggestions r) v (duplicateOf r) (isUnused r).

Definition set_duplicateOf (v : string) (r : AssetSizeInfo) : AssetSizeInfo :=
  mkAsset (path r) (name r) (category r) (originalSize r) (compressedSize r) (compression r) (compressionRatio r) (isOversized r) (optimizationSuggestions r) (isDuplicate r) v (isUnused r).

Definition set_isUnused (v : bool) (r : AssetSizeInfo) : AssetSizeInfo :=
  mkAsset (path r) (name r) (category r) (originalSize r) (compressedSize r) (compression r) (compressionRatio r) (isOversized r) (optimizationSuggestions r) (isDuplicate r) (duplicateOf r) v.

Definition AssetSizeInfo_default : AssetSizeInfo :=
  mkAsset "" "" Other 0 0 CompressionTypeNone 0 false [] false "" false.

Record DuplicateGroup : Type := mkGroup {
  hash : string;
  paths : list string;
  singleFileSize : Z;
  wastedSpace : Z
}.

Record OptimizationSuggestion : Type := mkSuggestion {
  priority : Priority;
  suggestion_type : SuggestionType;
  assetPath : string;
  description : string;
  estimatedSavings : Z;
  canAutoFix : bool
}.

Record CategorySummary : Type := mkSummary {
  summary_category : AssetCategory;
  fileCount : Z;
  summary_totalOriginalSize : Z;
  summary_totalCompressedSize : Z;
  percentageOfTotal : Z;
  averageCompressionRatio : Z
}.

(** The three switches share their names with the methods they enable and
    carry a [cfg_] prefix here. *)
Record BuildSizeAnalysisConfig : Type := mkAnalysisConfig {
  analyzeImages : bool;
  analyzeAudio : bool;
  analyzeScripts : bool;
  analyzeFonts : bool;
  analyzeVideo : bool;
  analyzeOther : bool;
  cfg_detectDuplicates : bool;
  cfg_detectUnused : bool;
  cfg_generateSuggestions : bool;
  excludePatterns : list string;
  largeImageThreshold : Z;
  largeAudioThreshold : Z
}.

Record BuildSizeAnalysis : Type := mkAnalysis {
  assets : list AssetSizeInfo;
  categorySummaries : list CategorySummary;
  duplicates : list DuplicateGroup;
  unusedAssets : list string;
  suggestions : list OptimizationSuggestion;
  totalOriginalSize : Z;
  totalCompressedSize : Z;
  totalFileCount : Z;
  overallCompressionRatio : Z;
  totalWastedSpace : Z;
  unusedSpace : Z;
  potentialSavings : Z
}.

Definition set_assets (v : (list AssetSizeInfo)) (r : BuildSizeAnalysis) : BuildSizeAnalysis :=
  mkAnalysis v (categorySummaries r) (duplicates r) (unusedAssets r) (suggestions r) (totalOriginalSize r) (totalCompressedSize r) (totalFileCount r) (overallCompressionRatio r) (totalWastedSpace r) (unusedSpace r) (potentialSavings r).

Definition set_categorySummaries (v : (list CategorySummary)) (r : BuildSizeAnalysis) : BuildSizeAnalysis :=
  mkAnalysis (assets r) v (duplicates r) (unusedAssets r) (suggestions r) (totalOriginalSize r) (totalCompressedSize r) (totalFileCount r) (overallCompressionRatio r) (totalWastedSpace r) (unusedSpace r) (potentialSavings r).

Definition set_duplicates (v : (list DuplicateGroup)) (r : BuildSizeAnalysis) : BuildSizeAnalysis :=
  mkAnalysis (assets r) (categorySummaries r) v (unusedAssets r) (suggestions r) (totalOriginalSize r) (totalCompressedSize r) (totalFileCount r) (overallCompressionRatio r) (totalWastedSpace r) (unusedSpace r) (potentialSavings r).

Definition set_unusedAssets (v : (list string)) (r : BuildSizeAnalysis) : BuildSizeAnalysis :=
  mkAnalysis (assets r) (categorySummaries r) (duplicates r) v (suggestions r) (totalOriginalSize r) (totalCompressedSize r) (totalFileCount r) (overallCompressionRatio r) (totalWastedSpace r) (unusedSpace r) (potentialSavings r).

Definition set_suggestions (v : (list OptimizationSuggestion)) (r : BuildSizeAnalysis) : BuildSizeAnalysis :=
  mkAnalysis (assets r) (categorySummaries r) (duplicates r) (unusedAssets r) v (totalOriginalSize r) (totalCompressedSize r) (totalFileCount r) (overallCompressionRatio r) (totalWastedSpace r) (unusedSpace r) (potentialSavings r).

Definition set_totalOriginalSize (v : Z) (r : BuildSizeAnalysis) : BuildSizeAnalysis :=
  mkAnalysis (assets r) (categorySummaries r) (duplicates r) (unusedAssets r) (suggestions r) v (totalCompressedSize r) (totalFileCount r) (overallCompressionRatio r) (totalWastedSpace r) (unusedSpace r) (potentialSavings r).

Definition set_totalCompressedSize (v : Z) (r : BuildSizeAnalysis) : BuildSizeAnalysis :=
  mkAnalysis (assets r) (categorySummaries r) (duplicates r) (unusedAssets r) (suggestions r) (totalOriginalSize r) v (totalFileCount r) (overallCompressionRatio r) (totalWastedSpace r) (unusedSpace r) (potentialSavings r).

Definition set_totalFileCount (v : Z) (r : BuildSizeAnalysis) : BuildSizeAnalysis :=
  mkAnalysis (assets r) (categorySummaries r) (duplicates r) (unusedAssets r) (suggestions r) (totalOriginalSize r) (totalCompressedSize r) v (overallCompressionRatio r) (totalWastedSpace r) (unusedSpace r) (potentialSavings r).

Definition set_overallCompressionRatio (v : Z) (r : BuildSizeAnalysis) : BuildSizeAnalysis :=
  mkAnalysis (assets r) (categorySummaries r) (duplicates r) (unusedAssets r) (suggestions r) (totalOriginalSize r) (totalCompressedSize r) (totalFileCount r) v (totalWastedSpace r) (unusedSpace r) (potentialSavings r).

Definition set_totalWastedSpace (v : Z) (r : BuildSizeAnalysis) : BuildSizeAnalysis :=
  mkAnalysis (assets r) (categorySummaries r) (duplicates r) (unusedAssets r) (suggestions r) (totalOriginalSize r) (totalCompressedSize r) (totalFileCount r) (overallCompressionRatio r) v (unusedSpace r) (potentialSavings r).

Definition set_unusedSpace (v : Z) (r : BuildSizeAnalysis) : BuildSizeAnalysis :=
  mkAnalysis (assets r) (categorySummaries r) (duplicates r) (unusedAssets r) (suggestions r) (totalOriginalSize r) (totalCompressedSize r) (totalFileCount r) (overallCompressionRatio r) (totalWastedSpace r) v (potentialSavings r).

Definition set_potentialSavings (v : Z) (r : BuildSizeAnalysis) : BuildSizeAnalysis :=
  mkAnalysis (assets r) (categorySummaries r) (duplicates r) (unusedAssets r) (suggestions r) (totalOriginalSize r) (totalCompressedSize r) (totalFileCount r) (overallCompressionRatio r) (totalWastedSpace r) (unusedSpace r) v.

Definition BuildSizeAnalysis_default : BuildSizeAnalysis :=
  mkAnalysis [] [] [] [] [] 0 0 0 0 0 0 0.

(** What a listener is told. *)
Inductive Event : Type :=
| AnalysisStarted
| AnalysisProgress (task : string) (progress : Z)
| AnalysisCompleted (analysis : BuildSizeAnalysis).

(** The analyzer.  A listener is known by its address (0 is [nullptr]);
    [events] records every call made on a listener, in order. *)
Record t : Type := mkAnalyzer {
  m_projectPath : string;
  m_config : BuildSizeAnalysisConfig;
  m_analysis : BuildSizeAnalysis;
  m_hashToFiles : gmap string (list string);
  m_referencedAssets : list string;
  m_listeners : list nat;
  events : list (nat * Event)
}.

Definition set_m_projectPath (v : string) (r : t) : t :=
  mkAnalyzer v (m_config r) (m_analysis r) (m_hashToFiles r) (m_referencedAssets r) (m_listeners r) (events r).

Definition set_m_config (v : BuildSizeAnalysisConfig) (r : t) : t :=
  mkAnalyzer (m_projectPath r) v (m_analysis r) (m_hashToFiles r) (m_referencedAssets r) (m_listeners r) (events r).

Definition set_m_analysis (v : BuildSizeAnalysis) (r : t) : t :=
  mkAnalyzer (m_projectPath r) (m_config r) v (m_hashToFiles r) (m_referencedAssets r) (m_listeners r) (events r).

Definition set_m_hashToFiles (v : (gmap string (list string))) (r : t) : t :=
  mkAnalyzer (m_projectPath r) (m_config r) (m_analysis r) v (m_referencedAssets r) (m_listeners r) (events r).

Definition set_m_referencedAssets (v : (list string)) (r : t) : t :=
  mkAnalyzer (m_projectPath r) (m_config r) (m_analysis r) (m_hashToFiles r) v (m_listeners r) (events r).

Definition set_m_listeners (v : (list nat)) (r : t) : t :=
  mkAnalyzer (m_projectPath r) (m_config r) (m_analysis r) (m_hashToFiles r) (m_referencedAssets r) v (events r).

Definition set_events (v : (list (nat * Event))) (r : t) : t :=
  mkAnalyzer (m_projectPath r) (m_config r) (m_analysis r) (m_hashToFiles r) (m_referencedAssets r) (m_listeners r) v.

(** *** [SizeVisualization::formatBytes]

    The [f64] in [formatBytes] starts as an integer and is only ever divided
    by [1024.0], which is exact in binary64 (a change of exponent): it is
    kept as its integer numerator over [1024 ^ unitIndex]. *)

(** [static_cast<f64>] of a non-negative integer: rounded to 53 significant
    bits, ties to even. *)
Definition f64_of_int (k : Z) : Z :=
  let e := Z.max 0 (Z.log2 k - 52) in
  rne k (2 ^ e) * 2 ^ e.

(** The loop [while (size >= 1024.0 && unitIndex < 4)]; there are at most
    four rounds. *)
Fixpoint select_unit (rounds : nat) (size : Z) (unitIndex : Z) : Z :=
  match rounds with
  | O => unitIndex
  | S rounds' =>
      if Z.leb (1024 * 1024 ^ unitIndex) size && Z.ltb unitIndex 4
      then select_unit rounds' size (unitIndex + 1)
      else unitIndex
  end.

Definition two_digits (n : Z) : string :=
  (if Z.ltb n 10 then "0" else "") +:+ to_string n.

(** [std::fixed << std::setprecision(2)] of [num / den]: the exact value
    rounded to two decimals, to nearest with ties to even, as glibc prints
    it. *)
Definition fixed2 (num den : Z) : string :=
  let q := rne (num * 100) den in
  to_string (q / 100) +:+ "." +:+ two_digits (q mod 100).

Definition unit_name (unitIndex : Z) : string :=
  nth (Z.to_nat unitIndex) ["B"; "KB"; "MB"; "GB"; "TB"] "".

Definition formatBytes (bytes : Z) : string :=
  let size := f64_of_int bytes in
  let unitIndex := select_unit 4 size 0 in
  if Z.eqb unitIndex 0
  then to_string bytes +:+ " " +:+ unit_name unitIndex
  else fixed2 size (1024 ^ unitIndex) +:+ " " +:+ unit_name unitIndex.

(** *** Classification by extension *)

Definition detectCompression (path : string) : CompressionType :=
  let ext := tolower (extension path) in
  if String.eqb ext ".png" then Png
  else if String.eqb ext ".jpg" || String.eqb ext ".jpeg" then Jpeg
  else if String.eqb ext ".ogg" then Ogg
  else CompressionTypeNone.

Definition categorizeAsset (path : string) : AssetCategory :=
  let ext := tolower (extension path) in
  if ext_in ext [".png"; ".jpg"; ".jpeg"; ".bmp"; ".gif"; ".webp"; ".tga"]
  then Images
  else if ext_in ext [".ogg"; ".wav"; ".mp3"; ".flac"; ".aac"; ".m4a"]
  then Audio
  else if ext_in ext [".nms"; ".nmscript"; ".lua"; ".json"]
  then Scripts
  else if ext_in ext [".ttf"; ".otf"; ".woff"; ".woff2"]
  then Fonts
  else if ext_in ext [".mp4"; ".webm"; ".avi"; ".mkv"]
  then Video
  else if ext_in ext [".xml"; ".yaml"; ".yml"; ".csv"; ".dat"; ".bin"]
  then Data
  else Other.

(** *** The fingerprint *)

Definition hex_digit (d : Z) : ascii :=
  match String.get (Z.to_nat d) "0123456789abcdef" with
  | Some c => c
  | None => "0"%char
  end.

(** [oss << std::hex << hash] for a [u64]: at most 16 digits, no leading
    zero. *)
Fixpoint hex_aux (digits : nat) (n : Z) (acc : string) : string :=
  match digits with
  | O => acc
  | S digits' =>
      let acc := String (hex_digit (n mod 16)) acc in
      if Z.eqb (n / 16) 0 then acc else hex_aux digits' (n / 16) acc
  end.

Definition hex (n : Z) : string := hex_aux 16 n "".

(** [hash = hash * 31 + static_cast<u8>(buffer[i])] over the bytes read. *)
Definition hash_bytes (hash : Z) (buffer : list Z) : Z :=
  foldl (fun hash b => u64 (hash * 31 + b mod 256)) hash buffer.

Definition computeFileHash (fs : FS) (path : string) : string :=
  match read_file fs path with
  | None => ""
  | Some content =>
      let size := Z.of_nat (length content) in
      let hash := u64 size in
      let hash := hash_bytes hash (take 1024 content) in
      let hash :=
        if Z.ltb 2048 size
        then hash_bytes hash (drop (length content - 1024) content)
        else hash in
      hex hash
  end.

(** *** Listeners *)

Definition addListener (listener : nat) (a : t) : t :=
  match listener with
  | O => a
  | _ => set_m_listeners (m_listeners a ++ [listener]) a
  end.

Definition removeListener (listener : nat) (a : t) : t :=
  set_m_listeners (filter (fun l => l <> listener) (m_listeners a)) a.

(** One call on every listener, in registration order. *)
Definition notify (e : Event) (a : t) : t :=
  set_events (events a ++ ((fun l => (l, e)) <$> m_listeners a)) a.

Definition reportProgress (task : string) (progress : Z) (a : t) : t :=
  notify (AnalysisProgress task progress) a.

Definition on_analysis (f : BuildSizeAnalysis -> BuildSizeAnalysis) (a : t) : t :=
  set_m_analysis (f (m_analysis a)) a.

(** *** [scanAssets] *)

Definition shouldAnalyze (config : BuildSizeAnalysisConfig)
    (category : AssetCategory) : bool :=
  match category with
  | Images => analyzeImages config
  | Audio => analyzeAudio config
  | Scripts => analyzeScripts config
  | Fonts => analyzeFonts config
  | Video => analyzeVideo config
  | _ => analyzeOther config
  end.

Definition push_asset (info : AssetSizeInfo) (an : BuildSizeAnalysis)
  : BuildSizeAnalysis :=
  set_totalFileCount (totalFileCount an + 1)
    (set_assets (assets an ++ [info]) an).

Definition new_asset (fs : FS) (entry : string) (category : AssetCategory)
  : AssetSizeInfo :=
  let info := AssetSizeInfo_default in
  let info := set_path entry info in
  let info := set_name (filename entry) info in
  let info := set_category category info in
  let info := set_originalSize (u64 (default 0 (file_size fs entry))) info in
  set_compressedSize (originalSize info) info.

(** The body of the loop over the [assets] directory. *)
Definition scan_asset_entry (fs : FS) (config : BuildSizeAnalysisConfig)
    (an : BuildSizeAnalysis) (entry : string) : BuildSizeAnalysis :=
  if negb (is_regular_file fs entry) then an
  else
    let category := categorizeAsset entry in
    let shouldAnalyze := shouldAnalyze config category in
    if negb shouldAnalyze then an
    else
      let excluded :=
        existsb (fun pattern => contains entry pattern)
                (excludePatterns config) in
      if excluded then an
      else push_asset (new_asset fs entry category) an.

(** The body of the loop over the [scripts] directory. *)
Definition scan_script_entry (fs : FS) (an : BuildSizeAnalysis)
    (entry : string) : BuildSizeAnalysis :=
  if is_regular_file fs entry
  then
    let ext := extension entry in
    if String.eqb ext ".nms" || String.eqb ext ".nmscript"
    then push_asset (new_asset fs entry Scripts) an
    else an
  else an.

(** A [recursive_directory_iterator] throws when the directory exists but
    cannot be iterated; [analyze] catches the exception. *)
Definition scanAssets (fs : FS) (a : t) : outcome unit * t :=
  if String.eqb (m_projectPath a) "" then (Val tt, a)
  else
    let projectDir := m_projectPath a in
    if negb (fs_exists fs projectDir) then (Val tt, a)
    else
      let assetsDir := projectDir </> "assets" in
      let scanned :=
        if fs_exists fs assetsDir
        then match list_recursive fs assetsDir with
             | Some entries =>
                 Val (on_analysis
                        (fun an => foldl (scan_asset_entry fs (m_config a))
                                         an entries) a)
             | None =>
                 Throw (filesystem_error_what
                          "recursive directory iterator cannot open directory"
                          assetsDir)
             end
        else Val a in
      match scanned with
      | Throw w => (Throw w, a)
      | Val a =>
          let scriptsDir := projectDir </> "scripts" in
          if fs_exists fs scriptsDir && analyzeScripts (m_config a)
          then match list_recursive fs scriptsDir with
               | Some entries =>
                   (Val tt,
                    on_analysis
                      (fun an => foldl (scan_script_entry fs) an entries) a)
               | None =>
                   (Throw (filesystem_error_what
                             "recursive directory iterator cannot open directory"
                             scriptsDir), a)
               end
          else (Val tt, a)
      end.

(** *** [analyzeAsset]

    The reference parameter [info] becomes an argument and a result; the
    caller stores the result back into [m_analysis.assets]. *)
Definition analyzeAsset (fs : FS) (info : AssetSizeInfo) (a : t)
  : AssetSizeInfo * t :=
  let hash := computeFileHash fs (path info) in
  let a :=
    set_m_hashToFiles
      (<[hash := default [] (m_hashToFiles a !! hash) ++ [path info]]>
         (m_hashToFiles a)) a in
  let info := set_compression (detectCompression (path info)) info in
  let info := set_compressionRatio f32_one_units info in
  let info :=
    if bool_decide (category info = Images)
       && Z.ltb (largeImageThreshold (m_config a)) (originalSize info)
    then set_optimizationSuggestions
           (optimizationSuggestions info
            ++ ["Consider reducing image size or using better compression"])
           (set_isOversized true info)
    else info in
  let info :=
    if bool_decide (category info = Audio)
       && Z.ltb (largeAudioThreshold (m_config a)) (originalSize info)
    then set_optimizationSuggestions
           (optimizationSuggestions info
            ++ ["Consider using OGG Vorbis compression or reducing quality"])
           (set_isOversized true info)
    else info in
  let a :=
    on_analysis
      (fun an =>
         set_totalCompressedSize
           (u64 (totalCompressedSize an + compressedSize info))
           (set_totalOriginalSize
              (u64 (totalOriginalSize an + originalSize info)) an)) a in
  (info, a).

(** The loop of [analyze] over the indices of [m_analysis.assets]. *)
Definition analyze_assets (fs : FS) (a : t) : t :=
  let count := length (assets (m_analysis a)) in
  foldl (fun a i =>
           match assets (m_analysis a) !! i with
           | Some info =>
               let '(info, a) := analyzeAsset fs info a in
               let a := on_analysis
                          (fun an => set_assets (<[i := info]> (assets an)) an)
                          a in
               let progress :=
                 f32_add (f32_lit 2 10)
                   (f32_div (f32_mul (f32_lit 3 10) (f32_of_int (Z.of_nat i)))
                            (f32_of_int (Z.of_nat count))) in
               reportProgress ("Analyzing: " +:+ name info) progress a
           | None => a
           end)
        a (seq 0 count).

(** *** [detectDuplicates] *)

(** [for (auto &asset : assets) if (asset.path == p) { ...; break; }]:
    the first asset with the path is updated. *)
Fixpoint mark_first (p : string) (f : AssetSizeInfo -> AssetSizeInfo)
    (l : list AssetSizeInfo) : list AssetSizeInfo :=
  match l with
  | [] => []
  | asset :: rest =>
      if String.eqb (path asset) p then f asset :: rest
      else asset :: mark_first p f rest
  end.

Definition first_with_path (p : string) (l : list AssetSizeInfo)
  : option AssetSizeInfo :=
  List.find (fun asset => String.eqb (path asset) p) l.

(** The body of the loop over [m_hashToFiles]. *)
Definition detect_group (an : BuildSizeAnalysis)
    (entry : string * list string) : BuildSizeAnalysis :=
  let '(hash, files) := entry in
  if (1 <? length files)%nat
  then
    let first := default "" (head files) in
    let singleFileSize :=
      match first_with_path first (assets an) with
      | Some asset => originalSize asset
      | None => 0
      end in
    let wastedSpace :=
      u64 (singleFileSize * (Z.of_nat (length files) - 1)) in
    let group := mkGroup hash files singleFileSize wastedSpace in
    let an := set_totalWastedSpace (u64 (totalWastedSpace an + wastedSpace)) an in
    let an :=
      foldl (fun an p =>
               set_assets
                 (mark_first p
                    (fun asset =>
                       set_duplicateOf first (set_isDuplicate true asset))
                    (assets an)) an)
            an (tail files) in
    set_duplicates (duplicates an ++ [group]) an
  else an.

(** [detectDuplicates] for a given iteration order of the map. *)
Definition detectDuplicates_in (order : list (string * list string))
    (an : BuildSizeAnalysis) : BuildSizeAnalysis :=
  foldl detect_group an order.

(** The iteration order of an unordered map is unspecified; [map_to_list]
    fixes one. *)
Definition detectDuplicates (a : t) : t :=
  on_analysis (detectDuplicates_in (map_to_list (m_hashToFiles a))) a.

Definition detectUnused (a : t) : t := a.

(** *** [generateSuggestions] *)

Definition push_suggestion (suggestion : OptimizationSuggestion)
    (an : BuildSizeAnalysis) : BuildSizeAnalysis :=
  set_potentialSavings
    (u64 (potentialSavings an + estimatedSavings suggestion))
    (set_suggestions (suggestions an ++ [suggestion]) an).

(** [dup.paths[1]] and [dup.paths[0]]: every group [detectDuplicates] makes
    has at least two paths. *)
Definition duplicate_suggestion (dup : DuplicateGroup)
  : OptimizationSuggestion :=
  mkSuggestion High RemoveDuplicate (default "" (paths dup !! 1%nat))
    ("Remove duplicate file (same content as "
     +:+ default "" (paths dup !! 0%nat) +:+ ")")
    (singleFileSize dup) true.

Definition image_suggestion (asset : AssetSizeInfo) : OptimizationSuggestion :=
  mkSuggestion Medium CompressImage (path asset)
    ("Large image detected (" +:+ formatBytes (originalSize asset)
     +:+ "). Consider resizing or compressing.")
    (originalSize asset / 2) false.

Definition audio_suggestion (asset : AssetSizeInfo) : OptimizationSuggestion :=
  mkSuggestion Medium CompressAudio (path asset)
    ("Large audio file detected (" +:+ formatBytes (originalSize asset)
     +:+ "). Consider using OGG Vorbis.")
    (originalSize asset / 3) false.

Definition unused_suggestion (asset : AssetSizeInfo) : OptimizationSuggestion :=
  mkSuggestion High RemoveUnused (path asset) "Asset appears to be unused"
    (originalSize asset) true.

(** [std::sort] with the comparator [comp]: an insertion sort.  [std::sort]
    leaves the relative order of equivalent elements unspecified; this one
    keeps it. *)
Fixpoint sort_insert {A} (comp : A -> A -> bool) (x : A) (l : list A) : list A :=
  match l with
  | [] => [x]
  | y :: rest =>
      if comp x y then x :: y :: rest else y :: sort_insert comp x rest
  end.

Definition std_sort {A} (comp : A -> A -> bool) (l : list A) : list A :=
  foldr (sort_insert comp) [] l.

(** The suggestions in the order the three loops append them. *)
Definition generated_suggestions (an : BuildSizeAnalysis)
  : list OptimizationSuggestion :=
  (duplicate_suggestion <$> duplicates an)
  ++ concat ((fun asset =>
                (if bool_decide (category asset = Images) && isOversized asset
                 then [image_suggestion asset] else [])
                ++ (if bool_decide (category asset = Audio) && isOversized asset
                    then [audio_suggestion asset] else []))
             <$> assets an)
  ++ concat ((fun unusedPath =>
                match first_with_path unusedPath (assets an) with
                | Some asset => [unused_suggestion asset]
                | None => []
                end)
             <$> unusedAssets an).

Definition generateSuggestions (an : BuildSizeAnalysis) : BuildSizeAnalysis :=
  let an := foldl (fun an s => push_suggestion s an) an
                  (generated_suggestions an) in
  set_suggestions
    (std_sort (fun a b => Z.ltb (estimatedSavings b) (estimatedSavings a))
              (suggestions an))
    an.

(** *** [calculateSummaries] *)

(** The iteration order of the category map is unspecified; the
    categories are visited in declaration order here. *)
Definition all_categories : list AssetCategory :=
  [Images; Audio; Scripts; Fonts; Video; Data; Other].

Definition summarize (an : BuildSizeAnalysis) (c : AssetCategory)
  : CategorySummary :=
  let members := filter (fun asset => category asset = c) (assets an) in
  let fileCount := Z.of_nat (length members) in
  let totalOriginal :=
    foldl (fun total asset => u64 (total + originalSize asset)) 0 members in
  let totalCompressed :=
    foldl (fun total asset => u64 (total + compressedSize asset)) 0 members in
  let percentageOfTotal :=
    if Z.ltb 0 (totalOriginalSize an)
    then f32_mul (f32_div (f32_of_int totalOriginal)
                          (f32_of_int (totalOriginalSize an)))
                 (f32_lit 100 1)
    else 0 in
  let averageCompressionRatio :=
    if Z.ltb 0 totalOriginal
    then f32_div (f32_of_int totalCompressed) (f32_of_int totalOriginal)
    else 0 in
  mkSummary c fileCount totalOriginal totalCompressed percentageOfTotal
            averageCompressionRatio.

Definition calculateSummaries (an : BuildSizeAnalysis) : BuildSizeAnalysis :=
  let present :=
    filter (fun c => Exists (fun asset => category asset = c) (assets an))
           all_categories in
  let an :=
    set_categorySummaries
      (categorySummaries an ++ (summarize an <$> present)) an in
  let an :=
    set_categorySummaries
      (std_sort (fun a b => Z.ltb (summary_totalOriginalSize b)
                                  (summary_totalOriginalSize a))
                (categorySummaries an)) an in
  if Z.ltb 0 (totalOriginalSize an)
  then set_overallCompressionRatio
         (f32_div (f32_of_int (totalCompressedSize an))
                  (f32_of_int (totalOriginalSize an))) an
  else an.

(** *** [analyze] *)

Definition analyze (fs : FS) (a : t) : Result BuildSizeAnalysis * t :=
  let a := notify AnalysisStarted a in
  let a := set_m_analysis BuildSizeAnalysis_default a in
  let a := set_m_hashToFiles ∅ a in
  let a := set_m_referencedAssets [] a in
  let a := reportProgress "Scanning assets..." (f32_lit 0 1) a in
  match scanAssets fs a with
  | (Throw w, a) => (Error ("Analysis failed: " +:+ w), a)
  | (Val _, a) =>
      let a := reportProgress "Analyzing assets..." (f32_lit 2 10) a in
      let a := analyze_assets fs a in
      let a :=
        if cfg_detectDuplicates (m_config a)
        then detectDuplicates
               (reportProgress "Detecting duplicates..." (f32_lit 5 10) a)
        else a in
      let a :=
        if cfg_detectUnused (m_config a)
        then detectUnused
               (reportProgress "Detecting unused assets..." (f32_lit 6 10) a)
        else a in
      let a :=
        if cfg_generateSuggestions (m_config a)
        then on_analysis generateSuggestions
               (reportProgress "Generating suggestions..." (f32_lit 8 10) a)
        else a in
      let a := reportProgress "Calculating summaries..." (f32_lit 9 10) a in
      let a := on_analysis calculateSummaries a in
      let a := reportProgress "Analysis complete" (f32_lit 1 1) a in
      let a := notify (AnalysisCompleted (m_analysis a)) a in
      (Ok (m_analysis a), a)
  end.

(** *** The optimisation entry points *)

Definition applyOptimization (suggestion : OptimizationSuggestion)
  : Result unit :=
  Error "Optimization application not yet implemented".

Definition applyAllAutoOptimizations (fs : FS) (a : t) : Result unit * t :=
  let applied :=
    foldl (fun applied suggestion =>
             if canAutoFix suggestion
             then if isOk (applyOptimization suggestion)
                  then applied + 1 else applied
             else applied)
          0 (suggestions (m_analysis a)) in
  if Z.ltb 0 applied
  then let '(r, a) := analyze fs a in
       (if isOk r then Ok tt else Error "Re-analysis failed", a)
  else (Ok tt, a).

Definition removeDuplicates : Result unit :=
  Error "Duplicate removal not yet implemented".

Definition removeUnusedAssets : Result unit :=
  Error "Unused asset removal not yet implemented".

(** An analyzer and a project tree used to run the model. *)
Definition config_default : BuildSizeAnalysisConfig :=
  mkAnalysisConfig true true true true true true true true true []
                   (2 * 1024 * 1024) (10 * 1024 * 1024).

Definition analyzer_example : t :=
  mkAnalyzer "/p" config_default BuildSizeAnalysis_default ∅ [] [7%nat] [].


(** Two files of 2061 bytes that differ only at byte 1030. *)
Definition fs_collision_example : FS :=
  {[ "/p/assets/a.bin" := File (replicate 1030 0 ++ [1] ++ replicate 1030 0);
     "/p/assets/b.bin" := File (replicate 1030 0 ++ [2] ++ replicate 1030 0) ]}.

End Analyzer.

(** ** Invariants of a pipeline run *)

(** What no stage changes: the configuration, the unset [wasSuccessful]
    flag and the results already handed to the completion callback. *)
Definition run_inv (config : BuildConfig) (R : list BuildResult) (s : BS)
  : Prop :=
  m_config s = config
  /\ wasSuccessful (m_progress s) = false
  /\ resultReports s = R.

(** [d'] has every path that [d] has. *)
Definition keeps (d d' : FS) : Prop :=
  forall p, fs_exists d p = true -> fs_exists d' p = true.

(** The output path exists: true from the creation of the staging
    directory inside it until the promotion removes it. *)
Definition output_inv (config : BuildConfig) (s : BS) : Prop :=
  m_config s = config /\ fs_exists (disk s) (outputPath config) = true.

(** The step progress the Pack stage reports before language pack
    [langPacksBuilt + 1] of [count]. *)
Definition pack_progress (langPacksBuilt count : Z) : Z :=
  f32_add (f32_lit 3 10)
    (f32_div (f32_mul (f32_lit 6 10) (f32_of_int langPacksBuilt))
             (f32_of_int count)).

(** The bound on the reported values after stage [i] returned [r]: the end
    of the stage's share when it succeeded. *)
Definition stage_bound (i : nat) (r : Result unit) : Z :=
  match r with
  | Ok _ => prog i f32_one_units
  | Error _ => prog_top
  end.

(** The bound carried between the stages by the locals [st]. *)
Definition locals_bound (st : bool * string) (b : Z) : Z :=
  if st.1 then b else prog_top.

(** The data section [buildPack] copies from [files], one file after the
    other. *)
Definition file_contents (fs : FS) (files : list string) : list Z :=
  concat ((fun f => default [] (read_file fs f)) <$> files).

(** * Proofs *)

(** ** Bytes and strings *)

Lemma length_le_bytes n v : length (le_bytes n v) = n.
Proof. revert v; induction n as [|n IH]; intros v; simpl; [done | by rewrite IH]. Qed.

Lemma le_decode_le_bytes n v :
  le_decode (le_bytes n v) = v mod 2 ^ (8 * Z.of_nat n).
Proof.
  revert v; induction n as [|n IH]; intros v.
  - simpl. by rewrite Z.mod_1_r.
  - cbn [le_bytes le_decode]. rewrite IH.
    replace (8 * Z.of_nat (S n)) with (8 + 8 * Z.of_nat n) by lia.
    rewrite Z.pow_add_r by lia. change (2 ^ 8) with 256.
    rewrite Z.rem_mul_r by lia. done.
Qed.

Lemma le_decode_u32 v : le_decode (le_bytes 4 v) = u32 v.
Proof. apply (le_decode_le_bytes 4). Qed.

Lemma le_decode_u64 v : le_decode (le_bytes 8 v) = u64 v.
Proof. apply (le_decode_le_bytes 8). Qed.

Lemma u32_small v : 0 <= v < 2 ^ 32 -> u32 v = v.
Proof. intros. unfold u32. by apply Z.mod_small. Qed.

Lemma u64_small v : 0 <= v < 2 ^ 64 -> u64 v = v.
Proof. intros. unfold u64. by apply Z.mod_small. Qed.

Lemma u32_range v : 0 <= u32 v < 2 ^ 32.
Proof. unfold u32. apply Z.mod_pos_bound. lia. Qed.

Lemma u64_range v : 0 <= u64 v < 2 ^ 64.
Proof. unfold u64. apply Z.mod_pos_bound. lia. Qed.

Lemma byte_char_byte c : byte_char (char_byte c) = c.
Proof. unfold byte_char, char_byte. by rewrite Nat2Z.id, ascii_nat_embedding. Qed.

Lemma bytes_string_bytes s : bytes_string (string_bytes s) = s.
Proof.
  unfold bytes_string, string_bytes. rewrite <- list_fmap_compose.
  rewrite <- (string_of_list_ascii_of_string s) at 2. f_equal.
  induction (list_ascii_of_string s) as [|c l IH]; [done |].
  rewrite fmap_cons. f_equal; [apply byte_char_byte | exact IH].
Qed.

Lemma length_string_bytes s : length (string_bytes s) = String.length s.
Proof.
  unfold string_bytes. rewrite length_fmap.
  induction s as [|c s IH]; simpl; [done | by rewrite IH].
Qed.

Lemma char_byte_zero c : char_byte c = 0 -> c = zero.
Proof.
  unfold char_byte. intros H.
  assert (nat_of_ascii c = O) as Hn by lia.
  rewrite <- (ascii_nat_embedding c), Hn. done.
Qed.

Lemma read_cstr_string s rest :
  nul_free s = true -> read_cstr (string_bytes s ++ 0 :: rest) = string_bytes s.
Proof.
  unfold nul_free, string_bytes.
  induction (list_ascii_of_string s) as [|c l IH]; [intros _; simpl; done |].
  rewrite fmap_cons. cbn [forallb app read_cstr].
  intros [Hc Hl]%andb_prop.
  destruct (Z.eqb_spec (char_byte c) 0) as [Hz|].
  - apply char_byte_zero in Hz. subst c. done.
  - f_equal. by apply IH.
Qed.

Lemma read_cstr_cstr s rest :
  nul_free s = true -> read_cstr (cstr_bytes s ++ rest) = string_bytes s.
Proof.
  intros. unfold cstr_bytes. rewrite <- app_assoc. by apply read_cstr_string.
Qed.

(** ** Streams *)

Lemma stream_write_app b bs :
  stream_write bs (app_stream b) = app_stream (b ++ bs).
Proof.
  unfold stream_write, app_stream; simpl.
  rewrite take_ge, drop_ge, app_nil_r, length_app by lia. done.
Qed.

Lemma write_u16_app b v : write_u16 v (app_stream b) = app_stream (b ++ le_bytes 2 v).
Proof. apply stream_write_app. Qed.

Lemma write_u32_app b v : write_u32 v (app_stream b) = app_stream (b ++ le_bytes 4 v).
Proof. apply stream_write_app. Qed.

Lemma write_u64_app b v : write_u64 v (app_stream b) = app_stream (b ++ le_bytes 8 v).
Proof. apply stream_write_app. Qed.

Lemma tellp_app b : tellp (app_stream b) = Z.of_nat (length b).
Proof. done. Qed.

Lemma write_table_entry_app b so d sz :
  write_table_entry so d sz (app_stream b) = app_stream (b ++ entry_bytes (so, d, sz)).
Proof.
  unfold write_table_entry, entry_bytes.
  rewrite !write_u32_app, !write_u64_app, !write_u32_app, stream_write_app.
  by rewrite <- !app_assoc.
Qed.

Lemma length_entry_bytes row : length (entry_bytes row) = 48%nat.
Proof. by destruct row as [[so d] sz]. Qed.

Lemma write_resource_table_app fs files sos d b :
  Forall (fun f => is_regular_file fs f = true) files ->
  length sos = length files ->
  exists d',
    write_resource_table fs files sos d (app_stream b)
    = inr (d', app_stream (b ++ concat (entry_bytes <$> table_rows sos (file_sizes fs files) d))).
Proof.
  intros Hreg. revert sos d b.
  induction Hreg as [|f files Hf Hreg IH]; intros sos d b Hlen.
  - destruct sos; [| done]. exists d. simpl. by rewrite app_nil_r.
  - destruct sos as [|so sos]; [done |]. simpl in Hlen.
    cbn [write_resource_table file_sizes fmap list_fmap table_rows].
    unfold is_regular_file in Hf. unfold file_size.
    destruct (fs !! f) as [[c|]|] eqn:Hfs; try done. cbn [default].
    rewrite write_table_entry_app.
    destruct (IH sos (u64 (d + u64 (Z.of_nat (length c))))
                (b ++ entry_bytes (so, d, u64 (Z.of_nat (length c))))) as [d' Hd'];
      [lia |].
    exists d'. unfold file_size in Hd'. rewrite Hd'.
    cbn [concat]. by rewrite <- app_assoc.
Qed.

Lemma foldl_write_u32_app offs b :
  foldl (fun o offset => write_u32 offset o) (app_stream b) offs
  = app_stream (b ++ concat (le_bytes 4 <$> offs)).
Proof.
  revert b; induction offs as [|x offs IH]; intros b; simpl.
  - by rewrite app_nil_r.
  - rewrite write_u32_app, IH. by rewrite <- app_assoc.
Qed.

Lemma foldl_write_cstr_app ids b :
  foldl (fun o id => stream_write (cstr_bytes id) o) (app_stream b) ids
  = app_stream (b ++ concat (cstr_bytes <$> ids)).
Proof.
  revert b; induction ids as [|x ids IH]; intros b; simpl.
  - by rewrite app_nil_r.
  - rewrite stream_write_app, IH. by rewrite <- app_assoc.
Qed.

Lemma extends_app b : extends b (app_stream b).
Proof. split; [exists []; simpl; by rewrite app_nil_r | by right]. Qed.

Lemma extends_write b0 bs o : extends b0 o -> extends b0 (stream_write bs o).
Proof.
  intros [[rest Hb] Hp]. unfold stream_write.
  destruct (failbit o) eqn:Hf; [split; eauto |].
  destruct Hp as [? | Hp]; [congruence |].
  split; simpl.
  - exists (rest ++ bs).
    rewrite Hp, take_ge, drop_ge, app_nil_r, Hb by lia. by rewrite app_assoc.
  - right. rewrite Hp, take_ge, drop_ge, app_nil_r, length_app by lia. done.
Qed.

Lemma extends_insert_rdbuf b0 c o :
  extends b0 o -> extends b0 (stream_insert_rdbuf c o).
Proof.
  intros H. unfold stream_insert_rdbuf.
  destruct (failbit o) eqn:Hf; [done |].
  destruct c as [|x c]; [| by apply extends_write].
  destruct H as [Hb _]. split; [done | by left].
Qed.

Lemma extends_write_resource_data b0 fs files o :
  extends b0 o -> extends b0 (write_resource_data fs files o).
Proof.
  revert o; induction files as [|f files IH]; intros o H; simpl; [done |].
  apply IH. destruct (read_file fs f); [by apply extends_insert_rdbuf | done].
Qed.

(** Overwriting in the middle of the buffer. *)
Lemma stream_write_over a old c bs :
  length old = length bs ->
  stream_write bs (mkStream (a ++ old ++ c) (length a) false)
  = mkStream ((a ++ bs) ++ c) (length (a ++ bs)) false.
Proof.
  intros Hlen. unfold stream_write; simpl.
  rewrite take_app_length.
  replace (drop (length a + length bs) (a ++ old ++ c)) with c.
  - by rewrite length_app, <- app_assoc.
  - rewrite <- Hlen, <- length_app, (app_assoc a old c).
    by rewrite drop_app_length.
Qed.

Lemma build_string_table_fst files c :
  (build_string_table files c).1 = filename <$> files.
Proof.
  revert c; induction files as [|f files IH]; intros c; [done |].
  cbn [build_string_table]. specialize (IH (u32 (c + u32 (u32 (Z.of_nat (String.length (filename f))) + 1)))).
  destruct (build_string_table files _) as [ids offs]. simpl in *. by rewrite IH.
Qed.

Lemma build_string_table_length files c :
  length (build_string_table files c).2 = length files.
Proof.
  revert c; induction files as [|f files IH]; intros c; [done |].
  cbn [build_string_table]. specialize (IH (u32 (c + u32 (u32 (Z.of_nat (String.length (filename f))) + 1)))).
  destruct (build_string_table files _) as [ids offs]. simpl in *. by rewrite IH.
Qed.

Lemma patch_header hdr tail o v1 v2 v3 v4 :
  length hdr = 16%nat ->
  extends (hdr ++ zeros 32 ++ tail) o ->
  exists X rest, length X = 32%nat /\
    buf (write_u64 v4 (write_u64 v3 (write_u64 v2 (write_u64 v1 (seekp 16 o)))))
    = hdr ++ X ++ tail ++ rest.
Proof.
  intros Hh [[rest Hb] Hp].
  destruct (failbit o) eqn:Hf.
  - exists (zeros 32), rest. split; [done |].
    unfold write_u64, stream_write, seekp. rewrite !Hf. rewrite Hb.
    by rewrite <- !app_assoc.
  - destruct Hp as [? | Hp]; [congruence |].
    exists (le_bytes 8 v1 ++ le_bytes 8 v2 ++ le_bytes 8 v3 ++ le_bytes 8 v4), rest.
    split; [by rewrite !length_app, !length_le_bytes |].
    unfold seekp. rewrite Hf, Hb.
    change (zeros 32) with (zeros 8 ++ zeros 8 ++ zeros 8 ++ zeros 8).
    replace (Z.to_nat 16) with (length hdr) by (rewrite Hh; reflexivity).
    rewrite <- !app_assoc. unfold write_u64.
    rewrite stream_write_over by (by rewrite length_le_bytes).
    rewrite stream_write_over by (by rewrite length_le_bytes).
    rewrite stream_write_over by (by rewrite length_le_bytes).
    rewrite stream_write_over by (by rewrite length_le_bytes).
    simpl buf. by rewrite <- !app_assoc.
Qed.

Lemma file_sizes_write fs out c files :
  out ∉ files -> file_sizes (write_file fs out c) files = file_sizes fs files.
Proof.
  intros Hout. unfold file_sizes. apply list_fmap_ext.
  intros i f Hf. unfold file_size, write_file.
  rewrite lookup_insert_ne; [done |].
  intros ->. apply Hout. by eapply list_elem_of_lookup_2.
Qed.

Lemma regular_write fs out c files :
  out ∉ files ->
  Forall (fun f => is_regular_file fs f = true) files ->
  Forall (fun f => is_regular_file (write_file fs out c) f = true) files.
Proof.
  intros Hout H. rewrite Forall_forall in H. apply Forall_forall. intros f Hf.
  unfold is_regular_file, write_file.
  rewrite lookup_insert_ne; [by apply H |]. intros ->. done.
Qed.

Lemma buildPack_layout now fs out files enc comp :
  can_open_write fs out = true ->
  Forall (fun f => is_regular_file fs f = true) files ->
  out ∉ files ->
  exists X rest, length X = 32%nat /\
    buildPack now fs out files enc comp
    = (Ok tt, write_file (write_file fs out []) out
         (header_prefix (length files) enc comp ++ X ++ zeros 16
          ++ concat (entry_bytes <$> table_rows (build_string_table files 0).2 (file_sizes fs files) 0)
          ++ string_table_bytes (filename <$> files) (build_string_table files 0).2 ++ rest)).
Proof.
  intros Hopen Hreg Hout.
  unfold buildPack. rewrite Hopen. cbn [negb].
  change stream_open with (app_stream []).
  rewrite stream_write_app, !write_u16_app, !write_u32_app, !write_u64_app, stream_write_app.
  pose proof (build_string_table_fst files 0) as Hids.
  pose proof (build_string_table_length files 0) as Hlen.
  destruct (build_string_table files 0) as [ids offs]. simpl in Hids, Hlen. subst ids.
  match goal with
  | |- context [write_resource_table ?fs' files offs 0 (app_stream ?b)] =>
      destruct (write_resource_table_app fs' files offs 0 b) as [d' Hd'];
        [by apply regular_write | done |]; rewrite Hd'
  end.
  rewrite !tellp_app, write_u32_app, foldl_write_u32_app, foldl_write_cstr_app.
  rewrite file_sizes_write by done.
  match goal with
  | |- context [seekp _ ?o] =>
      match o with
      | context [write_resource_data _ _ (app_stream ?b)] =>
          assert (extends b o) as Hext
            by (unfold write_u32, write_u64; do 5 apply extends_write;
                apply extends_write_resource_data, extends_app);
          set (ofin := o) in *
      end
  end.
  match goal with
  | |- context [seekp ?p ofin] =>
      replace p with 16 by reflexivity
  end.
  match type of Hext with
  | extends ?b _ =>
      replace b with
        (header_prefix (length files) enc comp ++ zeros 32
         ++ (zeros 16
             ++ concat (entry_bytes <$> table_rows offs (file_sizes fs files) 0)
             ++ string_table_bytes (filename <$> files) offs)) in Hext
  end.
  2:{ unfold header_prefix, string_table_bytes. rewrite length_fmap.
      change (zeros 32) with (le_bytes 8 0 ++ le_bytes 8 0 ++ le_bytes 8 0 ++ le_bytes 8 0).
      by rewrite <- !app_assoc. }
  match goal with
  | |- context [write_u64 ?v4 (write_u64 ?v3 (write_u64 ?v2 (write_u64 ?v1 (seekp 16 ofin))))] =>
      destruct (patch_header (header_prefix (length files) enc comp) _ ofin v1 v2 v3 v4 eq_refl Hext) as (X & rest & HX & Hbuf);
      rewrite Hbuf
  end.
  exists X, rest. split; [done |]. by rewrite <- !app_assoc.
Qed.

(** ** Layout of the table and of the string table *)

Lemma field_u32 a v c k :
  length a = k -> le_decode (take 4 (drop k (a ++ le_bytes 4 v ++ c))) = u32 v.
Proof.
  intros <-. rewrite drop_app_length.
  rewrite (take_app_length' (le_bytes 4 v) c 4) by (by rewrite length_le_bytes).
  apply le_decode_u32.
Qed.

Lemma field_u64 a v c k :
  length a = k -> le_decode (take 8 (drop k (a ++ le_bytes 8 v ++ c))) = u64 v.
Proof.
  intros <-. rewrite drop_app_length.
  rewrite (take_app_length' (le_bytes 8 v) c 8) by (by rewrite length_le_bytes).
  apply le_decode_u64.
Qed.

Lemma drop_rows rows i row R :
  rows !! i = Some row ->
  drop (48 * i) (concat (entry_bytes <$> rows) ++ R)
  = entry_bytes row ++ concat (entry_bytes <$> drop (S i) rows) ++ R.
Proof.
  revert i; induction rows as [|r rows IH]; intros i Hi; [done |].
  destruct i as [|i]; simpl in Hi.
  - injection Hi as ->. cbn [fmap list_fmap concat]. rewrite Nat.mul_0_r.
    simpl drop. by rewrite <- app_assoc.
  - rewrite fmap_cons. cbn [concat]. rewrite <- app_assoc.
    replace (48 * S i)%nat with (48 + 48 * i)%nat by lia.
    rewrite drop_app_add' by (by rewrite length_entry_bytes).
    rewrite IH by done. done.
Qed.

Lemma length_rows_bytes rows :
  length (concat (entry_bytes <$> rows)) = (48 * length rows)%nat.
Proof.
  induction rows as [|r rows IH]; [done |].
  rewrite fmap_cons. cbn [concat length]. rewrite length_app, length_entry_bytes, IH. lia.
Qed.

Lemma entry_at_rows H R rows i so d sz :
  length H = 64%nat ->
  rows !! i = Some (so, d, sz) ->
  entry_at (H ++ concat (entry_bytes <$> rows) ++ R) i
  = mkEntry (u32 so) 8 (u64 d) (u64 sz) (u64 sz) 0 0.
Proof.
  intros HH Hi. unfold entry_at, get_u32, get_u64, slice.
  rewrite <- !drop_drop. rewrite !(drop_app_length' H _ 64) by done.
  rewrite !(drop_rows _ _ _ _ Hi).
  set (R' := concat _ ++ R). unfold entry_bytes. rewrite <- !app_assoc.
  set (f1 := le_bytes 4 so). set (f2 := le_bytes 4 8). set (f3 := le_bytes 8 d).
  set (f4 := le_bytes 8 sz). set (f6 := le_bytes 4 0).
  f_equal.
  - exact (field_u32 [] so _ 0%nat eq_refl).
  - rewrite (app_assoc f1 f2). exact (field_u64 (f1 ++ f2) d _ 8%nat eq_refl).
  - rewrite (app_assoc f1 f2), (app_assoc _ f3). exact (field_u64 ((f1 ++ f2) ++ f3) sz _ 16%nat eq_refl).
  - rewrite (app_assoc f1 f2), (app_assoc _ f3), (app_assoc _ f4). exact (field_u64 (((f1 ++ f2) ++ f3) ++ f4) sz _ 24%nat eq_refl).
Qed.

Lemma Zsum_app l k : Zsum (l ++ k) = Zsum l + Zsum k.
Proof. induction l as [|x l IH]; simpl; [done | rewrite IH; lia]. Qed.

Lemma Zsum_nonneg l : Forall (fun x => 0 <= x) l -> 0 <= Zsum l.
Proof. induction 1; simpl; lia. Qed.

Lemma Zsum_take_le l i : Forall (fun x => 0 <= x) l -> Zsum (take i l) <= Zsum l.
Proof.
  intros H. rewrite <- (take_drop i l) at 2. rewrite Zsum_app.
  pose proof (Zsum_nonneg (drop i l) (Forall_drop _ _ _ H)). lia.
Qed.

Lemma Zsum_take_S l i x :
  l !! i = Some x -> Zsum (take (S i) l) = Zsum (take i l) + x.
Proof.
  intros H. rewrite (take_S_r _ _ _ H), Zsum_app. simpl. lia.
Qed.

Lemma file_sizes_nonneg fs files : Forall (fun x => 0 <= x) (file_sizes fs files).
Proof.
  unfold file_sizes. apply Forall_fmap, Forall_forall. intros f _. simpl.
  unfold file_size. destruct (fs !! f) as [[c|]|]; simpl; lia.
Qed.

Lemma name_sizes_nonneg files : Forall (fun x => 0 <= x) (name_sizes files).
Proof.
  unfold name_sizes. apply Forall_fmap, Forall_forall. intros f _. simpl. lia.
Qed.

Lemma length_table_rows sos sizes d :
  length sos = length sizes -> length (table_rows sos sizes d) = length sizes.
Proof.
  revert sizes d; induction sos as [|so sos IH]; intros [|sz sizes] d H; try done.
  simpl in *. rewrite IH; lia.
Qed.

Lemma table_rows_lookup sos sizes d i so sz :
  Forall (fun x => 0 <= x) sizes -> 0 <= d -> d + Zsum sizes < 2 ^ 64 ->
  sos !! i = Some so -> sizes !! i = Some sz ->
  table_rows sos sizes d !! i = Some (so, d + Zsum (take i sizes), sz).
Proof.
  revert sizes d i; induction sos as [|so' sos IH]; intros [|sz' sizes] d i Hnn Hd Hsum Hso Hsz;
    try done.
  apply Forall_cons in Hnn as [Hsz' Hnn]. simpl in Hsum.
  pose proof (Zsum_nonneg _ Hnn).
  assert (u64 sz' = sz') as E1 by (apply u64_small; lia).
  destruct i as [|i]; simpl in *.
  - injection Hso as ->. injection Hsz as ->. rewrite E1. do 3 f_equal. lia.
  - rewrite E1. rewrite u64_small by lia.
    rewrite (IH sizes (d + sz') i) by (done || lia). do 3 f_equal. lia.
Qed.

Lemma string_offsets_lookup files c i f :
  0 <= c -> c + Zsum (name_sizes files) < 2 ^ 32 ->
  files !! i = Some f ->
  (build_string_table files c).2 !! i = Some (c + Zsum (take i (name_sizes files))).
Proof.
  revert c i; induction files as [|g files IH]; intros c i Hc Hsum Hi; [done |].
  cbn [build_string_table].
  set (n := Z.of_nat (String.length (filename g))).
  pose proof (Zsum_nonneg _ (name_sizes_nonneg files)) as Hnn.
  cbn [name_sizes fmap list_fmap Zsum foldr] in Hsum. fold (name_sizes files) in Hsum.
  fold (Zsum (name_sizes files)) in Hsum. fold n in Hsum.
  assert (u32 (c + u32 (u32 n + 1)) = c + (n + 1)) as E.
  { rewrite (u32_small n) by lia. rewrite (u32_small (n + 1)) by lia.
    apply u32_small. lia. }
  rewrite E. specialize (IH (c + (n + 1))).
  destruct (build_string_table files (c + (n + 1))) as [ids offs].
  destruct i as [|i]; simpl in *.
  - f_equal. lia.
  - rewrite (IH i) by (done || lia). f_equal. fold n. lia.
Qed.

Lemma drop_names ids i id R :
  ids !! i = Some id ->
  drop (Z.to_nat (Zsum (take i (name_len <$> ids)))) (concat (cstr_bytes <$> ids) ++ R)
  = cstr_bytes id ++ concat (cstr_bytes <$> drop (S i) ids) ++ R.
Proof.
  revert i; induction ids as [|x ids IH]; intros i Hi; [done |].
  destruct i as [|i]; simpl in Hi.
  - injection Hi as ->. simpl. by rewrite <- app_assoc.
  - rewrite !fmap_cons. cbn [take Zsum foldr concat]. fold (Zsum (take i (name_len <$> ids))).
    rewrite <- app_assoc.
    assert (0 <= Zsum (take i (name_len <$> ids))) as Hnn.
    { apply Zsum_nonneg, Forall_take, Forall_fmap, Forall_forall.
      intros y _. unfold name_len. simpl. lia. }
    replace (Z.to_nat (name_len x + Zsum (take i (name_len <$> ids))))
      with (length (cstr_bytes x) + Z.to_nat (Zsum (take i (name_len <$> ids))))%nat.
    + rewrite drop_app_add' by done. by apply IH.
    + set (S0 := Zsum _) in *. unfold cstr_bytes, name_len.
      rewrite length_app, length_string_bytes. simpl length. lia.
Qed.

Lemma length_name_sizes files : length (name_sizes files) = length files.
Proof. unfold name_sizes. by rewrite length_fmap. Qed.

Lemma length_file_sizes fs files : length (file_sizes fs files) = length files.
Proof. unfold file_sizes. by rewrite length_fmap. Qed.

Lemma count_le_name_sizes files : Z.of_nat (length files) <= Zsum (name_sizes files).
Proof.
  induction files as [|f files IH]; simpl; [done |].
  fold (name_sizes files). fold (Zsum (name_sizes files)). lia.
Qed.

Lemma length_offsets_bytes (offs : list Z) :
  length (concat (le_bytes 4 <$> offs)) = (4 * length offs)%nat.
Proof.
  induction offs as [|x offs IH]; [done |].
  rewrite fmap_cons. cbn [concat length]. rewrite length_app, length_le_bytes, IH. lia.
Qed.

Lemma seq_fmap_ext {A} (f g : nat -> A) n :
  (forall i, (i < n)%nat -> f i = g i) -> f <$> seq 0 n = g <$> seq 0 n.
Proof.
  intros H. apply list_fmap_ext. intros k i Hk.
  apply lookup_seq in Hk as [-> Hlt]. by apply H.
Qed.

(** The pack [buildPack] writes, read back field by field. *)
Lemma buildPack_spec now fs out files enc comp :
  can_open_write fs out = true ->
  Forall (fun f => is_regular_file fs f = true) files ->
  out ∉ files ->
  Zsum (name_sizes files) < 2 ^ 32 ->
  Zsum (file_sizes fs files) < 2 ^ 64 ->
  let r := buildPack now fs out files enc comp in
  let bs := pack_bytes r out in
  r.1 = Ok tt
  /\ header_resourceCount bs = Z.of_nat (length files)
  /\ table_entries bs = expected_entry fs files <$> seq 0 (length files)
  /\ (Forall (fun f => nul_free (filename f) = true) files ->
      entry_names bs = filename <$> files).
Proof.
  intros Hopen Hreg Hout Hnames Hsizes r bs.
  destruct (buildPack_layout now fs out files enc comp Hopen Hreg Hout)
    as (X & rest & HX & Hr).
  subst bs r. rewrite Hr. unfold pack_bytes, read_file, write_file. cbn [fst snd].
  rewrite lookup_insert_eq. cbn [default].
  pose proof (count_le_name_sizes files) as Hcnt.
  set (offs := (build_string_table files 0).2).
  set (rows := table_rows offs (file_sizes fs files) 0).
  set (bs := header_prefix _ _ _ ++ _).
  assert (header_resourceCount bs = Z.of_nat (length files)) as Hcount.
  { subst bs. unfold header_resourceCount, get_u32, slice, header_prefix.
    rewrite <- !app_assoc.
    rewrite (app_assoc (string_bytes "NMRS")), (app_assoc _ (le_bytes 2 0)),
      (app_assoc _ (le_bytes 4 _)).
    rewrite (field_u32 _ _ _ 12) by done.
    rewrite (u32_small (Z.of_nat _)) by lia. apply u32_small. lia. }
  assert (table_entries bs = expected_entry fs files <$> seq 0 (length files)) as Hent.
  { unfold table_entries. rewrite Hcount, Nat2Z.id. apply seq_fmap_ext. intros i Hi.
    destruct (lookup_lt_is_Some_2 files i Hi) as [f Hf].
    destruct (lookup_lt_is_Some_2 (file_sizes fs files) i) as [sz Hsz];
      [by rewrite length_file_sizes |].
    pose proof (string_offsets_lookup files 0 i f ltac:(lia) ltac:(lia) Hf) as Hso.
    fold offs in Hso. rewrite Z.add_0_l in Hso.
    pose proof (file_sizes_nonneg fs files) as Hnn.
    pose proof (table_rows_lookup offs _ 0 i _ sz Hnn ltac:(lia) ltac:(lia) Hso Hsz) as Hrow.
    fold rows in Hrow. rewrite Z.add_0_l in Hrow.
    subst bs. rewrite (app_assoc _ X), (app_assoc _ (zeros 16)).
    assert (length ((header_prefix (length files) enc comp ++ X) ++ zeros 16) = 64%nat) as H64.
    { rewrite !length_app, HX. unfold header_prefix.
      rewrite !length_app, !length_le_bytes. reflexivity. }
    rewrite (entry_at_rows _ _ rows i _ _ _ H64 Hrow).
    unfold expected_entry. rewrite Hsz. cbn [default].
    pose proof (Zsum_take_le _ i Hnn).
    pose proof (Zsum_take_le _ i (name_sizes_nonneg files)).
    pose proof (Zsum_nonneg _ (Forall_take _ i _ Hnn)).
    pose proof (Zsum_nonneg _ (Forall_take _ i _ (name_sizes_nonneg files))).
    assert (0 <= sz <= Zsum (file_sizes fs files)).
    { pose proof (Zsum_take_le _ (S i) Hnn) as Hle.
      rewrite Forall_lookup in Hnn. split; [by eapply Hnn |].
      rewrite (Zsum_take_S _ _ _ Hsz) in Hle. lia. }
    rewrite u32_small, !u64_small by lia. done. }
  repeat split; try done.
  intros Hnul. unfold entry_names, id. rewrite Hent.
  rewrite <- list_fmap_compose.
  transitivity ((fun i => filename (default "" (files !! i))) <$> seq 0 (length files)).
  2:{ apply list_eq. intros i. rewrite !list_lookup_fmap.
      destruct (decide (i < length files)%nat) as [Hi|Hi].
      - rewrite lookup_seq_lt by done. destruct (lookup_lt_is_Some_2 files i Hi) as [f Hf].
        rewrite Hf. cbn. by rewrite Hf.
      - rewrite lookup_seq_ge by lia. rewrite lookup_ge_None_2 by lia. done. }
  apply seq_fmap_ext. intros i Hi. destruct (lookup_lt_is_Some_2 files i Hi) as [f Hf].
  rewrite Hf. cbn [default compose stringOffset expected_entry].
  unfold name_at, string_blob_start. rewrite Hcount, Nat2Z.id.
  subst bs. unfold string_table_bytes.
  set (P := header_prefix (length files) enc comp ++ X ++ zeros 16
            ++ concat (entry_bytes <$> rows)
            ++ le_bytes 4 (u32 (Z.of_nat (length (filename <$> files))))
            ++ concat (le_bytes 4 <$> offs)).
  match goal with
  | |- context [drop _ ?b] =>
      replace b with (P ++ concat (cstr_bytes <$> (filename <$> files)) ++ rest)
        by (subst P; by rewrite <- !app_assoc)
  end.
  assert (length P = 64 + 48 * length files + 4 + 4 * length files)%nat as HP.
  { subst P. rewrite !length_app, HX, length_rows_bytes, length_le_bytes,
      length_offsets_bytes.
    subst rows offs. rewrite length_table_rows, length_file_sizes,
      build_string_table_length
      by (by rewrite build_string_table_length, length_file_sizes).
    unfold header_prefix. rewrite !length_app, !length_le_bytes. simpl. lia. }
  rewrite <- HP, <- drop_drop, drop_app_length.
  replace (name_sizes files) with (name_len <$> (filename <$> files))
    by (unfold name_sizes; by rewrite <- list_fmap_compose).
  rewrite (drop_names _ i (filename f)) by (by rewrite list_lookup_fmap, Hf).
  rewrite read_cstr_cstr, bytes_string_bytes; [done |].
  rewrite Forall_lookup in Hnul. by eapply Hnul.
Qed.

Lemma has_slash_filename s : has_slash (filename s) = false.
Proof.
  induction s as [|c r IH]; [done |]. cbn [filename].
  destruct (has_slash r) eqn:Hr; [done |].
  destruct (is_slash c) eqn:Hc; [done |].
  cbn [has_slash]. by rewrite Hc, Hr.
Qed.

Lemma expected_uncompressed fs files :
  uncompressedSize <$> (expected_entry fs files <$> seq 0 (length files))
  = file_sizes fs files.
Proof.
  apply list_eq. intros i. rewrite !list_lookup_fmap.
  destruct (decide (i < length files)%nat) as [Hi|Hi].
  - rewrite lookup_seq_lt by done. cbn.
    destruct (lookup_lt_is_Some_2 (file_sizes fs files) i) as [sz Hsz];
      [by rewrite length_file_sizes |].
    by rewrite Hsz.
  - rewrite lookup_seq_ge by lia. cbn.
    by rewrite lookup_ge_None_2 by (rewrite length_file_sizes; lia).
Qed.

(** ** The index of the pack written by [buildPack] (C8, C10) *)

(** X13 (the index of a pack).  For N existing input files (none of them
    the output file itself), [buildPack] returns [ok] and the file it leaves
    records, where the writer puts them (the count at byte 12, the 48-byte
    records from byte 64, the names after the records), N as
    [resourceCount], the file names of the inputs in input order, and
    [uncompressedSize] fields that add up to the sum of the input file
    sizes.  The counts and sizes are assumed to fit the fields that hold
    them (names below 4 GiB in total, data below 2^64 bytes).  This is
    about the index alone: it holds whether or not the data section, the
    footer and the offsets in the header were written. *)
Theorem buildPack_index now fs out files enc comp :
  can_open_write fs out = true ->
  Forall (fun f => is_regular_file fs f = true) files ->
  out ∉ files ->
  Forall (fun f => nul_free (filename f) = true) files ->
  Zsum (name_sizes files) < 2 ^ 32 ->
  Zsum (file_sizes fs files) < 2 ^ 64 ->
  let r := buildPack now fs out files enc comp in
  let bs := pack_bytes r out in
  r.1 = Ok tt
  /\ header_resourceCount bs = Z.of_nat (length files)
  /\ length (table_entries bs) = length files
  /\ entry_names bs = filename <$> files
  /\ Zsum (uncompressedSize <$> table_entries bs) = Zsum (file_sizes fs files).
Proof.
  intros Hopen Hreg Hout Hnul Hnames Hsizes. cbv zeta.
  destruct (buildPack_spec now fs out files enc comp Hopen Hreg Hout Hnames Hsizes)
    as (Hok & Hcount & Hent & Hnm).
  repeat split; try done.
  - by rewrite Hent, length_fmap, length_seq.
  - by apply Hnm.
  - by rewrite Hent, expected_uncompressed.
Qed.

Lemma buildPack_index_witness :
  let r := buildPack 77 fs_pack_example "/s/packs/Base.nmres" files_pack_example true false in
  let bs := pack_bytes r "/s/packs/Base.nmres" in
  r.1 = Ok tt
  /\ header_resourceCount bs = 3
  /\ length (table_entries bs) = 3%nat
  /\ entry_names bs = ["x.png"; "empty.dat"; "x.png"]
  /\ Zsum (uncompressedSize <$> table_entries bs) = 5.
Proof.
  apply (buildPack_index 77 fs_pack_example "/s/packs/Base.nmres"
           files_pack_example true false).
  - reflexivity.
  - repeat constructor.
  - apply (bool_decide_unpack _). vm_compute. exact I.
  - repeat constructor.
  - vm_compute. reflexivity.
  - vm_compute. reflexivity.
Defined.

(** C8.  In a pack written by [buildPack] the first record's [dataOffset] is
    0, every later record's [dataOffset] is its predecessor's plus the
    predecessor's file size (so the offsets never decrease), and each
    record's [stringOffset] is the total length, null terminators included,
    of the names before it; the name stored at that offset is the record's
    own.  Sizes are assumed to fit their fields. *)
Theorem buildPack_offsets_contiguous now fs out files enc comp :
  can_open_write fs out = true ->
  Forall (fun f => is_regular_file fs f = true) files ->
  out ∉ files ->
  Forall (fun f => nul_free (filename f) = true) files ->
  Zsum (name_sizes files) < 2 ^ 32 ->
  Zsum (file_sizes fs files) < 2 ^ 64 ->
  let bs := pack_bytes (buildPack now fs out files enc comp) out in
  let es := table_entries bs in
  length es = length files
  /\ (forall e, es !! 0%nat = Some e -> dataOffset e = 0)
  /\ (forall i e e' f sz,
        es !! i = Some e -> es !! S i = Some e' ->
        files !! i = Some f -> file_size fs f = Some sz ->
        dataOffset e' = dataOffset e + sz /\ dataOffset e <= dataOffset e')
  /\ (forall i e,
        es !! i = Some e ->
        stringOffset e = Zsum (take i (name_sizes files))
        /\ Some (name_at bs (stringOffset e)) = filename <$> files !! i).
Proof.
  intros Hopen Hreg Hout Hnul Hnames Hsizes.
  destruct (buildPack_spec now fs out files enc comp Hopen Hreg Hout Hnames Hsizes)
    as (_ & _ & Hent & Hnm).
  specialize (Hnm Hnul).
  cbv zeta. set (bs := pack_bytes _ _) in *. set (es := table_entries bs) in *.
  assert (forall i e, es !! i = Some e ->
            (i < length files)%nat /\ e = expected_entry fs files i) as Hlk.
  { intros i e. rewrite Hent, list_lookup_fmap.
    destruct (seq 0 (length files) !! i) as [k|] eqn:Hk; [| done].
    apply lookup_seq in Hk as [-> Hlt]. simpl. intros [= <-]. done. }
  split; [| split; [| split]].
  - by rewrite Hent, length_fmap, length_seq.
  - intros e [_ ->]%Hlk. done.
  - intros i e e' f sz [_ ->]%Hlk [_ ->]%Hlk Hf Hsz.
    cbn [dataOffset expected_entry].
    rewrite (Zsum_take_S _ i sz)
      by (unfold file_sizes; by rewrite list_lookup_fmap, Hf; simpl; rewrite Hsz).
    split; [done |].
    unfold file_size in Hsz. destruct (fs !! f) as [[c|]|]; try done.
    injection Hsz as <-. lia.
  - intros i e He. pose proof He as [Hi ->]%Hlk. split; [done |].
    assert (entry_names bs !! i
            = Some (name_at bs (stringOffset (expected_entry fs files i)))) as E.
    { unfold entry_names. fold es. by rewrite list_lookup_fmap, He. }
    rewrite <- E, Hnm. apply list_lookup_fmap.
Qed.

Lemma buildPack_offsets_contiguous_witness :
  let bs := pack_bytes (buildPack 77 fs_pack_example "/s/packs/Base.nmres"
                          files_pack_example true false) "/s/packs/Base.nmres" in
  let es := table_entries bs in
  length es = 3%nat
  /\ (forall e, es !! 0%nat = Some e -> dataOffset e = 0)
  /\ (forall i e e' f sz,
        es !! i = Some e -> es !! S i = Some e' ->
        files_pack_example !! i = Some f -> file_size fs_pack_example f = Some sz ->
        dataOffset e' = dataOffset e + sz /\ dataOffset e <= dataOffset e')
  /\ (forall i e,
        es !! i = Some e ->
        stringOffset e = Zsum (take i (name_sizes files_pack_example))
        /\ Some (name_at bs (stringOffset e)) = filename <$> files_pack_example !! i).
Proof.
  apply (buildPack_offsets_contiguous 77 fs_pack_example "/s/packs/Base.nmres"
           files_pack_example true false).
  - reflexivity.
  - repeat constructor.
  - apply (bool_decide_unpack _). vm_compute. exact I.
  - repeat constructor.
  - vm_compute. reflexivity.
  - vm_compute. reflexivity.
Defined.

(** C10.  [buildPack] records for every input only the last component of
    its path: the names read back from the pack are [filename] of the inputs,
    never a path containing a separator, and two inputs with the same last
    component get the same name entry. *)
Theorem buildPack_names_are_filenames now fs out files enc comp :
  can_open_write fs out = true ->
  Forall (fun f => is_regular_file fs f = true) files ->
  out ∉ files ->
  Forall (fun f => nul_free (filename f) = true) files ->
  Zsum (name_sizes files) < 2 ^ 32 ->
  Zsum (file_sizes fs files) < 2 ^ 64 ->
  let names := entry_names (pack_bytes (buildPack now fs out files enc comp) out) in
  names = filename <$> files
  /\ (forall i f, files !! i = Some f -> has_slash f = true -> names !! i <> Some f)
  /\ (forall i j f g,
        files !! i = Some f -> files !! j = Some g -> filename f = filename g ->
        names !! i = Some (filename f) /\ names !! j = Some (filename f)).
Proof.
  intros Hopen Hreg Hout Hnul Hnames Hsizes.
  destruct (buildPack_spec now fs out files enc comp Hopen Hreg Hout Hnames Hsizes)
    as (_ & _ & _ & Hnm).
  specialize (Hnm Hnul). cbv zeta. set (names := entry_names _) in *.
  split; [done | split].
  - intros i f Hf Hs. rewrite Hnm, list_lookup_fmap, Hf. simpl. intros [= E].
    pose proof (has_slash_filename f) as Hn. rewrite E in Hn. congruence.
  - intros i j f g Hf Hg E. rewrite Hnm, !list_lookup_fmap, Hf, Hg. simpl.
    by rewrite E.
Qed.

Lemma buildPack_names_are_filenames_witness :
  let names := entry_names (pack_bytes (buildPack 77 fs_pack_example "/s/packs/Base.nmres"
                          files_pack_example true false) "/s/packs/Base.nmres") in
  names = ["x.png"; "empty.dat"; "x.png"]
  /\ (forall i f, files_pack_example !! i = Some f -> has_slash f = true -> names !! i <> Some f)
  /\ (forall i j f g,
        files_pack_example !! i = Some f -> files_pack_example !! j = Some g ->
        filename f = filename g ->
        names !! i = Some (filename f) /\ names !! j = Some (filename f)).
Proof.
  apply (buildPack_names_are_filenames 77 fs_pack_example "/s/packs/Base.nmres"
           files_pack_example true false).
  - reflexivity.
  - repeat constructor.
  - apply (bool_decide_unpack _). vm_compute. exact I.
  - repeat constructor.
  - vm_compute. reflexivity.
  - vm_compute. reflexivity.
Defined.

(** ** C9 and C2: [validateProject] and [startBuild] *)

(** C9.  [validateProject] always returns an ok result carrying the list of
    validation errors: exactly one entry for a project directory that does
    not exist, none for a directory that has [project.json], [scripts] and
    [assets]. *)
Theorem validateProject_never_fails fs projectPath :
  exists errors,
    validateProject fs projectPath = Ok errors
    /\ (fs_exists fs projectPath = false ->
        errors = ["Project directory does not exist: " +:+ projectPath])
    /\ (fs_exists fs projectPath = true ->
        fs_exists fs (projectPath </> "project.json") = true ->
        fs_exists fs (projectPath </> "scripts") = true ->
        fs_exists fs (projectPath </> "assets") = true ->
        errors = []).
Proof.
  unfold validateProject.
  destruct (fs_exists fs projectPath) eqn:He; cbn [negb].
  - eexists. split; [reflexivity |]. split; [done |].
    intros _ Hj Hs Ha. cbn [foldl]. by rewrite Hj, Hs, Ha.
  - eexists. split; [reflexivity |]. split; [done | done].
Qed.

Lemma validateProject_never_fails_witness :
  validateProject fs_project_example "/p" = Ok []
  /\ validateProject fs_project_example "/nope"
     = Ok ["Project directory does not exist: /nope"].
Proof.
  destruct (validateProject_never_fails fs_project_example "/p")
    as (e1 & E1 & _ & H1).
  destruct (validateProject_never_fails fs_project_example "/nope")
    as (e2 & E2 & H2 & _).
  rewrite E1, E2, H1, H2 by reflexivity. done.
Defined.

Lemma prefix_refl s : String.prefix s s = true.
Proof. apply prefix_correct. induction s as [|c s IH]; simpl; [done | by rewrite IH]. Qed.

Lemma contains_suffix a b : contains (a +:+ b) b = true.
Proof.
  unfold contains, find.
  induction a as [|c a IH].
  - change ("" +:+ b) with b. destruct b as [|c b]; [done |].
    cbn [index]. by rewrite prefix_refl.
  - change (String c a +:+ b) with (String c (a +:+ b)). cbn [index].
    destruct (String.prefix b (String c (a +:+ b))); [done |].
    by destruct (index 0 b (a +:+ b)).
Qed.

(** C2, as the code has it.  When [projectPath] does not exist [startBuild]
    returns an error at once and leaves the whole state as it was: no build
    thread, no staging directory.  The message names the path when no build
    is running and both paths are non-empty. *)
Theorem startBuild_missing_project config s :
  fs_exists (disk s) (projectPath config) = false ->
  exists msg,
    startBuild config s = (Error msg, s)
    /\ (m_buildInProgress s = false ->
        projectPath config <> "" -> outputPath config <> "" ->
        msg = "Project path does not exist: " +:+ projectPath config
        /\ contains msg (projectPath config) = true).
Proof.
  intros He. unfold startBuild.
  destruct (m_buildInProgress s); [by eexists |].
  destruct (String.eqb_spec (projectPath config) ""); [by eexists |].
  destruct (String.eqb_spec (outputPath config) ""); [by eexists |].
  rewrite He. cbn [negb]. eexists. split; [reflexivity |].
  intros _ _ _. split; [done | apply contains_suffix].
Qed.

Lemma startBuild_missing_project_witness :
  exists msg,
    startBuild config_missing_project (BS_new fs_project_example 0 None)
    = (Error msg, BS_new fs_project_example 0 None)
    /\ (false = false -> "/nope" <> "" -> "/out" <> "" ->
        msg = "Project path does not exist: /nope"
        /\ contains msg "/nope" = true).
Proof.
  apply (startBuild_missing_project config_missing_project
           (BS_new fs_project_example 0 None)).
  reflexivity.
Defined.

(** C2 as stated fails: with an empty [outputPath] the error is about the
    output path and does not mention the missing project path. *)
Lemma startBuild_message_counterexample :
  let config := mkConfig "/nope" "" Linux CompressionNone false true [] ""
                         "game" "1.0" false "" false false in
  let s := BS_new fs_project_example 0 None in
  fs_exists (disk s) (projectPath config) = false
  /\ startBuild config s = (Error "Output path is required", s)
  /\ contains "Output path is required" (projectPath config) = false.
Proof. cbv zeta. split; [| split]; reflexivity. Qed.

(** ** Rules for invariants of build computations *)

Lemma preserves_ret J {A} (a : A) : preserves J (ret a).
Proof. by intros s. Qed.

Lemma preserves_throw J {A} w : preserves J (@throw A w).
Proof. by intros s. Qed.

Lemma preserves_gets J {A} (f : BS -> A) : preserves J (gets f).
Proof. by intros s. Qed.

Lemma preserves_modify J f :
  (forall s, J s -> J (f s)) -> preserves J (modify f).
Proof. intros H s Hs. by apply H. Qed.

Lemma preserves_bind J {A B} (m : M A) (k : A -> M B) :
  preserves J m -> (forall a, preserves J (k a)) -> preserves J (bind m k).
Proof.
  intros Hm Hk s Hs. unfold bind. specialize (Hm s Hs).
  destruct (m s) as [[a|w] s']; simpl in *; [by apply Hk | done].
Qed.

Lemma preserves_try_catch J {A} (m : M A) h :
  preserves J m -> (forall w, preserves J (h w)) -> preserves J (try_catch m h).
Proof.
  intros Hm Hh s Hs. unfold try_catch. specialize (Hm s Hs).
  destruct (m s) as [[a|w] s']; simpl in *; [done | by apply Hh].
Qed.

Lemma preserves_for_each J {X Acc R} (l : list X) (acc : Acc)
    (body : X -> Acc -> M (Acc + R)) :
  (forall x a, preserves J (body x a)) -> preserves J (for_each l acc body).
Proof.
  intros Hb. revert acc. induction l as [|x l IH]; intros acc; simpl.
  - apply preserves_ret.
  - apply preserves_bind; [apply Hb |]. intros [a|r]; [apply IH | apply preserves_ret].
Qed.

Lemma preserves_foldr J {X} (f : X -> M unit -> M unit) (l : list X) :
  (forall x k, preserves J k -> preserves J (f x k)) ->
  preserves J (foldr f (ret tt) l).
Proof.
  intros Hf. induction l as [|x l IH]; simpl; [apply preserves_ret |].
  by apply Hf.
Qed.

Lemma preserves_fs_try J op path f :
  disk_blind J -> preserves J (fs_try op path f).
Proof.
  intros HJ s Hs. unfold fs_try. destruct (f (disk s)); simpl; [by apply HJ | done].
Qed.

Lemma preserves_mkdirs J path : disk_blind J -> preserves J (mkdirs path).
Proof. apply preserves_fs_try. Qed.

Lemma preserves_iterate_recursive J dir : preserves J (iterate_recursive dir).
Proof. intros s Hs. unfold iterate_recursive. by destruct (list_recursive _ _). Qed.

Lemma preserves_iterate_directory J dir : preserves J (iterate_directory dir).
Proof. intros s Hs. unfold iterate_directory. by destruct (list_directory _ _). Qed.

Lemma preserves_write_text J path content :
  disk_blind J -> preserves J (write_text path content).
Proof.
  intros HJ. apply preserves_modify. intros s Hs.
  destruct (can_open_write _ _); [by apply HJ | done].
Qed.

Lemma preserves_process_copy J a b : disk_blind J -> preserves J (process_copy a b).
Proof.
  intros HJ s Hs. unfold process_copy.
  destruct (copy_file _ _ _); simpl; [by apply HJ | done].
Qed.

Lemma preserves_buildPack_m J out files e c :
  disk_blind J -> preserves J (buildPack_m out files e c).
Proof.
  intros HJ s Hs. unfold buildPack_m.
  destruct (buildPack _ _ _ _ _ _) as [r d]. simpl. by apply HJ.
Qed.

(** Decomposes a [preserves] goal along the structure of the computation;
    [leaf] proves the side conditions on the invariant. *)
Ltac pres_step leaf :=
  lazymatch goal with
  | |- preserves _ (bind _ _) => (apply preserves_bind; [| intros ?])
  | |- preserves _ (ret _) => apply preserves_ret
  | |- preserves _ (gets _) => apply preserves_gets
  | |- preserves _ (throw _) => apply preserves_throw
  | |- preserves _ (try_catch _ _) => (apply preserves_try_catch; [| intros ?])
  | |- preserves _ (for_each _ _ _) => (apply preserves_for_each; intros ? ?)
  | |- preserves _ (foldr _ (ret tt) _) => (apply preserves_foldr; intros ? ? ?)
  | |- preserves _ (mkdirs _) => (apply preserves_mkdirs; leaf tt)
  | |- preserves _ (fs_try _ _ _) => (apply preserves_fs_try; leaf tt)
  | |- preserves _ (iterate_recursive _) => apply preserves_iterate_recursive
  | |- preserves _ (iterate_directory _) => apply preserves_iterate_directory
  | |- preserves _ (write_text _ _) => (apply preserves_write_text; leaf tt)
  | |- preserves _ (process_copy _ _) => (apply preserves_process_copy; leaf tt)
  | |- preserves _ (buildPack_m _ _ _ _) => (apply preserves_buildPack_m; leaf tt)
  | |- preserves _ (modify _) => (apply preserves_modify; leaf tt)
  | |- preserves _ (match ?x with _ => _ end) => destruct x
  | |- preserves _ _ => first [assumption | progress cbv beta | leaf tt]
  end.

Ltac pres leaf := repeat (pres_step leaf).

Lemma elem_of_drop_inv {A} (l : list A) n x : x ∈ drop n l -> x ∈ l.
Proof.
  intros [i Hi]%list_elem_of_lookup_1. rewrite lookup_drop in Hi.
  by eapply list_elem_of_lookup_2.
Qed.

(** *** The cancellation invariant *)

Ltac cancel_leaf _ :=
  lazymatch goal with
  | |- preserves _ _ => fail
  | |- disk_blind _ => intros ? ? (? & ? & ? & ? & ?); repeat split; cbn; done
  | |- _ =>
      intros ? (? & ? & ? & ? & ?); repeat case_match;
      (split; [| split; [| split; [| split]]]); cbn; repeat case_match; try done
  end.

Section CancelInv.
Variables (config : BuildConfig) (handler : BuildProgress -> bool) (n0 : nat).
Local Abbreviation J := (cancel_inv config handler n0).

Lemma cancel_inv_logMessage msg e : preserves J (logMessage msg e).
Proof. unfold logMessage. pres cancel_leaf. Qed.

Lemma cancel_inv_cancelBuild : preserves J cancelBuild.
Proof.
  unfold cancelBuild. pres cancel_leaf. apply cancel_inv_logMessage.
Qed.

Lemma cancel_inv_notifyProgress : preserves J notifyProgress.
Proof.
  intros s HJ. unfold notifyProgress.
  pose proof HJ as (Hb & Hcb & Hc & Hw & Hr). rewrite Hcb.
  set (s1 := set_progressReports _ s).
  assert (forall p, p ∈ drop n0 (progressReports s1) ->
                    p ∈ drop n0 (progressReports s) \/ p = m_progress s) as Hin.
  { intros p. subst s1. cbn. rewrite drop_app. intros [H|H]%elem_of_app; [by left |].
    right. apply elem_of_drop_inv in H. by apply list_elem_of_singleton in H. }
  destruct (handler (m_progress s)) eqn:Hh.
  - unfold cancelBuild, bind, gets. replace (m_buildInProgress s1) with true by done.
    apply cancel_inv_logMessage. by repeat split.
  - cbn. repeat split; try done. intros p [Hp| ->]%Hin Hhp; [by eapply Hr | congruence].
Qed.

Lemma cancel_inv_updateProgress x task : preserves J (updateProgress x task).
Proof.
  unfold updateProgress. pres cancel_leaf. apply cancel_inv_notifyProgress.
Qed.

Lemma cancel_inv_beginStep name description :
  preserves J (beginStep name description).
Proof.
  unfold beginStep. pres cancel_leaf;
    [apply cancel_inv_logMessage | apply cancel_inv_updateProgress].
Qed.

Lemma cancel_inv_endStep ok msg : preserves J (endStep ok msg).
Proof. unfold endStep. pres cancel_leaf. apply cancel_inv_logMessage. Qed.

Lemma cancel_inv_push_error e : preserves J (push_error e).
Proof. unfold push_error. pres cancel_leaf. Qed.

Lemma cancel_inv_push_warning e : preserves J (push_warning e).
Proof. unfold push_warning. pres cancel_leaf. Qed.
End CancelInv.

Ltac cancel_prim _ :=
  lazymatch goal with
  | |- preserves _ (logMessage _ _) => apply cancel_inv_logMessage
  | |- preserves _ (updateProgress _ _) => apply cancel_inv_updateProgress
  | |- preserves _ (beginStep _ _) => apply cancel_inv_beginStep
  | |- preserves _ (endStep _ _) => apply cancel_inv_endStep
  | |- preserves _ (push_error _) => apply cancel_inv_push_error
  | |- preserves _ (push_warning _) => apply cancel_inv_push_warning
  | |- _ => cancel_leaf tt
  end.

Section CancelStages.
Variables (config : BuildConfig) (handler : BuildProgress -> bool) (n0 : nat).
Local Abbreviation J := (cancel_inv config handler n0).

Lemma cancel_inv_prepareOutputDirectory : preserves J prepareOutputDirectory.
Proof. unfold prepareOutputDirectory. pres cancel_prim. Qed.

Lemma cancel_inv_compileBytecode p : preserves J (compileBytecode p).
Proof. unfold compileBytecode. pres cancel_prim. Qed.

Lemma cancel_inv_compileScripts : preserves J compileScripts.
Proof.
  unfold compileScripts. pres cancel_prim. all: try apply cancel_inv_compileBytecode.
Qed.

Lemma cancel_inv_processAssets : preserves J processAssets.
Proof.
  unfold processAssets, processImage, processAudio, processFont, processData.
  pres cancel_prim.
Qed.

Lemma cancel_inv_packResources : preserves J packResources.
Proof. unfold packResources. pres cancel_prim. Qed.

Lemma cancel_inv_generateExecutable : preserves J generateExecutable.
Proof.
  unfold generateExecutable, buildWindowsExecutable, buildLinuxExecutable,
    buildMacOSBundle.
  pres cancel_prim.
Qed.

Lemma cancel_inv_signAndFinalize : preserves J signAndFinalize.
Proof. unfold signAndFinalize. pres cancel_prim. Qed.

Lemma cancel_inv_guarded_stage stage st :
  preserves J stage -> preserves J (guarded_stage stage st).
Proof. intros H. unfold guarded_stage. pres cancel_prim. all: exact H. Qed.

Lemma cancel_inv_promote_staging d : preserves J (promote_staging d).
Proof. unfold promote_staging. pres cancel_prim. Qed.

Lemma cancel_inv_pipeline_stages : preserves J pipeline_stages.
Proof.
  unfold pipeline_stages. pres cancel_prim.
  all: first [ apply cancel_inv_prepareOutputDirectory
             | apply cancel_inv_guarded_stage
             | apply cancel_inv_promote_staging ].
  all: first [ apply cancel_inv_compileScripts | apply cancel_inv_processAssets
             | apply cancel_inv_packResources | apply cancel_inv_generateExecutable
             | apply cancel_inv_signAndFinalize ].
Qed.
End CancelStages.

(** ** C4: cancellation *)

Lemma string_length_app a b :
  String.length (a +:+ b) = (String.length a + String.length b)%nat.
Proof. induction a as [|c a IH]; simpl; [done | by rewrite IH]. Qed.

Lemma stagingDirOf_not_root config : stagingDirOf config <> "/".
Proof.
  unfold stagingDirOf, path_join. cbn [is_absolute is_slash Ascii.eqb].
  destruct (outputPath config) as [|c o]; [done |].
  destruct (ends_with_slash (String c o)); intros H;
    apply (f_equal String.length) in H;
    rewrite ?string_length_app in H; simpl in H;
    rewrite ?string_length_app in H; simpl in H; lia.
Qed.

Lemma under_refl p : under p p = true.
Proof. unfold under. by rewrite String.eqb_refl. Qed.

Lemma lookup_remove_all_under d p q :
  under p q = true -> remove_all d p !! q = None.
Proof.
  intros H. unfold remove_all. apply map_lookup_filter_None. right.
  intros x _. simpl. congruence.
Qed.

Lemma fs_exists_remove_all d p : p <> "/" -> fs_exists (remove_all d p) p = false.
Proof.
  intros Hp. unfold fs_exists. destruct p as [|c p]; [done |].
  rewrite lookup_remove_all_under by apply under_refl.
  rewrite bool_decide_eq_false_2 by (by intros [? ?]).
  cbn [orb]. by apply String.eqb_neq.
Qed.

(** The [try] block always yields the two locals: the handler turns every
    exception into [(false, ...)]. *)
Lemma try_catch_ret_returns {A} (m : M A) (f : string -> A) s :
  exists v, (try_catch m (fun w => ret (f w)) s).1 = Val v.
Proof. unfold try_catch. destruct (m s) as [[a|w] s']; simpl; eauto. Qed.

Lemma pipeline_stages_returns s : exists st, (pipeline_stages s).1 = Val st.
Proof. unfold pipeline_stages. apply try_catch_ret_returns. Qed.

Lemma pipeline_finish_spec st s :
  wasSuccessful (m_progress s) = false ->
  let s' := (pipeline_finish st s).2 in
  progressReports s' = progressReports s
  /\ wasCancelled (m_progress s') = m_cancelRequested s
  /\ result_success (m_lastResult s') = st.1 && negb (m_cancelRequested s)
  /\ fs_exists (disk s') (stagingDirOf (m_config s)) = false
  /\ last (resultReports s') = Some (m_lastResult s').
Proof.
  intros Hw. destruct st as [success errorMessage].
  pose proof (stagingDirOf_not_root (m_config s)) as Hroot.
  unfold pipeline_finish, cleanup, bind, gets, modify, ret.
  cbn. rewrite Hw. cbn. set (stg := stagingDirOf (m_config s)) in *.
  destruct (fs_exists (disk s) stg) eqn:He; cbn;
    (split; [done | split; [done | split; [| split]]]).
  - by case_match.
  - by apply fs_exists_remove_all.
  - by rewrite last_snoc.
  - by case_match.
  - done.
  - by rewrite last_snoc.
Qed.

(** What [startBuild] leaves behind when it accepts a configuration. *)
Lemma startBuild_ok config s s' :
  startBuild config s = (Ok tt, s') ->
  m_buildInProgress s' = true
  /\ m_cancelRequested s' = false
  /\ m_config s' = config
  /\ m_onProgressUpdate s' = m_onProgressUpdate s
  /\ progressReports s' = progressReports s
  /\ m_progress s' = progress_set_steps initial_steps
                       (progress_set_isRunning true BuildProgress_default).
Proof.
  unfold startBuild. repeat case_match; try done. by intros [= <-].
Qed.

(** C4.  If the progress callback calls [cancelBuild] at a report delivered
    while the Pack step is current, then when the build completes
    [BuildResult.success] is false (in [m_lastResult] and in the result
    handed to the completion callback), [wasCancelled] is true and the
    staging directory no longer exists. *)
Theorem cancel_during_pack config s0 handler :
  m_onProgressUpdate s0 = Some handler ->
  (build config s0).1 = Ok tt ->
  (exists i p, reports_of_build config s0 !! i = Some p
               /\ currentStep p = "Pack" /\ handler p = true) ->
  let s := (build config s0).2 in
  result_success (m_lastResult s) = false
  /\ wasCancelled (m_progress s) = true
  /\ fs_exists (disk s) (stagingDirOf config) = false
  /\ last (resultReports s) = Some (m_lastResult s).
Proof.
  intros Hcb Hok (i & p & Hp & _ & Hh). cbv zeta.
  unfold reports_of_build in Hp. unfold build in *.
  destruct (startBuild config s0) as [[[]|e] s1] eqn:Hs; [| done].
  apply startBuild_ok in Hs as (Hb & Hc & Hcfg & Hcb1 & Hr1 & Hp1).
  cbn [fst snd] in *. unfold runBuildPipeline, bind in *.
  assert (cancel_inv config handler (length (progressReports s0)) s1) as HJ.
  { repeat split; try done; [congruence | by rewrite Hp1 |].
    rewrite Hr1, drop_all. by intros ? ?%elem_of_nil. }
  apply cancel_inv_pipeline_stages in HJ.
  destruct (pipeline_stages_returns s1) as [st Hst].
  destruct (pipeline_stages s1) as [o s2]. simpl in Hst, HJ. subst o.
  destruct HJ as (Hb2 & Hcb2 & Hcfg2 & Hw2 & Hr2).
  destruct (pipeline_finish_spec st s2 Hw2) as (Hrep & Hwc & Hsucc & Hex & Hlast).
  rewrite Hrep in Hp.
  assert (m_cancelRequested s2 = true) as Hflag.
  { apply (Hr2 p); [by eapply list_elem_of_lookup_2 | done]. }
  rewrite Hwc, Hsucc, Hflag, <- Hcfg2. rewrite andb_false_r. done.
Qed.

Lemma cancel_during_pack_witness :
  let s := (build config_example
              (BS_new fs_project_example 42
                 (Some (cancel_at_task "Building language pack: en")))).2 in
  result_success (m_lastResult s) = false
  /\ wasCancelled (m_progress s) = true
  /\ fs_exists (disk s) (stagingDirOf config_example) = false
  /\ last (resultReports s) = Some (m_lastResult s).
Proof.
  apply (cancel_during_pack config_example
           (BS_new fs_project_example 42
              (Some (cancel_at_task "Building language pack: en")))
           (cancel_at_task "Building language pack: en")).
  - reflexivity.
  - vm_compute. reflexivity.
  - exists 12%nat. eexists. split; [vm_compute; reflexivity |].
    split; reflexivity.
Defined.

(** ** binary32 rounding is monotone *)

Lemma div_le_cross n d n' d' :
  0 < d -> 0 < d' -> n * d' <= n' * d -> n / d <= n' / d'.
Proof.
  intros Hd Hd' H.
  apply Z.div_le_lower_bound; [done |].
  pose proof (Z.mul_div_le n d Hd).
  assert (d' * (n / d) * d <= n' * d) by nia.
  nia.
Qed.

Lemma rne_lower n d : 0 < d -> n / d <= rne n d.
Proof. intros. unfold rne. repeat case_match; lia. Qed.

Lemma rne_upper n d : 0 < d -> rne n d <= n / d + 1.
Proof. intros. unfold rne. repeat case_match; lia. Qed.

Lemma rne_mono n d n' d' :
  0 < d -> 0 < d' -> n * d' <= n' * d -> rne n d <= rne n' d'.
Proof.
  intros Hd Hd' H.
  pose proof (div_le_cross n d n' d' Hd Hd' H) as Hq.
  destruct (Z.eq_dec (n / d) (n' / d')) as [E|NE].
  - pose proof (Z.div_mod n d ltac:(lia)) as E1.
    pose proof (Z.div_mod n' d' ltac:(lia)) as E2.
    pose proof (Z.mod_pos_bound n d Hd) as B1.
    pose proof (Z.mod_pos_bound n' d' Hd') as B2.
    assert ((n mod d) * d' <= (n' mod d') * d) as Hr.
    { rewrite E1, E2, E in H at 1. nia. }
    unfold rne. rewrite E.
    destruct (Z.ltb_spec (2 * (n mod d)) d), (Z.ltb_spec (2 * (n' mod d')) d'),
      (Z.ltb_spec d (2 * (n mod d))), (Z.ltb_spec d' (2 * (n' mod d')));
      destruct (Z.even (n' / d')); try lia; nia.
  - pose proof (rne_upper n d Hd). pose proof (rne_lower n' d' Hd'). lia.
Qed.

Lemma round_pos_mono n d n' d' :
  0 <= n -> 0 < d -> 0 < d' -> n * d' <= n' * d ->
  round_pos n d <= round_pos n' d'.
Proof.
  intros Hn Hd Hd' H. unfold round_pos.
  pose proof (div_le_cross n d n' d' Hd Hd' H) as Hq.
  assert (0 <= n / d) as Hq0 by (apply Z.div_pos; lia).
  pose proof (Z.log2_le_mono _ _ Hq) as Hl.
  set (e := Z.max 0 (Z.log2 (n / d) - 23)).
  set (e' := Z.max 0 (Z.log2 (n' / d') - 23)).
  assert (0 <= e <= e') as He by (subst e e'; lia).
  assert (0 < 2 ^ e) by (apply Z.pow_pos_nonneg; lia).
  assert (0 < 2 ^ e') by (apply Z.pow_pos_nonneg; lia).
  destruct (Z.eq_dec e e') as [E|NE].
  - rewrite <- E. apply Z.mul_le_mono_nonneg_r; [lia |].
    apply rne_mono; nia.
  - assert (e' = Z.log2 (n' / d') - 23 /\ 0 < e') as [E' He'] by (subst e e'; lia).
    assert (0 < n' / d') as Hq'.
    { destruct (Z.eq_dec (n' / d') 0) as [Z0|]; [| lia].
      rewrite Z0 in E'. simpl in E'. lia. }
    (* the larger value is at least 2^(e'+23) *)
    assert (2 ^ (e' + 23) <= n' / d') as Hlow.
    { replace (e' + 23) with (Z.log2 (n' / d')) by lia. by apply Z.log2_spec. }
    assert (2 ^ 23 <= rne n' (d' * 2 ^ e')) as Hr'.
    { etrans; [| apply rne_lower; nia].
      rewrite <- Z.div_div by lia.
      apply Z.div_le_lower_bound; [lia |].
      rewrite <- Z.pow_add_r by lia. exact Hlow. }
    (* the smaller one is below 2^(e+24) *)
    assert (n / d < 2 ^ (e + 24)) as Hup.
    { destruct (Z.eq_dec (n / d) 0) as [Z0|NZ].
      - rewrite Z0. apply Z.pow_pos_nonneg; lia.
      - pose proof (Z.log2_spec (n / d) ltac:(lia)) as [_ Hs].
        eapply Z.lt_le_trans; [exact Hs |].
        apply Z.pow_le_mono_r; subst e; lia. }
    assert (rne n (d * 2 ^ e) <= 2 ^ 24) as Hr.
    { etrans; [apply rne_upper; nia |].
      rewrite <- Z.div_div by lia.
      assert ((n / d) / 2 ^ e < 2 ^ 24); [| lia].
      apply Z.div_lt_upper_bound; [lia |].
      rewrite <- Z.pow_add_r by lia. exact Hup. }
    assert (2 ^ 24 * 2 ^ e <= 2 ^ 23 * 2 ^ e').
    { rewrite <- !Z.pow_add_r by lia. apply Z.pow_le_mono_r; lia. }
    nia.
Qed.

Lemma round_pos_nonneg n d : 0 <= n -> 0 < d -> 0 <= round_pos n d.
Proof.
  intros Hn Hd. unfold round_pos.
  set (e := Z.max 0 _).
  assert (0 < 2 ^ e) by (apply Z.pow_pos_nonneg; lia).
  pose proof (rne_lower n (d * 2 ^ e) ltac:(nia)).
  assert (0 <= n / (d * 2 ^ e)) by (apply Z.div_pos; nia).
  nia.
Qed.

Lemma round_f32_pos n d : 0 <= n -> round_f32 n d = round_pos n d.
Proof. intros. unfold round_f32. destruct (Z.ltb_spec n 0); [lia | done]. Qed.

Lemma round_f32_mono n d n' d' :
  0 <= n -> 0 < d -> 0 < d' -> n * d' <= n' * d ->
  round_f32 n d <= round_f32 n' d'.
Proof.
  intros. rewrite !round_f32_pos by nia. by apply round_pos_mono.
Qed.

Lemma f32_one_pos : 0 < f32_one_units.
Proof. done. Qed.

Lemma f32_add_mono a b a' b' :
  0 <= a -> 0 <= b -> a <= a' -> b <= b' -> f32_add a b <= f32_add a' b'.
Proof. intros. unfold f32_add. apply round_f32_mono; lia. Qed.

Lemma f32_add_nonneg a b : 0 <= a -> 0 <= b -> 0 <= f32_add a b.
Proof.
  intros. unfold f32_add. rewrite round_f32_pos by lia.
  apply round_pos_nonneg; lia.
Qed.

Lemma f32_mul_mono a b b' :
  0 <= a -> 0 <= b -> b <= b' -> f32_mul a b <= f32_mul a b'.
Proof.
  intros. unfold f32_mul. pose proof f32_one_pos.
  assert (a * b <= a * b') by nia.
  apply round_f32_mono; [nia | done | done |].
  apply Z.mul_le_mono_nonneg_r; lia.
Qed.

Lemma f32_mul_nonneg a b : 0 <= a -> 0 <= b -> 0 <= f32_mul a b.
Proof.
  intros. unfold f32_mul. rewrite round_f32_pos by nia.
  apply round_pos_nonneg; [nia | done].
Qed.

Lemma f32_div_mono a a' b :
  0 <= a -> a <= a' -> 0 < b -> f32_div a b <= f32_div a' b.
Proof.
  intros. unfold f32_div. pose proof f32_one_pos.
  assert (a * f32_one_units <= a' * f32_one_units) by nia.
  apply round_f32_mono; [nia | done | done |].
  apply Z.mul_le_mono_nonneg_r; lia.
Qed.

Lemma f32_div_nonneg a b : 0 <= a -> 0 < b -> 0 <= f32_div a b.
Proof.
  intros. unfold f32_div. pose proof f32_one_pos. rewrite round_f32_pos by nia.
  apply round_pos_nonneg; [nia | done].
Qed.

(** A quotient of a smaller by a larger number is at most [1.0f]. *)
Lemma f32_div_le_one a b : 0 <= a -> a <= b -> 0 < b -> f32_div a b <= f32_one_units.
Proof.
  intros. unfold f32_div. pose proof f32_one_pos.
  change f32_one_units with (round_f32 f32_one_units 1) at 2.
  apply round_f32_mono; [nia | done | done |].
  rewrite Z.mul_1_r. rewrite (Z.mul_comm f32_one_units).
  apply Z.mul_le_mono_nonneg_r; lia.
Qed.

Lemma f32_of_int_mono k k' : 0 <= k -> k <= k' -> f32_of_int k <= f32_of_int k'.
Proof.
  intros. unfold f32_of_int. pose proof f32_one_pos.
  assert (k * f32_one_units <= k' * f32_one_units) by nia.
  apply round_f32_mono; [nia | done | done | lia].
Qed.

Lemma f32_of_int_pos k : 1 <= k -> 0 < f32_of_int k.
Proof.
  intros. pose proof (f32_of_int_mono 1 k ltac:(lia) ltac:(lia)) as H1.
  assert (0 < f32_of_int 1) by done. lia.
Qed.

Lemma f32_of_int_nonneg k : 0 <= k -> 0 <= f32_of_int k.
Proof.
  intros. pose proof (f32_of_int_mono 0 k ltac:(lia) ltac:(lia)) as H1.
  assert (f32_of_int 0 = 0) as E by done. lia.
Qed.

(** ** Rules for [triple] *)

Section TripleRules.
Variable n0 : nat.

Lemma triple_ret {A} (P : BS -> Prop) (a : A) V :
  (forall s, P s -> V a s) -> triple n0 P (ret a) V.
Proof. intros H s Hs. by apply H. Qed.

Lemma triple_bind {A B} P (m : M A) (k : A -> M B) V V' :
  triple n0 P m V -> (forall a, triple n0 (V a) (k a) V') ->
  triple n0 P (bind m k) V'.
Proof.
  intros Hm Hk s Hs. unfold bind. specialize (Hm s Hs).
  destruct (m s) as [[a|w] s']; simpl in *; [by apply Hk | done].
Qed.

Lemma triple_gets {A} P (f : BS -> A) : triple n0 P (gets f) (fun _ => P).
Proof. by intros s Hs. Qed.

Lemma triple_conseq {A} (P P' : BS -> Prop) (m : M A) (V V' : A -> BS -> Prop) :
  (forall s, P s -> P' s) -> triple n0 P' m V' ->
  (forall a s, V' a s -> V a s) -> triple n0 P m V.
Proof.
  intros HP Hm HV s Hs. specialize (Hm s (HP s Hs)).
  destruct ((m s).1); [by apply HV | done].
Qed.

Lemma triple_frame {A} (P : BS -> Prop) (m : M A) :
  preserves P m -> (forall s, P s -> W n0 prog_top s) ->
  triple n0 P m (fun _ => P).
Proof.
  intros Hm HP s Hs. specialize (Hm s Hs).
  destruct ((m s).1); [done | by apply HP].
Qed.

Lemma triple_try_catch {A} P (m : M A) h V :
  triple n0 P m V -> (forall w, triple n0 (W n0 prog_top) (h w) V) ->
  triple n0 P (try_catch m h) V.
Proof.
  intros Hm Hh s Hs. unfold try_catch. specialize (Hm s Hs).
  destruct (m s) as [[a|w] s']; simpl in *; [done | by apply Hh].
Qed.

Lemma triple_for_each {X Acc R} (I : list X -> Acc -> BS -> Prop)
    (Vr : R -> BS -> Prop) (l : list X) (acc : Acc)
    (body : X -> Acc -> M (Acc + R)) :
  (forall x rest a,
     triple n0 (I (x :: rest) a) (body x a)
            (fun r => match r with inl a' => I rest a' | inr v => Vr v end)) ->
  triple n0 (I l acc) (for_each l acc body)
         (fun r => match r with inl a' => I [] a' | inr v => Vr v end).
Proof.
  intros Hb. revert acc. induction l as [|x l IH]; intros acc; simpl.
  - by apply triple_ret.
  - eapply triple_bind; [apply Hb |]. intros [a|r]; [apply IH |].
    by apply triple_ret.
Qed.

Lemma W_weaken b b' s : b <= b' -> b' <= prog_top -> W n0 b s -> W n0 b' s.
Proof.
  intros Hb Ht (Hw & Hn & Hs & Hf & _). repeat split; try done.
  eapply Forall_impl; [exact Hf |]. simpl. lia.
Qed.

Lemma W_top b s : W n0 b s -> W n0 prog_top s.
Proof. intros H. pose proof H as (_ & _ & _ & _ & Hb). by eapply W_weaken. Qed.

Lemma K_W i b s : K n0 i b s -> W n0 b s.
Proof. by intros [? _]. Qed.

Lemma K_top i b s : K n0 i b s -> W n0 prog_top s.
Proof. intros [H _]. by eapply W_top. Qed.

Lemma K_weaken i b b' s : b <= b' -> b' <= prog_top -> K n0 i b s -> K n0 i b' s.
Proof. intros Hb Ht (Hw & Hi). split; [by eapply W_weaken | done]. Qed.
End TripleRules.

(** ** [PackBuilder] *)

Section PackBuilderFacts.
Import PackBuilder.

Lemma processedData_id b entry : processedData b entry = data entry.
Proof.
  unfold processedData, compressData, encryptData.
  by destruct (negb _), (negb _).
Qed.

Lemma write_entry_app b bs entry :
  fits entry ->
  write_entry b (app_stream bs) entry = app_stream (bs ++ entry_bytes entry).
Proof.
  intros [Hp Hd]. unfold write_entry, entry_bytes.
  rewrite processedData_id.
  rewrite !u32_small, !u64_small by lia.
  rewrite write_u32_app, stream_write_app, write_u64_app, stream_write_app.
  rewrite !Nat2Z.id, <- length_string_bytes, !firstn_all.
  by rewrite <- !app_assoc.
Qed.

Lemma foldl_write_entry_app b entries bs :
  Forall fits entries ->
  foldl (write_entry b) (app_stream bs) entries
  = app_stream (bs ++ concat (entry_bytes <$> entries)).
Proof.
  revert bs. induction entries as [|e entries IH]; intros bs Hf; simpl.
  - by rewrite app_nil_r.
  - apply Forall_cons in Hf as [He Hf].
    rewrite write_entry_app, IH by done. by rewrite <- app_assoc.
Qed.

Lemma read_entries_app entries rest :
  Forall fits entries ->
  read_entries (length entries) (concat (entry_bytes <$> entries) ++ rest)
  = (fun entry => (path entry, data entry)) <$> entries.
Proof.
  induction entries as [|e entries IH]; intros Hf; [done |].
  apply Forall_cons in Hf as [[Hp Hd] Hf].
  cbn [length read_entries fmap list_fmap concat]. cbv zeta.
  rewrite <- app_assoc.
  set (tl := concat _ ++ rest) in *.
  assert (entry_bytes e ++ tl
          = le_bytes 4 (Z.of_nat (String.length (path e)))
            ++ string_bytes (path e)
            ++ le_bytes 8 (Z.of_nat (length (data e)))
            ++ data e ++ tl) as Heb
    by (unfold entry_bytes; by rewrite <- !app_assoc).
  rewrite !Heb. clear Heb.
  assert (get_u32 0 (le_bytes 4 (Z.of_nat (String.length (path e)))
                     ++ string_bytes (path e)
                     ++ le_bytes 8 (Z.of_nat (length (data e)))
                     ++ data e ++ tl)
          = Z.of_nat (String.length (path e))) as H1.
  { unfold get_u32, slice.
    etransitivity; [apply (field_u32 [] _ _ 0 eq_refl) | apply u32_small; lia]. }
  rewrite H1, Nat2Z.id.
  assert (length (le_bytes 4 (Z.of_nat (String.length (path e)))
                  ++ string_bytes (path e))
          = (4 + String.length (path e))%nat) as Hl1.
  { by rewrite length_app, length_le_bytes, length_string_bytes. }
  assert (get_u64 (4 + String.length (path e))
            (le_bytes 4 (Z.of_nat (String.length (path e)))
             ++ string_bytes (path e)
             ++ le_bytes 8 (Z.of_nat (length (data e)))
             ++ data e ++ tl)
          = Z.of_nat (length (data e))) as H2.
  { unfold get_u64, slice. rewrite (app_assoc (le_bytes 4 _)).
    rewrite (field_u64 _ _ _ _ Hl1). by apply u64_small; lia. }
  rewrite H2, Nat2Z.id.
  f_equal; [f_equal |].
  - unfold slice.
    rewrite (drop_app_length' (le_bytes 4 _)) by (by rewrite length_le_bytes).
    rewrite take_app_length' by (by rewrite length_string_bytes).
    apply bytes_string_bytes.
  - unfold slice.
    rewrite (app_assoc (le_bytes 4 _)), (app_assoc _ (le_bytes 8 _)).
    rewrite drop_app_length'
      by (rewrite length_app, Hl1, length_le_bytes; lia).
    by rewrite take_app_length'.
  - rewrite (app_assoc (le_bytes 4 _)), (app_assoc _ (le_bytes 8 _)),
      (app_assoc _ (data e)).
    rewrite drop_app_length'
      by (rewrite !length_app, !length_le_bytes, length_string_bytes; lia).
    by apply IH.
Qed.

(** X1 (PackBuilder round trip).  When [finalizePack] can open its output and
    the entry count and every length fit their fields, the file it writes
    reads back as exactly the entries' paths and payloads, in order and
    byte for byte: this holds for every compression level and every
    encryption key, which leave the stored bytes unchanged. *)
Theorem finalizePack_roundtrip fs b :
  m_outputPath b <> "" ->
  can_open_write fs (m_outputPath b) = true ->
  Z.of_nat (length (m_entries b)) < 2 ^ 32 ->
  Forall fits (m_entries b) ->
  (finalizePack fs b).1 = Ok tt
  /\ (read_file (finalizePack fs b).2 (m_outputPath b) ≫= read_pack)
     = Some ((fun entry => (path entry, data entry)) <$> m_entries b).
Proof.
  intros Hout Hopen Hcount Hfits. unfold finalizePack.
  apply String.eqb_neq in Hout. rewrite Hout, Hopen. cbn [negb fst snd].
  split; [done |].
  change stream_open with (app_stream []).
  rewrite stream_write_app, write_u32_app, foldl_write_entry_app by done.
  unfold read_file, write_file. rewrite lookup_insert_eq. cbn [buf app_stream mbind option_bind].
  rewrite u32_small by lia. unfold read_pack.
  rewrite <- !app_assoc. cbn [app].
  assert (slice 0 4 (string_bytes "NMRS" ++ le_bytes 4 (Z.of_nat (length (m_entries b)))
                     ++ concat (entry_bytes <$> m_entries b))
          = string_bytes "NMRS") as Hm by done.
  rewrite Hm, bytes_string_bytes. cbn [String.eqb Ascii.eqb Bool.eqb].
  f_equal.
  assert (get_u32 4 (string_bytes "NMRS" ++ le_bytes 4 (Z.of_nat (length (m_entries b)))
                     ++ concat (entry_bytes <$> m_entries b))
          = Z.of_nat (length (m_entries b))) as Hc.
  { unfold get_u32, slice. rewrite (field_u32 _ _ _ 4) by done.
    by apply u32_small; lia. }
  rewrite Hc, Nat2Z.id.
  rewrite (app_assoc (string_bytes "NMRS")).
  rewrite drop_app_length' by (by rewrite length_app, length_le_bytes).
  rewrite <- (app_nil_r (concat _)). by apply read_entries_app.
Qed.

Lemma finalizePack_roundtrip_witness :
  let b := mkBuilder "/s/packs/x.pack"
             [mkPackEntry "a/x.png" [1; 2; 3] 3; mkPackEntry "e" [] 0]
             "secret" CompressionMaximum in
  (read_file (finalizePack fs_pack_example b).2 "/s/packs/x.pack" ≫= read_pack)
  = Some [("a/x.png", [1; 2; 3]); ("e", [])].
Proof.
  intros b.
  apply (finalizePack_roundtrip fs_pack_example b).
  - done.
  - reflexivity.
  - vm_compute. reflexivity.
  - repeat constructor.
Defined.

Lemma foldl_add_sizes (entries : list PackEntry) a c :
  Forall (fun entry => originalSize entry = i64 (Z.of_nat (length (data entry))))
         entries ->
  foldl (fun total entry => total + originalSize entry) a entries - a
  = foldl (fun total entry => total + i64 (Z.of_nat (length (data entry)))) c entries - c.
Proof.
  revert a c. induction entries as [|e entries IH]; intros a c Hf; simpl; [lia |].
  apply Forall_cons in Hf as [He Hf].
  specialize (IH (a + originalSize e) (c + i64 (Z.of_nat (length (data e)))) Hf).
  lia.
Qed.

Lemma f32_div_self x : 0 < x -> f32_div x x = f32_one_units.
Proof.
  intros Hx. unfold f32_div, round_f32.
  assert (0 < f32_one_units) as H1 by apply f32_one_pos.
  replace (Z.ltb (x * f32_one_units) 0) with false by (symmetry; apply Z.ltb_ge; nia).
  unfold round_pos. rewrite (Z.mul_comm x f32_one_units), Z.div_mul by lia.
  rewrite (Z.mul_comm f32_one_units x).
  unfold f32_one_units. rewrite Z.log2_pow2 by lia.
  change (Z.max 0 (149 - 23)) with 126.
  unfold rne.
  replace (x * 2 ^ 149) with (2 ^ 23 * (x * 2 ^ 126)) by (change (2 ^ 149) with (2 ^ 23 * 2 ^ 126); lia).
  rewrite Z.div_mul, Z.mod_mul by nia.
  replace (Z.ltb (2 * 0) (x * 2 ^ 126)) with true by (symmetry; apply Z.ltb_lt; nia).
  done.
Qed.

Lemma sizes_recorded_run fs calls b :
  sizes_recorded b -> sizes_recorded (foldl (run_call fs) b calls).
Proof.
  revert b. induction calls as [|c calls IH]; intros b Hb; [done |].
  simpl. apply IH. unfold sizes_recorded in *.
  destruct c; simpl; unfold addFile; try case_match; simpl; try done;
    try (apply Forall_app; split; [done |]; by repeat constructor).
Qed.

(** X2 (PackBuilder statistics).  After any sequence of [beginPack],
    [addFile], [addData], [setEncryptionKey] and [setCompressionLevel] on a
    builder whose entries record their data length, [getStats] reports a
    compressed size equal to the uncompressed size and a compression ratio
    of exactly 1.0: the builder never shrinks anything. *)
Theorem getStats_never_compresses fs calls b :
  sizes_recorded b ->
  let stats := getStats (foldl (run_call fs) b calls) in
  compressedSize stats = uncompressedSize stats
  /\ compressionRatio stats = f32_one_units.
Proof.
  intros Hb. apply (sizes_recorded_run fs calls) in Hb.
  set (b' := foldl _ _ _) in *. cbv zeta. unfold getStats. cbn [compressedSize uncompressedSize compressionRatio].
  pose proof (foldl_add_sizes (m_entries b') 0 0 Hb) as Hs.
  rewrite !Z.sub_0_r in Hs. rewrite <- Hs.
  split; [done |].
  destruct (Z.ltb_spec 0 (foldl (fun total entry => total + originalSize entry) 0 (m_entries b')));
    [| done].
  apply f32_div_self. apply f32_of_int_pos. lia.
Qed.

Lemma getStats_never_compresses_witness :
  let b := mkBuilder "" [] "" CompressionNone in
  let stats :=
    getStats (foldl (run_call fs_pack_example) b
                [BeginPack "/s/packs/x.pack";
                 SetCompressionLevel CompressionMaximum;
                 AddFile "/s/assets/a/x.png" "x.png";
                 AddData "blob" [7; 7; 7; 7]]) in
  compressedSize stats = uncompressedSize stats
  /\ compressionRatio stats = f32_one_units.
Proof.
  intros b. apply (getStats_never_compresses fs_pack_example). constructor.
Defined.
End PackBuilderFacts.

(** ** [IntegrityChecker] *)

Lemma path_join_nonempty p q : q <> "" -> p </> q <> "".
Proof.
  intros Hq. unfold path_join. destruct (is_absolute q); [done |].
  destruct p as [|c p]; [done |]. by destruct (ends_with_slash _).
Qed.

Lemma regular_iff_exists_not_directory fs p :
  p <> "" ->
  is_regular_file fs p = true
  <-> fs_exists fs p = true /\ is_directory fs p = false.
Proof.
  intros Hp. unfold is_regular_file, fs_exists, is_directory.
  destruct p as [|c p]; [done |].
  destruct (fs !! String c p) as [[content|]|] eqn:E; simpl;
    destruct (Ascii.eqb c "/"), (String.eqb p ""); intuition congruence.
Qed.

Lemma list_recursive_None fs dir :
  list_recursive fs dir = None <-> is_directory fs dir = false.
Proof. unfold list_recursive. by destruct (is_directory fs dir). Qed.

Section IntegrityCheckerFacts.
Import IntegrityChecker.

(** X3 (checkProject never returns an error, but can throw).
    [checkProject] has no error return: when it returns, it returns [ok]
    with the issues found.  It does not return at all, but lets a
    [filesystem_error] escape, exactly when the project's [assets] or
    [scripts] path exists and is not a directory. *)
Theorem checkProject_outcome fs projectPath c :
  let r := (checkProject fs projectPath c).1 in
  (forall e, r <> Val (Error e))
  /\ ((exists w, r = Throw w)
      <-> is_regular_file fs (projectPath </> "assets") = true
          \/ is_regular_file fs (projectPath </> "scripts") = true).
Proof.
  cbv zeta.
  pose proof (regular_iff_exists_not_directory fs (projectPath </> "assets")
                (path_join_nonempty projectPath "assets" ltac:(done))) as Ha.
  pose proof (regular_iff_exists_not_directory fs (projectPath </> "scripts")
                (path_join_nonempty projectPath "scripts" ltac:(done))) as Hs.
  unfold checkProject, checkMissingAssets, checkScripts, list_recursive,
    missing_directories.
  cbn [foldl].
  set (A := projectPath </> "assets") in *.
  set (S := projectPath </> "scripts") in *.
  destruct (fs_exists fs A) eqn:Ea, (is_directory fs A) eqn:Da,
           (fs_exists fs S) eqn:Es, (is_directory fs S) eqn:Ds;
    cbn [negb fst snd];
    (split; [intros e He; discriminate He |]); split;
    try (intros [w Hw]; discriminate Hw);
    try (intros [H|H]; [apply Ha in H as [? ?] | apply Hs in H as [? ?]];
         congruence);
    try (intros _; by eauto);
    try (intros _; left; by apply Ha); try (intros _; right; by apply Hs).
Qed.

Lemma count_braces_brackets content braceCount line parenCount :
  (count_braces content braceCount line).1
  = (count_brackets content braceCount parenCount).1.
Proof.
  revert braceCount line parenCount.
  induction content as [|ch content IH]; intros braceCount line parenCount; [done |].
  cbn [count_braces count_brackets].
  destruct (Ascii.eqb ch "{") eqn:E1.
  - apply Ascii.eqb_eq in E1 as ->. cbn. apply IH.
  - destruct (Ascii.eqb ch "}") eqn:E2; [apply IH |].
    destruct (Ascii.eqb ch "("), (Ascii.eqb ch ")"); apply IH.
Qed.

Lemma foldl_app_concat {A B} (f : A -> list B) (l : list A) (acc : list B) :
  foldl (fun issues x => issues ++ f x) acc l = acc ++ concat (f <$> l).
Proof.
  revert acc. induction l as [|x l IH]; intros acc; simpl.
  - by rewrite app_nil_r.
  - by rewrite IH, app_assoc.
Qed.

Lemma compileScript_brace_warning fs entry bytes :
  read_file fs entry = Some bytes ->
  "Unbalanced braces detected" ∈ script_warnings (compileScript fs entry)
  <-> (count_brackets (byte_char <$> bytes) 0 0).1 <> 0.
Proof.
  intros Hr. unfold compileScript. rewrite Hr.
  destruct (count_brackets (byte_char <$> bytes) 0 0) as [braceCount parenCount].
  cbn [fst script_warnings].
  destruct (Z.eqb_spec braceCount 0) as [->|Hne];
    destruct (Z.eqb parenCount 0), (byte_char <$> bytes);
    cbn [negb app]; rewrite ?elem_of_app, ?elem_of_cons, ?elem_of_nil;
    split; intros H; try done; try tauto;
    repeat destruct H as [H|H]; try done; try discriminate H.
Qed.

Lemma elem_of_concat_fmap {A B} (f : A -> list B) (l : list A) x :
  x ∈ concat (f <$> l) <-> exists y, y ∈ l /\ x ∈ f y.
Proof.
  induction l as [|y l IH]; simpl.
  - split; [by intros ?%elem_of_nil | by intros (? & ?%elem_of_nil & _)].
  - rewrite elem_of_app, IH. split.
    + intros [H|(z & Hz & H)]; [exists y | exists z]; split; try done;
        [by left | by right].
    + intros (z & [->|Hz]%elem_of_cons & H); [by left | right; eauto].
Qed.

Lemma elem_of_list_recursive fs dir entries entry :
  list_recursive fs dir = Some entries ->
  entry ∈ entries <-> strictly_under dir entry = true /\ is_Some (fs !! entry).
Proof.
  unfold list_recursive. destruct (is_directory fs dir); [| done].
  intros [= <-]. rewrite list_elem_of_filter, list_elem_of_fmap.
  split.
  - intros [Hu ([q n] & -> & Hq%elem_of_map_to_list)]. simpl in *. eauto.
  - intros [Hu [n Hn]]. split; [done |]. exists (entry, n).
    split; [done | by apply elem_of_map_to_list].
Qed.

Lemma check_script_warning fs y entry :
  mkIssue SeverityWarning "Unbalanced braces detected" entry ∈ check_script fs y
  <-> y = entry
      /\ is_regular_file fs y = true
      /\ (extension y = ".nms" \/ extension y = ".nmscript")
      /\ "Unbalanced braces detected" ∈ script_warnings (compileScript fs y).
Proof.
  unfold check_script.
  destruct (is_regular_file fs y) eqn:Hreg;
    [| split; [by intros ?%elem_of_nil | by intros (_ & ? & _)]].
  assert (exists bytes, read_file fs y = Some bytes) as [bytes Hr].
  { unfold is_regular_file, read_file in *.
    destruct (fs !! y) as [[content|]|]; try done. eauto. }
  rewrite Hr, (compileScript_brace_warning _ _ _ Hr).
  rewrite <- (count_braces_brackets _ 0 1 0).
  destruct (count_braces (byte_char <$> bytes) 0 1) as [braceCount line].
  cbn [fst].
  destruct (String.eqb_spec (extension y) ".nms") as [E1|E1],
           (String.eqb_spec (extension y) ".nmscript") as [E2|E2];
    cbn [orb];
    try (split; [by intros ?%elem_of_nil | intros (_ & _ & [?|?] & _); done]);
    (destruct (Z.eqb_spec braceCount 0) as [->|Hne]; cbn [negb];
     [split; [by intros ?%elem_of_nil | intros (_ & _ & _ & ?); done] |]);
    rewrite list_elem_of_singleton;
    (split; [intros [= <-]; eauto 10 | intros (-> & _); done]).
Qed.

(** X4 (the checker and the compiler agree on braces).  When the project's
    [scripts] directory exists and [checkScripts] returns, its list holds the
    warning "Unbalanced braces detected" for a file exactly when the file is
    a regular [.nms] or [.nmscript] file below that directory and the
    build's [compileScript] gives the same warning for it (parentheses,
    which only [compileScript] counts, play no part). *)
Theorem checkScripts_agrees_with_compileScript fs projectPath issues entry :
  fs_exists fs (projectPath </> "scripts") = true ->
  checkScripts fs projectPath = Val issues ->
  mkIssue SeverityWarning "Unbalanced braces detected" entry ∈ issues
  <-> strictly_under (projectPath </> "scripts") entry = true
      /\ is_regular_file fs entry = true
      /\ (extension entry = ".nms" \/ extension entry = ".nmscript")
      /\ "Unbalanced braces detected"
           ∈ script_warnings (compileScript fs entry).
Proof.
  intros Hex. unfold checkScripts. rewrite Hex. cbn [negb].
  destruct (list_recursive fs (projectPath </> "scripts")) as [entries|] eqn:Hl;
    [| done].
  intros [= <-]. rewrite foldl_app_concat, app_nil_l, elem_of_concat_fmap.
  split.
  - intros (y & Hy & (-> & Hreg & Hext & Hw)%check_script_warning).
    apply (elem_of_list_recursive _ _ _ _ Hl) in Hy as [Hu _]. done.
  - intros (Hu & Hreg & Hext & Hw). exists entry. split.
    + apply (elem_of_list_recursive _ _ _ _ Hl). split; [done |].
      unfold is_regular_file in Hreg. destruct (fs !! entry); [eauto | done].
    + by apply check_script_warning.
Qed.

Lemma checkScripts_agrees_with_compileScript_witness :
  mkIssue SeverityWarning "Unbalanced braces detected" "/p/scripts/a.nms"
    ∈ [mkIssue SeverityWarning "Unbalanced braces detected" "/p/scripts/a.nms"]
  <-> strictly_under ("/p" </> "scripts") "/p/scripts/a.nms" = true
      /\ is_regular_file checker_example_fs "/p/scripts/a.nms" = true
      /\ (extension "/p/scripts/a.nms" = ".nms"
          \/ extension "/p/scripts/a.nms" = ".nmscript")
      /\ "Unbalanced braces detected"
           ∈ script_warnings (compileScript checker_example_fs "/p/scripts/a.nms").
Proof.
  apply (checkScripts_agrees_with_compileScript checker_example_fs "/p").
  - reflexivity.
  - vm_compute. reflexivity.
Defined.
End IntegrityCheckerFacts.

(** ** Classification of assets by extension *)

Ltac split_ext ext :=
  repeat match goal with
         | |- context [String.eqb ext ?c] =>
             destruct (String.eqb_spec ext c) as [->|?];
             [vm_compute; intros;
              first [done | by left | by right | exfalso; congruence] |]
         end.

(** X5 (the classifiers agree).  Whatever [AssetProcessor::getAssetType]
    calls an image, an audio file, a font or a script,
    [BuildSizeAnalyzer::categorizeAsset] puts in the category of the same
    name, and every file for which [detectCompression] finds a compression
    type is an image or an audio file for [categorizeAsset]. *)
Theorem asset_classifiers_agree path :
  (AssetProcessor.getAssetType path = "image" ->
   Analyzer.categorizeAsset path = Analyzer.Images)
  /\ (AssetProcessor.getAssetType path = "audio" ->
      Analyzer.categorizeAsset path = Analyzer.Audio)
  /\ (AssetProcessor.getAssetType path = "font" ->
      Analyzer.categorizeAsset path = Analyzer.Fonts)
  /\ (AssetProcessor.getAssetType path = "script" ->
      Analyzer.categorizeAsset path = Analyzer.Scripts)
  /\ (Analyzer.detectCompression path <> Analyzer.CompressionTypeNone ->
      Analyzer.categorizeAsset path = Analyzer.Images
      \/ Analyzer.categorizeAsset path = Analyzer.Audio).
Proof.
  unfold AssetProcessor.getAssetType, Analyzer.categorizeAsset,
    Analyzer.detectCompression, ext_in.
  generalize (tolower (extension path)). intros ext.
  cbn [existsb].
  repeat split; split_ext ext; cbn [orb]; intros H; try done; try discriminate H.
Qed.

Lemma asset_classifiers_agree_witness :
  Analyzer.categorizeAsset "/p/assets/Title.PNG" = Analyzer.Images.
Proof.
  apply (asset_classifiers_agree "/p/assets/Title.PNG"). reflexivity.
Defined.

(** ** The analyzer *)

Section AnalyzerFacts.
Import Analyzer.

(** X6 (applyAllAutoOptimizations does nothing).  [applyAllAutoOptimizations]
    always returns [ok] and leaves the analyzer as it was, however many
    auto-fixable suggestions the analysis holds: [applyOptimization] fails
    for every one of them, so nothing is counted as applied and no
    re-analysis runs. *)
Theorem applyAllAutoOptimizations_changes_nothing fs a :
  applyAllAutoOptimizations fs a = (Ok tt, a).
Proof.
  unfold applyAllAutoOptimizations.
  assert (forall l applied,
            foldl (fun applied suggestion =>
                     if canAutoFix suggestion
                     then if isOk (applyOptimization suggestion)
                          then applied + 1 else applied
                     else applied) applied l = applied) as H.
  { induction l as [|x l IH]; intros applied; simpl; [done |].
    destruct (canAutoFix x); cbn; apply IH. }
  by rewrite H.
Qed.

(** X7 (the fingerprint only sees the ends of a file).  Two readable files
    of the same length that agree on their first 1024 bytes and on their
    last 1024 bytes have the same fingerprint, whatever lies in between. *)
Theorem computeFileHash_window fs p q c1 c2 :
  read_file fs p = Some c1 ->
  read_file fs q = Some c2 ->
  length c1 = length c2 ->
  take 1024 c1 = take 1024 c2 ->
  drop (length c1 - 1024) c1 = drop (length c2 - 1024) c2 ->
  computeFileHash fs p = computeFileHash fs q.
Proof.
  intros Hp Hq Hlen Hhead Htail. unfold computeFileHash.
  by rewrite Hp, Hq, Hlen, Hhead, <- Htail, Hlen.
Qed.

Lemma computeFileHash_window_witness :
  read_file fs_collision_example "/p/assets/a.bin"
  <> read_file fs_collision_example "/p/assets/b.bin"
  /\ computeFileHash fs_collision_example "/p/assets/a.bin"
     = computeFileHash fs_collision_example "/p/assets/b.bin".
Proof.
  split; [vm_compute; discriminate |].
  apply (computeFileHash_window fs_collision_example _ _
           (replicate 1030 0 ++ [1] ++ replicate 1030 0)
           (replicate 1030 0 ++ [2] ++ replicate 1030 0));
    vm_compute; reflexivity.
Defined.
End AnalyzerFacts.

(** ** Sorting *)

Section StdSort.
Context {A : Type} (key : A -> Z).
Local Abbreviation comp := (fun a b : A => Z.ltb (key b) (key a)).
Local Abbreviation descending := (fun a b : A => key b <= key a).

Lemma sort_insert_Permutation (c : A -> A -> bool) x l :
  Analyzer.sort_insert c x l ≡ₚ x :: l.
Proof.
  induction l as [|y l IH]; simpl; [done |].
  destruct (c x y); [done |]. by rewrite IH, Permutation_swap.
Qed.

Lemma std_sort_Permutation (c : A -> A -> bool) l : Analyzer.std_sort c l ≡ₚ l.
Proof.
  induction l as [|x l IH]; simpl; [done |].
  by rewrite sort_insert_Permutation, IH.
Qed.

Lemma sort_insert_sorted x l :
  StronglySorted descending l ->
  StronglySorted descending (Analyzer.sort_insert comp x l).
Proof.
  induction 1 as [|y l Hs IH Hy]; simpl.
  - repeat constructor.
  - destruct (Z.ltb_spec (key y) (key x)) as [Hlt|Hge].
    + constructor; [by constructor |].
      constructor; [lia |].
      eapply Forall_impl; [exact Hy |]. simpl. lia.
    + constructor; [done |].
      rewrite sort_insert_Permutation. by constructor.
Qed.

Lemma std_sort_sorted l :
  StronglySorted descending (Analyzer.std_sort comp l).
Proof.
  induction l as [|x l IH]; simpl; [constructor | by apply sort_insert_sorted].
Qed.
End StdSort.


Lemma u64_add_l a b : u64 (u64 a + b) = u64 (a + b).
Proof. unfold u64. by rewrite Zplus_mod_idemp_l. Qed.

Section AnalyzerSuggestions.
Import Analyzer.

Lemma foldl_push_suggestion l an :
  let an' := foldl (fun an s => push_suggestion s an) an l in
  suggestions an' = suggestions an ++ l
  /\ u64 (potentialSavings an')
     = u64 (potentialSavings an + Zsum (estimatedSavings <$> l))
  /\ assets an' = assets an
  /\ duplicates an' = duplicates an
  /\ unusedAssets an' = unusedAssets an.
Proof.
  revert an. induction l as [|s l IH]; intros an; simpl.
  - by rewrite app_nil_r, Z.add_0_r.
  - destruct (IH (push_suggestion s an)) as (H1 & H2 & H3 & H4 & H5).
    cbv zeta in *. rewrite H1, H2, H3, H4, H5. cbn.
    rewrite <- app_assoc. repeat split; try done.
    rewrite u64_add_l. f_equal. unfold Zsum. cbn [fmap list_fmap foldr].
    exact (eq_sym (Z.add_assoc _ _ _)).
Qed.

(** X8 (suggestions are sorted and accounted for).  After
    [generateSuggestions] the suggestion list is in non-increasing order of
    [estimatedSavings]; it holds the suggestions that were there before
    together with one per duplicate group, one per oversized image or audio
    asset and one per unused asset, and nothing else; and
    [potentialSavings] has grown, modulo 2^64, by the sum of the estimated
    savings of the new suggestions.  The assets and the duplicate groups
    are left as they were. *)
Theorem generateSuggestions_sorted an :
  let an' := generateSuggestions an in
  StronglySorted (fun a b => estimatedSavings b <= estimatedSavings a)
                 (suggestions an')
  /\ suggestions an' ≡ₚ suggestions an ++ generated_suggestions an
  /\ u64 (potentialSavings an')
     = u64 (potentialSavings an
            + Zsum (estimatedSavings <$> generated_suggestions an))
  /\ assets an' = assets an
  /\ duplicates an' = duplicates an.
Proof.
  cbv zeta. unfold generateSuggestions.
  destruct (foldl_push_suggestion (generated_suggestions an) an)
    as (H1 & H2 & H3 & H4 & _).
  cbv zeta in *. cbn. rewrite H1.
  split; [apply (std_sort_sorted estimatedSavings) |].
  split; [apply std_sort_Permutation |]. done.
Qed.





End AnalyzerSuggestions.

(** ** Every build runs to completion *)

Ltac run_leaf _ :=
  lazymatch goal with
  | |- preserves _ _ => fail
  | |- disk_blind _ => intros ? ? (? & ? & ?); repeat split; cbn; done
  | |- _ =>
      intros ? (? & ? & ?); repeat case_match;
      (split; [| split]); cbn; repeat case_match; try done
  end.

Section RunInv.
Variables (config : BuildConfig) (R : list BuildResult).
Local Abbreviation J := (run_inv config R).

Lemma run_inv_logMessage msg e : preserves J (logMessage msg e).
Proof. unfold logMessage. pres run_leaf. Qed.

Lemma run_inv_cancelBuild : preserves J cancelBuild.
Proof. unfold cancelBuild. pres run_leaf. apply run_inv_logMessage. Qed.

Lemma run_inv_notifyProgress : preserves J notifyProgress.
Proof.
  intros s HJ. unfold notifyProgress.
  destruct (m_onProgressUpdate s) as [handler|]; [| done].
  destruct (handler (m_progress s)); [| by destruct HJ as (? & ? & ?)].
  apply run_inv_cancelBuild. by destruct HJ as (? & ? & ?).
Qed.

Lemma run_inv_updateProgress x task : preserves J (updateProgress x task).
Proof.
  unfold updateProgress. pres run_leaf. apply run_inv_notifyProgress.
Qed.

Lemma run_inv_beginStep name description :
  preserves J (beginStep name description).
Proof.
  unfold beginStep. pres run_leaf;
    [apply run_inv_logMessage | apply run_inv_updateProgress].
Qed.

Lemma run_inv_endStep ok msg : preserves J (endStep ok msg).
Proof. unfold endStep. pres run_leaf. apply run_inv_logMessage. Qed.

Lemma run_inv_push_error e : preserves J (push_error e).
Proof. unfold push_error. pres run_leaf. Qed.

Lemma run_inv_push_warning e : preserves J (push_warning e).
Proof. unfold push_warning. pres run_leaf. Qed.
End RunInv.

Ltac run_prim _ :=
  lazymatch goal with
  | |- preserves _ (logMessage _ _) => apply run_inv_logMessage
  | |- preserves _ (updateProgress _ _) => apply run_inv_updateProgress
  | |- preserves _ (beginStep _ _) => apply run_inv_beginStep
  | |- preserves _ (endStep _ _) => apply run_inv_endStep
  | |- preserves _ (push_error _) => apply run_inv_push_error
  | |- preserves _ (push_warning _) => apply run_inv_push_warning
  | |- _ => run_leaf tt
  end.

Section RunStages.
Variables (config : BuildConfig) (R : list BuildResult).
Local Abbreviation J := (run_inv config R).

Lemma run_inv_prepareOutputDirectory : preserves J prepareOutputDirectory.
Proof. unfold prepareOutputDirectory. pres run_prim. Qed.

Lemma run_inv_compileBytecode p : preserves J (compileBytecode p).
Proof. unfold compileBytecode. pres run_prim. Qed.

Lemma run_inv_compileScripts : preserves J compileScripts.
Proof.
  unfold compileScripts. pres run_prim. all: try apply run_inv_compileBytecode.
Qed.

Lemma run_inv_processAssets : preserves J processAssets.
Proof.
  unfold processAssets, processImage, processAudio, processFont, processData.
  pres run_prim.
Qed.

Lemma run_inv_packResources : preserves J packResources.
Proof. unfold packResources. pres run_prim. Qed.

Lemma run_inv_generateExecutable : preserves J generateExecutable.
Proof.
  unfold generateExecutable, buildWindowsExecutable, buildLinuxExecutable,
    buildMacOSBundle.
  pres run_prim.
Qed.

Lemma run_inv_signAndFinalize : preserves J signAndFinalize.
Proof. unfold signAndFinalize. pres run_prim. Qed.

Lemma run_inv_guarded_stage stage st :
  preserves J stage -> preserves J (guarded_stage stage st).
Proof. intros H. unfold guarded_stage. pres run_prim. all: exact H. Qed.

Lemma run_inv_promote_staging d : preserves J (promote_staging d).
Proof. unfold promote_staging. pres run_prim. Qed.

Lemma run_inv_pipeline_stages : preserves J pipeline_stages.
Proof.
  unfold pipeline_stages. pres run_prim.
  all: first [ apply run_inv_prepareOutputDirectory
             | apply run_inv_guarded_stage
             | apply run_inv_promote_staging ].
  all: first [ apply run_inv_compileScripts | apply run_inv_processAssets
             | apply run_inv_packResources | apply run_inv_generateExecutable
             | apply run_inv_signAndFinalize ].
Qed.
End RunStages.

Lemma pipeline_finish_flags st s :
  wasSuccessful (m_progress s) = false ->
  let s' := (pipeline_finish st s).2 in
  m_buildInProgress s' = false
  /\ isRunning (m_progress s') = false
  /\ isComplete (m_progress s') = true
  /\ wasSuccessful (m_progress s') = result_success (m_lastResult s')
  /\ wasCancelled (m_progress s') = m_cancelRequested s
  /\ result_success (m_lastResult s') = st.1 && negb (m_cancelRequested s)
  /\ (m_cancelRequested s = true ->
      result_errorMessage (m_lastResult s') = "Build cancelled")
  /\ result_outputPath (m_lastResult s') = outputPath (m_config s)
  /\ resultReports s' = resultReports s ++ [m_lastResult s']
  /\ fs_exists (disk s') (stagingDirOf (m_config s)) = false.
Proof.
  intros Hw. destruct st as [success errorMessage].
  pose proof (stagingDirOf_not_root (m_config s)) as Hroot.
  unfold pipeline_finish, cleanup, bind, gets, modify, ret.
  cbn. rewrite Hw. cbn. set (stg := stagingDirOf (m_config s)) in *.
  destruct (fs_exists (disk s) stg) eqn:He; cbn;
    repeat (split; [by repeat case_match |]);
    repeat (split; [intros ->; by repeat case_match |]);
    repeat (split; [by repeat case_match |]);
    first [by apply fs_exists_remove_all | done].
Qed.

(** X10 (every build completes).  Once [startBuild] has accepted a
    configuration, the pipeline always runs to its end, whatever the stages
    do (error, exception or cancellation): the build is no longer in
    progress, [isRunning] is false and [isComplete] true, [wasSuccessful]
    equals the [success] of the result, [wasCancelled] tells whether
    cancellation was requested (and then the error message is "Build
    cancelled"), the completion callback has received exactly one result,
    the one kept in [m_lastResult], and no staging directory is left
    behind. *)
Theorem build_always_completes config s0 :
  (build config s0).1 = Ok tt ->
  let s := (build config s0).2 in
  m_buildInProgress s = false
  /\ isRunning (m_progress s) = false
  /\ isComplete (m_progress s) = true
  /\ wasSuccessful (m_progress s) = result_success (m_lastResult s)
  /\ (wasCancelled (m_progress s) = true ->
      result_success (m_lastResult s) = false
      /\ result_errorMessage (m_lastResult s) = "Build cancelled")
  /\ result_outputPath (m_lastResult s) = outputPath config
  /\ resultReports s = resultReports s0 ++ [m_lastResult s]
  /\ fs_exists (disk s) (stagingDirOf config) = false.
Proof.
  intros Hok. cbv zeta. unfold build in *.
  destruct (startBuild config s0) as [[[]|e] s1] eqn:Hs; [| done].
  assert (resultReports s1 = resultReports s0) as HR.
  { unfold startBuild in Hs. repeat case_match; try done. by injection Hs as <-. }
  apply startBuild_ok in Hs as (Hb & Hc & Hcfg & Hcb1 & Hr1 & Hp1).
  cbn [fst snd] in *. unfold runBuildPipeline, bind in *.
  assert (run_inv config (resultReports s0) s1) as HJ.
  { repeat split; try done. by rewrite Hp1. }
  apply run_inv_pipeline_stages in HJ.
  destruct (pipeline_stages_returns s1) as [st Hst].
  destruct (pipeline_stages s1) as [o s2]. simpl in Hst, HJ. subst o.
  destruct HJ as (Hcfg2 & Hw2 & HR2).
  destruct (pipeline_finish_flags st s2 Hw2)
    as (H1 & H2 & H3 & H4 & H5 & H6 & H7 & H8 & H9 & H10).
  rewrite Hcfg2, HR2 in *.
  repeat (split; [done |]).
  split; [| done].
  rewrite H5. intros Hc2. rewrite H6, Hc2, andb_false_r. split; [done | by apply H7].
Qed.

Lemma build_always_completes_witness :
  let s := (build config_example
              (BS_new fs_project_example 42 (Some never_cancel))).2 in
  m_buildInProgress s = false
  /\ isComplete (m_progress s) = true
  /\ length (resultReports s) = 1%nat.
Proof.
  intros s.
  destruct (build_always_completes config_example
              (BS_new fs_project_example 42 (Some never_cancel)))
    as (H1 & H2 & H3 & H4 & H5 & H6 & H7 & H8).
  - vm_compute. reflexivity.
  - split; [exact H1 | split; [exact H3 |]].
    subst s. rewrite H7. reflexivity.
Defined.


(** ** The promotion of the staging tree *)

Lemma keeps_refl d : keeps d d.
Proof. by intros p. Qed.

Lemma keeps_trans d1 d2 d3 : keeps d1 d2 -> keeps d2 d3 -> keeps d1 d3.
Proof. intros H1 H2 p Hp. by apply H2, H1. Qed.

Lemma fs_exists_insert d q n p :
  fs_exists d p = true -> fs_exists (<[q := n]> d) p = true.
Proof.
  unfold fs_exists. destruct p as [|c p]; [done |].
  intros [H|H]%orb_prop; apply orb_true_intro; [left | by right].
  apply bool_decide_eq_true in H. apply bool_decide_eq_true.
  rewrite lookup_insert_is_Some. destruct (decide (q = String c p)); auto.
Qed.

Lemma keeps_insert d q n : keeps d (<[q := n]> d).
Proof. intros p. apply fs_exists_insert. Qed.

Lemma keeps_write_file d q c : keeps d (write_file d q c).
Proof. apply keeps_insert. Qed.

Lemma create_directories_fold_None l :
  foldl (fun acc q =>
           fs' ← acc;
           match fs' !! q with
           | Some (File _) => None
           | Some Dir => Some fs'
           | None => Some (<[q := Dir]> fs')
           end) None l = (None : option FS).
Proof. induction l; simpl; auto. Qed.

Lemma create_directories_fold_keeps l d d' :
  foldl (fun acc q =>
           fs' ← acc;
           match fs' !! q with
           | Some (File _) => None
           | Some Dir => Some fs'
           | None => Some (<[q := Dir]> fs')
           end) (Some d) l = Some d' ->
  keeps d d'
  /\ (forall q, d !! q = Some Dir -> d' !! q = Some Dir)
  /\ (forall q, q ∈ l -> d' !! q = Some Dir).
Proof.
  revert d. induction l as [|q l IH]; intros d; simpl.
  - intros [= <-]. split; [apply keeps_refl |]. split; [done |].
    by intros ? ?%elem_of_nil.
  - destruct (d !! q) as [[content|]|] eqn:E; simpl.
    + by rewrite create_directories_fold_None.
    + intros H. destruct (IH _ H) as (Hk & Hdir & Hd).
      split; [done |]. split; [done |].
      intros q' [->|Hq']%elem_of_cons; [by apply Hdir | by apply Hd].
    + intros H. destruct (IH _ H) as (Hk & Hdir & Hd).
      split; [eapply keeps_trans; [apply keeps_insert | done] |].
      split.
      * intros q' Hq'. apply Hdir. rewrite lookup_insert_ne; [done |].
        intros ->. congruence.
      * intros q' [->|Hq']%elem_of_cons; [| by apply Hd].
        apply Hdir. by rewrite lookup_insert_eq.
Qed.

Lemma create_directories_keeps d p d' :
  create_directories d p = Some d' -> keeps d d'.
Proof. intros H. by apply create_directories_fold_keeps in H as (? & _). Qed.

Lemma string_app_cons x a b : String x a +:+ b = String x (a +:+ b).
Proof. done. Qed.

Lemma string_app_assoc a b c : (a +:+ b) +:+ c = a +:+ (b +:+ c).
Proof.
  induction a as [|x a IH]; [done |]. by rewrite !string_app_cons, IH.
Qed.

Lemma string_app_nil_r a : a +:+ "" = a.
Proof. induction a as [|x a IH]; [done |]. by rewrite string_app_cons, IH. Qed.

Lemma path_prefixes_aux_mid pre a b :
  pre +:+ a ∈ path_prefixes_aux pre (a +:+ "/" +:+ b).
Proof.
  revert pre. induction a as [|c a IH]; intros pre.
  - rewrite string_app_nil_r. change ("" +:+ "/" +:+ b) with (String "/" b).
    cbn [path_prefixes_aux is_slash Ascii.eqb Bool.eqb]. by left.
  - rewrite string_app_cons. cbn [path_prefixes_aux].
    replace (pre +:+ String c a) with ((pre +:+ String c "") +:+ a)
      by (by rewrite string_app_assoc).
    destruct (is_slash c) eqn:Hc.
    + right. apply Ascii.eqb_eq in Hc as ->. apply IH.
    + apply IH.
Qed.

Lemma prefix_app a b : String.prefix a (a +:+ b) = true.
Proof.
  induction a as [|c a IH]; [by destruct b |].
  rewrite string_app_cons. cbn [String.prefix].
  destruct (ascii_dec c c); [done | done].
Qed.

Section Staging.
Variable config : BuildConfig.
Hypothesis Hne : outputPath config <> "".
Hypothesis Hslash : ends_with_slash (outputPath config) = false.

Lemma stagingDirOf_eq :
  stagingDirOf config = outputPath config +:+ "/" +:+ ".staging".
Proof.
  unfold stagingDirOf, path_join. cbn [is_absolute is_slash Ascii.eqb Bool.eqb].
  rewrite Hslash. by destruct (outputPath config).
Qed.

Lemma stagingDirOf_under :
  under (outputPath config) (stagingDirOf config) = true.
Proof.
  unfold under. rewrite Hslash, stagingDirOf_eq.
  rewrite <- string_app_assoc, prefix_app. apply orb_true_r.
Qed.

Lemma stagingDirOf_neq : String.eqb (outputPath config) (stagingDirOf config) = false.
Proof.
  apply String.eqb_neq. rewrite stagingDirOf_eq. intros H.
  apply (f_equal String.length) in H.
  rewrite !string_length_app in H. simpl in H. lia.
Qed.

Lemma create_staging_creates_output d d' :
  create_directories d (stagingDirOf config) = Some d' ->
  fs_exists d' (outputPath config) = true.
Proof.
  intros H. apply create_directories_fold_keeps in H as (_ & _ & H).
  assert (d' !! outputPath config = Some Dir) as Hd.
  { apply H. unfold path_prefixes. apply list_elem_of_filter. split; [done |].
    rewrite stagingDirOf_eq.
    apply (path_prefixes_aux_mid "" (outputPath config) ".staging"). }
  unfold fs_exists. destruct (outputPath config); [done |].
  rewrite Hd. done.
Qed.
End Staging.

(** *** What the stages do to the disk *)

Lemma copy_file_keeps d a b d' : copy_file d a b = Some d' -> keeps d d'.
Proof.
  unfold copy_file. destruct (read_file d a); [| done].
  destruct (can_open_write d b); [| done]. intros [= <-]. apply keeps_write_file.
Qed.

Lemma copy_tree_keeps d a b d' : copy_tree d a b = Some d' -> keeps d d'.
Proof.
  unfold copy_tree. destruct (_ && _); [| done]. intros [= <-].
  generalize (map_to_list d). intros l.
  assert (forall acc, keeps d acc ->
            keeps d (foldl (fun acc kv =>
                       match strip_prefix a kv.1 with
                       | Some rest =>
                           if under a kv.1 then <[b +:+ rest := kv.2]> acc
                           else acc
                       | None => acc
                       end) acc l)) as H.
  { induction l as [|kv l IH]; intros acc Hacc; simpl; [done |].
    apply IH. destruct (strip_prefix a kv.1); [| done].
    destruct (under a kv.1); [| done].
    eapply keeps_trans; [exact Hacc | apply keeps_insert]. }
  apply H, keeps_refl.
Qed.

Lemma buildPack_keeps now d out files e c :
  keeps d (buildPack now d out files e c).2.
Proof.
  unfold buildPack. destruct (negb _); [apply keeps_refl |].
  cbv zeta. destruct (build_string_table files 0) as [ids offs].
  destruct (write_resource_table _ _ _ _ _) as [[what o]|[x o]]; cbn [snd];
    (eapply keeps_trans; [apply keeps_write_file | apply keeps_write_file]).
Qed.

Section OutputInv.
Variable config : BuildConfig.
Local Abbreviation J := (output_inv config).

Lemma output_inv_keeps s d :
  J s -> keeps (disk s) d -> J (set_disk d s).
Proof. intros [Hc He] Hk. split; [done |]. cbn. by apply Hk. Qed.

Lemma output_inv_fs_try op path f :
  (forall d d', f d = Some d' -> keeps d d') -> preserves J (fs_try op path f).
Proof.
  intros Hf s Hs. unfold fs_try. destruct (f (disk s)) eqn:E; [| done].
  cbn. apply output_inv_keeps; [done |]. by eapply Hf.
Qed.

Lemma output_inv_mkdirs path : preserves J (mkdirs path).
Proof. apply output_inv_fs_try. intros d d'. apply create_directories_keeps. Qed.

Lemma output_inv_write_text path content : preserves J (write_text path content).
Proof.
  apply preserves_modify. intros s Hs. destruct (can_open_write _ _); [| done].
  apply output_inv_keeps; [done | apply keeps_write_file].
Qed.

Lemma output_inv_process_copy a b : preserves J (process_copy a b).
Proof.
  intros s Hs. unfold process_copy. destruct (copy_file _ _ _) eqn:E; [| done].
  cbn. apply output_inv_keeps; [done |]. by eapply copy_file_keeps.
Qed.

Lemma output_inv_buildPack_m out files e c :
  preserves J (buildPack_m out files e c).
Proof.
  intros s Hs. unfold buildPack_m.
  pose proof (buildPack_keeps (clock s) (disk s) out files e c) as Hk.
  destruct (buildPack _ _ _ _ _ _) as [r d]. cbn in *.
  by apply output_inv_keeps.
Qed.
End OutputInv.

Ltac out_leaf _ :=
  lazymatch goal with
  | |- preserves _ _ => fail
  | |- disk_blind _ => fail
  | |- _ =>
      intros ? (? & ?); repeat case_match;
      (split; [| first [done | by apply fs_exists_insert]]); cbn;
      repeat case_match; try done
  end.

Ltac out_disk :=
  first [ apply output_inv_mkdirs | apply output_inv_write_text
        | apply output_inv_process_copy | apply output_inv_buildPack_m
        | (apply output_inv_fs_try; intros ? ?; apply copy_tree_keeps) ].

Section OutputPrims.
Variable config : BuildConfig.
Local Abbreviation J := (output_inv config).

Lemma output_inv_logMessage msg e : preserves J (logMessage msg e).
Proof. unfold logMessage. pres out_leaf. Qed.

Lemma output_inv_cancelBuild : preserves J cancelBuild.
Proof. unfold cancelBuild. pres out_leaf. apply output_inv_logMessage. Qed.

Lemma output_inv_notifyProgress : preserves J notifyProgress.
Proof.
  intros s HJ. unfold notifyProgress.
  destruct (m_onProgressUpdate s) as [handler|]; [| done].
  destruct (handler (m_progress s)); [| by destruct HJ as (? & ?)].
  apply output_inv_cancelBuild. by destruct HJ as (? & ?).
Qed.

Lemma output_inv_updateProgress x task : preserves J (updateProgress x task).
Proof.
  unfold updateProgress. pres out_leaf. apply output_inv_notifyProgress.
Qed.

Lemma output_inv_beginStep name description :
  preserves J (beginStep name description).
Proof.
  unfold beginStep. pres out_leaf;
    [apply output_inv_logMessage | apply output_inv_updateProgress].
Qed.

Lemma output_inv_endStep ok msg : preserves J (endStep ok msg).
Proof. unfold endStep. pres out_leaf. apply output_inv_logMessage. Qed.

Lemma output_inv_push_error e : preserves J (push_error e).
Proof. unfold push_error. pres out_leaf. Qed.

Lemma output_inv_push_warning e : preserves J (push_warning e).
Proof. unfold push_warning. pres out_leaf. Qed.
End OutputPrims.

Ltac out_prim _ :=
  lazymatch goal with
  | |- preserves _ (logMessage _ _) => apply output_inv_logMessage
  | |- preserves _ (updateProgress _ _) => apply output_inv_updateProgress
  | |- preserves _ (beginStep _ _) => apply output_inv_beginStep
  | |- preserves _ (endStep _ _) => apply output_inv_endStep
  | |- preserves _ (push_error _) => apply output_inv_push_error
  | |- preserves _ (push_warning _) => apply output_inv_push_warning
  | |- _ => out_leaf tt
  end.

Section OutputStages.
Variable config : BuildConfig.
Local Abbreviation J := (output_inv config).

Lemma output_inv_prepareOutputDirectory : preserves J prepareOutputDirectory.
Proof. unfold prepareOutputDirectory. pres out_prim. all: out_disk. Qed.

Lemma output_inv_compileBytecode p : preserves J (compileBytecode p).
Proof. unfold compileBytecode. pres out_prim. Qed.

Lemma output_inv_compileScripts : preserves J compileScripts.
Proof.
  unfold compileScripts. pres out_prim.
  all: first [apply output_inv_compileBytecode | out_disk].
Qed.

Lemma output_inv_processAssets : preserves J processAssets.
Proof.
  unfold processAssets, processImage, processAudio, processFont, processData.
  pres out_prim. all: out_disk.
Qed.

Lemma output_inv_packResources : preserves J packResources.
Proof. unfold packResources. pres out_prim. all: out_disk. Qed.

Lemma output_inv_generateExecutable : preserves J generateExecutable.
Proof.
  unfold generateExecutable, buildWindowsExecutable, buildLinuxExecutable,
    buildMacOSBundle.
  pres out_prim. all: out_disk.
Qed.

Lemma output_inv_signAndFinalize : preserves J signAndFinalize.
Proof. unfold signAndFinalize. pres out_prim. Qed.

Lemma output_inv_guarded_stage stage st :
  preserves J stage -> preserves J (guarded_stage stage st).
Proof. intros H. unfold guarded_stage. pres out_prim. all: exact H. Qed.
End OutputStages.

(** The promotion never gets through: removing the output directory takes
    the staging directory with it, and the iteration over the staging
    directory throws. *)
Lemma promote_staging_throws config s :
  ends_with_slash (outputPath config) = false ->
  output_inv config s ->
  exists w, (promote_staging (stagingDirOf config) s).1 = Throw w.
Proof.
  intros Hslash [Hcfg Hex].
  assert (outputPath config <> "") as Hne.
  { intros H. rewrite H in Hex. done. }
  unfold promote_staging, bind, gets. rewrite Hcfg.
  set (out := outputPath config) in *.
  set (pre := if has_slash out && negb (String.eqb (parent_path out) "")
              then mkdirs (parent_path out) else ret tt).
  assert (preserves (output_inv config) pre) as Hpre.
  { subst pre. destruct (_ && _); [apply output_inv_mkdirs | apply preserves_ret]. }
  specialize (Hpre s (conj Hcfg Hex)).
  destruct (pre s) as [[[]|w] s1]; [| by eexists].
  destruct Hpre as [Hcfg1 Hex1]. cbn in Hex1. fold out in Hex1.
  pose proof (stagingDirOf_neq config Hne Hslash) as Hneq. fold out in Hneq.
  rewrite Hex1, Hneq. cbn [andb negb].
  unfold modify at 1. cbn.
  unfold iterate_directory, list_directory. cbn.
  assert (is_directory (remove_all (disk s1) out) (stagingDirOf config) = false)
    as ->; [| by eexists].
  unfold is_directory.
  rewrite lookup_remove_all_under by (by apply stagingDirOf_under).
  pose proof (stagingDirOf_not_root config) as Hroot.
  apply String.eqb_neq in Hroot. rewrite Hroot.
  rewrite (stagingDirOf_eq config Hne Hslash).
  fold out. destruct out; done.
Qed.

Lemma bind_post {A B} (J : BS -> Prop) (Q : outcome B * BS -> Prop)
    (m : M A) (k : A -> M B) s :
  (forall w s', Q (Throw w, s')) ->
  preserves J m ->
  (forall a s', J s' -> Q (k a s')) ->
  J s -> Q (bind m k s).
Proof.
  intros HT Hm Hk Hs. unfold bind. specialize (Hm s Hs).
  destruct (m s) as [[a|w] s']; [by apply Hk | apply HT].
Qed.

Lemma pipeline_stages_never_promotes config s :
  ends_with_slash (outputPath config) = false ->
  outputPath config <> "" ->
  m_config s = config ->
  match pipeline_stages s with
  | (Val st, s') => st.1 = false \/ m_cancelRequested s' = true
  | (Throw _, _) => False
  end.
Proof.
  intros Hslash Hne Hcfg.
  set (Q := fun r : outcome (bool * string) * BS =>
              match r.1 with
              | Val st => st.1 = false \/ m_cancelRequested r.2 = true
              | Throw _ => True
              end).
  unfold pipeline_stages. unfold bind at 1, gets at 1. rewrite Hcfg.
  match goal with
  | |- context [try_catch ?body ?h] => assert (Q (body s)) as HQ
  end.
  { unfold bind at 1, gets at 1.
    set (s1 := ((if fs_exists (disk s) (stagingDirOf config)
                 then modify (set_disk (remove_all (disk s) (stagingDirOf config)))
                 else ret tt) s).2).
    assert (m_config s1 = config) as Hcfg1.
    { subst s1. by destruct (fs_exists _ _). }
    unfold bind at 1.
    replace ((if fs_exists (disk s) (stagingDirOf config)
              then modify (set_disk (remove_all (disk s) (stagingDirOf config)))
              else ret tt) s)
      with (Val tt, s1) by (subst s1; by destruct (fs_exists _ _)).
    unfold bind at 1, mkdirs at 1, fs_try at 1.
    destruct (create_directories (disk s1) (stagingDirOf config)) as [d2|] eqn:Hmk;
      [| done].
    assert (output_inv config (set_disk d2 s1)) as HJ.
    { split; [done |]. cbn.
      by apply (create_staging_creates_output config Hne Hslash (disk s1)). }
    revert HJ. generalize (set_disk d2 s1). clear -Hslash. intros s HJ.
    apply (bind_post (output_inv config) Q); [done | apply preserves_gets | | done].
    intros cancelled0 s0 HJ0.
    apply (bind_post (output_inv config) Q); [done | | | done].
    { destruct (negb cancelled0); [| apply preserves_ret].
      apply preserves_bind; [apply output_inv_prepareOutputDirectory |].
      intros [?|?]; apply preserves_ret. }
    clear -Hslash. intros st s HJ.
    apply (bind_post (output_inv config) Q);
      [done | apply output_inv_guarded_stage, output_inv_compileScripts | | done].
    clear -Hslash. intros st s HJ.
    apply (bind_post (output_inv config) Q);
      [done | apply output_inv_guarded_stage, output_inv_processAssets | | done].
    clear -Hslash. intros st s HJ.
    apply (bind_post (output_inv config) Q);
      [done | apply output_inv_guarded_stage, output_inv_packResources | | done].
    clear -Hslash. intros st s HJ.
    apply (bind_post (output_inv config) Q);
      [done | apply output_inv_guarded_stage, output_inv_generateExecutable | | done].
    clear -Hslash. intros st s HJ.
    apply (bind_post (output_inv config) Q);
      [done | apply output_inv_guarded_stage, output_inv_signAndFinalize | | done].
    clear -Hslash. intros st s HJ.
    unfold bind at 1, gets at 1.
    destruct (st.1 && negb (m_cancelRequested s)) eqn:Hgo.
    - destruct (promote_staging_throws config s Hslash HJ) as [w Hw].
      unfold bind. destruct (promote_staging _ s) as [o s']. cbn in Hw. subst o.
      done.
    - unfold bind, ret. cbn. unfold Q. cbn.
      destruct st.1, (m_cancelRequested s); auto. }
  unfold try_catch. revert HQ.
  match goal with
  | |- Q ?b -> _ => destruct b as [[st|w] s']
  end; intros HQ; cbn; [exact HQ | by left].
Qed.

(** X11 (no build reports success).  For an output path that is not empty and
    does not end in a separator, a build that [startBuild] accepted never
    ends with [success]: either a stage fails or is cancelled, or the
    promotion removes the output directory, the staging directory inside
    it is gone with it, and iterating over the staging directory throws,
    which the pipeline reports as a build exception. *)
Theorem build_never_succeeds config s0 :
  ends_with_slash (outputPath config) = false ->
  (build config s0).1 = Ok tt ->
  result_success (m_lastResult (build config s0).2) = false
  /\ wasSuccessful (m_progress (build config s0).2) = false.
Proof.
  intros Hslash Hok. unfold build in *.
  destruct (startBuild config s0) as [[[]|e] s1] eqn:Hs; [| done].
  assert (outputPath config <> "") as Hne.
  { unfold startBuild in Hs. repeat case_match; try done.
    by apply String.eqb_neq. }
  apply startBuild_ok in Hs as (Hb & Hc & Hcfg & Hcb1 & Hr1 & Hp1).
  cbn [fst snd] in *. unfold runBuildPipeline, bind.
  assert (run_inv config (resultReports s1) s1) as HJ.
  { repeat split; try done. by rewrite Hp1. }
  apply run_inv_pipeline_stages in HJ.
  pose proof (pipeline_stages_never_promotes config s1 Hslash Hne Hcfg) as Hfail.
  destruct (pipeline_stages s1) as [[st|w] s2]; [| done]. simpl in HJ.
  destruct HJ as (Hcfg2 & Hw2 & HR2).
  destruct (pipeline_finish_flags st s2 Hw2)
    as (H1 & H2 & H3 & H4 & H5 & H6 & _).
  rewrite H4, H6. destruct Hfail as [-> | ->]; [done |].
  by rewrite andb_false_r.
Qed.

Lemma build_never_succeeds_witness :
  result_success
    (m_lastResult
       (build config_example
          (BS_new fs_project_example 42 (Some never_cancel))).2) = false.
Proof.
  apply (build_never_succeeds config_example
           (BS_new fs_project_example 42 (Some never_cancel))).
  - reflexivity.
  - vm_compute. reflexivity.
Defined.

(** ** The progress invariant through the primitives *)

Lemma fmap_alter_same {A B} (g : A -> B) (f : A -> A) i (l : list A) :
  (forall x, g (f x) = g x) -> g <$> alter f i l = g <$> l.
Proof.
  intros H. apply list_eq. intros j. rewrite !list_lookup_fmap.
  rewrite list_lookup_alter.
  destruct (decide (i = j)) as [->|]; [| done].
  destruct (l !! j); simpl; [f_equal; apply H | done].
Qed.

Lemma fmap_insert_same {A B} (g : A -> B) i y x (l : list A) :
  l !! i = Some x -> g y = g x -> g <$> <[i:=y]> l = g <$> l.
Proof.
  intros Hi Hg. rewrite list_fmap_insert, Hg.
  apply list_insert_id. by rewrite list_lookup_fmap, Hi.
Qed.

Lemma find_step_names name (l l' : list BuildStep) k :
  step_name <$> l = step_name <$> l' -> find_step name l k = find_step name l' k.
Proof.
  revert l' k. induction l as [|x l IH]; intros [|x' l'] k H; simpl in *; try done.
  injection H as Hx Hl. rewrite Hx. destruct (String.eqb _ _); [done | by apply IH].
Qed.

Lemma StronglySorted_snoc (l : list Z) v :
  StronglySorted Z.le l -> Forall (fun x => x <= v) l ->
  StronglySorted Z.le (l ++ [v]).
Proof.
  induction 1 as [|x l Hs IH Hx]; intros Hf; simpl.
  - repeat constructor.
  - apply Forall_cons in Hf as [Hxv Hf]. constructor; [by apply IH |].
    apply Forall_app. split; [done | by constructor].
Qed.

Ltac prog_leaf _ :=
  lazymatch goal with
  | |- preserves _ _ => fail
  | |- disk_blind _ => let H := fresh in intros ? ? H; exact H
  | |- _ =>
      let H := fresh in
      intros ? H; unfold K, W, new_progress in *; cbn;
      repeat case_match; cbn; exact H
  end.

Section ProgressPrims.
Variable n0 : nat.

Lemma W_logMessage b msg e : preserves (W n0 b) (logMessage msg e).
Proof. unfold logMessage. pres prog_leaf. Qed.

Lemma K_logMessage i b msg e : preserves (K n0 i b) (logMessage msg e).
Proof. unfold logMessage. pres prog_leaf. Qed.

Lemma W_cancelBuild b : preserves (W n0 b) cancelBuild.
Proof. unfold cancelBuild. pres prog_leaf. apply W_logMessage. Qed.

Lemma K_cancelBuild i b : preserves (K n0 i b) cancelBuild.
Proof. unfold cancelBuild. pres prog_leaf. apply K_logMessage. Qed.

Lemma W_push_error b e : preserves (W n0 b) (push_error e).
Proof. unfold push_error. pres prog_leaf. Qed.

Lemma K_push_error i b e : preserves (K n0 i b) (push_error e).
Proof. unfold push_error. pres prog_leaf. Qed.

Lemma W_push_warning b e : preserves (W n0 b) (push_warning e).
Proof. unfold push_warning. pres prog_leaf. Qed.

Lemma K_push_warning i b e : preserves (K n0 i b) (push_warning e).
Proof. unfold push_warning. pres prog_leaf. Qed.

Lemma W_endStep_modify b ok msg s :
  W n0 b s ->
  W n0 b
    (let p := m_progress s in
     let idx := currentStepIndex p in
     if Z.leb 0 idx && Z.ltb idx (Z.of_nat (length (steps p)))
     then match steps p !! Z.to_nat idx with
          | Some step =>
              let step := step_set_completed true step in
              let step := step_set_success ok step in
              let step := step_set_errorMessage msg step in
              let s := on_progress
                         (progress_set_steps
                            (<[Z.to_nat idx := step]> (steps p))) s in
              set_stepReports (stepReports s ++ [step]) s
          | None => s
          end
     else s).
Proof.
  intros HW. cbv zeta. destruct (_ && _); [| done].
  destruct (steps (m_progress s) !! _) as [step|] eqn:Hst; [| done].
  destruct HW as (Hw & Hn & Hs & Hf & Hb).
  unfold W, new_progress. cbn.
  rewrite !(fmap_insert_same _ _ _ step) by done. done.
Qed.

Lemma W_endStep b ok msg : preserves (W n0 b) (endStep ok msg).
Proof.
  unfold endStep. apply preserves_bind.
  - apply preserves_modify. intros s. apply W_endStep_modify.
  - intros _. destruct (negb ok); [apply W_logMessage | apply preserves_ret].
Qed.

Lemma K_endStep i b ok msg : preserves (K n0 i b) (endStep ok msg).
Proof.
  unfold endStep. apply preserves_bind.
  - apply preserves_modify. intros s [HW Hi]. split.
    + by apply W_endStep_modify.
    + cbv zeta. repeat case_match; exact Hi.
  - intros _. destruct (negb ok); [apply K_logMessage | apply preserves_ret].
Qed.

(** [updateProgress] in step [i] reports [prog i y]. *)
Lemma K_updateProgress i b y task s :
  K n0 i b s -> b <= prog i y -> prog i y <= prog_top ->
  (updateProgress y task s).1 = Val tt
  /\ K n0 i (prog i y) (updateProgress y task s).2.
Proof.
  intros ((Hw & Hn & Hs & Hf & Hb) & Hi & Hi6) Hby Hyt.
  unfold updateProgress, bind, modify, on_progress. cbn.
  assert (length (steps (m_progress s)) = 6%nat) as Hlen.
  { apply (f_equal length) in Hw. by rewrite !length_fmap in Hw. }
  rewrite Hi, Hlen.
  replace (Z.leb 0 (Z.of_nat i) && Z.ltb (Z.of_nat i) (Z.of_nat 6)) with true
    by (symmetry; apply andb_true_intro; split; [apply Z.leb_le | apply Z.ltb_lt]; lia).
  rewrite Nat2Z.id.
  assert (f32_add (completedWeight (steps (m_progress s)) (Z.of_nat i))
            (f32_mul (default 0 (progressWeight <$> steps (m_progress s) !! i)) y)
          = prog i y) as Hprog.
  { unfold prog, step_weight, completedWeight.
    rewrite <- !list_lookup_fmap, !fmap_take, Hw. done. }
  rewrite Hprog. clear Hprog.
  unfold notifyProgress. cbn.
  assert (Forall (fun v => v <= prog i y) (new_progress n0 s)) as Hf'.
  { eapply Forall_impl; [exact Hf |]. simpl. lia. }
  destruct (m_onProgressUpdate s) as [handler|]; cbn.
  - set (p := progress_set_currentTask task _).
    set (s1 := set_progressReports _ _).
    assert (K n0 i (prog i y) s1) as HK.
    { subst s1 p. unfold K, W, new_progress in *. cbn.
      rewrite drop_app, fmap_app.
      repeat split; try done.
      - destruct (drop (n0 - length (progressReports s)) _) as [|q [|]] eqn:Hd;
          cbn.
        + by rewrite app_nil_r.
        + assert (q = progress_set_currentTask task
                        (progress_set_progress (prog i y) (m_progress s))) as ->.
          { apply (f_equal (fun l => l !! 0%nat)) in Hd. rewrite lookup_drop in Hd.
            destruct (n0 - length (progressReports s))%nat; simpl in Hd; [| done].
            by injection Hd. }
          cbn. by apply StronglySorted_snoc.
        + apply (f_equal length) in Hd. rewrite length_drop in Hd. simpl in Hd. lia.
      - apply Forall_app. split; [done |].
        apply Forall_fmap, Forall_forall. intros q Hq%elem_of_drop_inv.
        apply list_elem_of_singleton in Hq as ->. cbn. lia. }
    destruct (handler p).
    + pose proof (K_cancelBuild i (prog i y) s1 HK) as HK'.
      split; [| exact HK'].
      unfold cancelBuild, bind, gets, modify, logMessage. cbn.
      destruct (m_buildInProgress s); reflexivity.
    + done.
  - split; [done |]. unfold K, W, new_progress in *. cbn. done.
Qed.

Lemma triple_updateProgress i b y task :
  b <= prog i y -> prog i y <= prog_top ->
  triple n0 (K n0 i b) (updateProgress y task) (fun _ => K n0 i (prog i y)).
Proof.
  intros Hb Ht s Hs. destruct (K_updateProgress i b y task s Hs Hb Ht) as [E HK].
  by rewrite E.
Qed.

Lemma triple_beginStep name description j b :
  find_step name initial_steps 0 = Some j -> (j < 6)%nat ->
  b <= prog j 0 -> prog j 0 <= prog_top ->
  triple n0 (W n0 b) (beginStep name description)
         (fun _ => K n0 j (prog j 0)).
Proof.
  intros Hfind Hj Hb Ht. unfold beginStep.
  apply (triple_bind n0 _ _ _ (fun _ => K n0 j b)).
  - intros s (Hw & Hn & Hs & Hf & Hbt). unfold modify, on_progress. cbn.
    rewrite (find_step_names name _ initial_steps 0 Hn), Hfind.
    unfold K, W, new_progress. cbn.
    rewrite !fmap_alter_same by done. done.
  - intros ?. apply (triple_bind n0 _ _ _ (fun _ => K n0 j b)).
    + apply triple_frame; [apply K_logMessage | apply K_top].
    + intros ?. by apply triple_updateProgress.
Qed.
End ProgressPrims.

(** ** The arithmetic of the reported values *)

Lemma step_weight_nonneg i : 0 <= step_weight i.
Proof.
  unfold step_weight.
  do 6 (destruct i as [|i]; [by vm_compute |]). by vm_compute.
Qed.

Lemma completedWeight_nonneg i : 0 <= completedWeight initial_steps (Z.of_nat i).
Proof.
  unfold completedWeight. rewrite Nat2Z.id.
  do 6 (destruct i as [|i]; [by vm_compute |]).
  rewrite take_ge by (simpl; lia). by vm_compute.
Qed.

Lemma prog_mono i y y' : 0 <= y -> y <= y' -> prog i y <= prog i y'.
Proof.
  intros Hy Hyy. unfold prog.
  pose proof (step_weight_nonneg i). pose proof (completedWeight_nonneg i).
  apply f32_add_mono; [done | by apply f32_mul_nonneg | lia |].
  by apply f32_mul_mono.
Qed.

Lemma prog_le_top i y :
  (i < 6)%nat -> 0 <= y -> y <= f32_one_units -> prog i y <= prog_top.
Proof.
  intros Hi Hy Hy1. etrans; [by apply prog_mono |].
  do 6 (destruct i as [|i]; [by vm_compute |]). lia.
Qed.

(** A stage starts where the one before it ends. *)
Lemma prog_next i : (i < 5)%nat -> prog i f32_one_units <= prog (S i) 0.
Proof.
  intros Hi. do 5 (destruct i as [|i]; [by vm_compute |]). lia.
Qed.

Lemma prog_top_one : prog_top = f32_one_units.
Proof. by vm_compute. Qed.

Lemma f32_div_zero b : 0 < b -> f32_div 0 b = 0.
Proof.
  intros Hb. unfold f32_div, round_f32, round_pos.
  change (0 * f32_one_units) with 0. rewrite Zdiv_0_l.
  change (Z.max 0 (Z.log2 0 - 23)) with 0. change (2 ^ 0) with 1.
  rewrite !Z.mul_1_r. unfold rne. change (- 0) with 0.
  rewrite !Zdiv_0_l, !Zmod_0_l. change (2 * 0) with 0.
  destruct (Z.ltb_spec 0 b); [done | lia].
Qed.

Lemma f32_mul_zero a : f32_mul a 0 = 0.
Proof.
  unfold f32_mul. rewrite Z.mul_0_r. by vm_compute.
Qed.

Lemma f32_of_int_zero : f32_of_int 0 = 0.
Proof. by vm_compute. Qed.

(** Rounding a value of at least 2^23 units moves it by at most one part
    in 2^23. *)
Lemma round_pos_rel n d :
  0 < d -> 2 ^ 23 * d <= n ->
  round_pos n d * d * 2 ^ 23 <= n * (2 ^ 23 + 1).
Proof.
  intros Hd Hn. unfold round_pos.
  assert (2 ^ 23 <= n / d) as Hq by (apply Z.div_le_lower_bound; lia).
  set (e := Z.max 0 (Z.log2 (n / d) - 23)).
  assert (0 <= e) as He by (subst e; lia).
  assert (0 < 2 ^ e) as Hpe by (apply Z.pow_pos_nonneg; lia).
  (* the spacing is at most the value over 2^23 *)
  assert (2 ^ e * 2 ^ 23 <= n / d) as Hsp.
  { rewrite <- Z.pow_add_r by lia.
    etrans; [| apply (Z.log2_spec (n / d)); lia].
    apply Z.pow_le_mono_r; [lia |]. subst e.
    assert (23 <= Z.log2 (n / d)); [| lia].
    change 23 with (Z.log2 (2 ^ 23)). by apply Z.log2_le_mono. }
  pose proof (rne_upper n (d * 2 ^ e) ltac:(nia)) as Hr.
  pose proof (Z.mul_div_le n (d * 2 ^ e) ltac:(nia)) as Hfl.
  pose proof (Z.mul_div_le n d Hd) as Hfl2.
  (* r * 2^e * d <= n + 2^e * d, and 2^e * 2^23 * d <= n *)
  assert (rne n (d * 2 ^ e) * 2 ^ e * d <= n + 2 ^ e * d) as H1 by nia.
  assert (2 ^ e * 2 ^ 23 * d <= n) as H2 by nia.
  nia.
Qed.

(** ** The stages report non-decreasing values *)

Lemma f32_lit_3_10_nonneg : 0 <= f32_lit 3 10.
Proof. by vm_compute. Qed.

Lemma f32_lit_6_10_large : 2 ^ 23 <= f32_lit 6 10.
Proof. by vm_compute. Qed.

(** 0.3f + 0.6f * (1 + 2^-23), the most the Pack loop can report. *)
Lemma pack_progress_cap :
  f32_add (f32_lit 3 10) (round_f32 (f32_lit 6 10 * (2 ^ 23 + 1)) (2 ^ 23))
  <= f32_lit 95 100.
Proof. by vm_compute. Qed.

Lemma pack_progress_mono k k' n :
  0 <= k -> k <= k' -> 1 <= n -> pack_progress k n <= pack_progress k' n.
Proof.
  intros Hk Hkk Hn. unfold pack_progress.
  pose proof (f32_of_int_nonneg k Hk). pose proof (f32_of_int_pos n Hn).
  pose proof (f32_of_int_mono k k' Hk Hkk).
  pose proof f32_lit_6_10_large as H6. pose proof f32_lit_3_10_nonneg as H3.
  assert (0 <= f32_lit 6 10) by lia.
  apply f32_add_mono; [exact H3 | | lia |].
  - apply f32_div_nonneg; [by apply f32_mul_nonneg | done].
  - apply f32_div_mono; [by apply f32_mul_nonneg | by apply f32_mul_mono | done].
Qed.

Lemma pack_progress_le k n :
  0 <= k -> k <= n -> 1 <= n -> pack_progress k n <= f32_lit 95 100.
Proof.
  intros Hk Hkn Hn.
  apply (Z.le_trans _ (pack_progress n n)); [by apply pack_progress_mono |].
  apply (Z.le_trans _ (f32_add (f32_lit 3 10)
           (round_f32 (f32_lit 6 10 * (2 ^ 23 + 1)) (2 ^ 23))));
    [| exact pack_progress_cap].
  unfold pack_progress.
  pose proof (f32_of_int_mono 1 n ltac:(lia) Hn) as Hnf.
  change (f32_of_int 1) with f32_one_units in Hnf.
  pose proof f32_lit_6_10_large as Hc. pose proof f32_one_pos as H1.
  generalize dependent (f32_of_int n). intros nf Hnf.
  generalize dependent (f32_lit 6 10). intros c Hc.
  assert (f32_mul c nf * f32_one_units * 2 ^ 23 <= c * nf * (2 ^ 23 + 1)) as Hrel.
  { unfold f32_mul. rewrite round_f32_pos by nia.
    apply round_pos_rel; [done | nia]. }
  assert (0 <= f32_mul c nf) as Hm0 by (apply f32_mul_nonneg; lia).
  apply f32_add_mono; [exact f32_lit_3_10_nonneg | | apply Z.le_refl |].
  - apply f32_div_nonneg; [done | lia].
  - unfold f32_div. apply round_f32_mono; [nia | lia | lia | nia].
Qed.

Lemma pack_progress_ge k n :
  0 <= k -> 1 <= n -> f32_lit 3 10 <= pack_progress k n.
Proof.
  intros Hk Hn. unfold pack_progress.
  pose proof (f32_of_int_nonneg k Hk). pose proof (f32_of_int_pos n Hn).
  pose proof f32_lit_6_10_large as H6. pose proof f32_lit_3_10_nonneg as H3.
  assert (f32_lit 3 10 = f32_add (f32_lit 3 10) 0) as E by (by vm_compute).
  rewrite E at 1.
  apply f32_add_mono; [exact H3 | lia | lia |].
  apply f32_div_nonneg; [apply f32_mul_nonneg; lia | done].
Qed.

Ltac prog_prim _ :=
  lazymatch goal with
  | |- preserves (W _ _) (logMessage _ _) => apply W_logMessage
  | |- preserves (K _ _ _) (logMessage _ _) => apply K_logMessage
  | |- preserves (W _ _) (endStep _ _) => apply W_endStep
  | |- preserves (K _ _ _) (endStep _ _) => apply K_endStep
  | |- preserves (W _ _) (push_error _) => apply W_push_error
  | |- preserves (K _ _ _) (push_error _) => apply K_push_error
  | |- preserves (W _ _) (push_warning _) => apply W_push_warning
  | |- preserves (K _ _ _) (push_warning _) => apply K_push_warning
  | |- preserves _ (updateProgress _ _) => fail
  | |- preserves _ (beginStep _ _) => fail
  | |- _ => prog_leaf tt
  end.

(** A computation that reports nothing keeps the invariant it starts
    with. *)
Ltac frame :=
  apply triple_frame;
  [ solve [pres prog_prim]
  | intros ? ?; first [by eapply K_top | by eapply W_top] ].

Ltac closed_bound t :=
  lazymatch t with
  | prog _ (f32_lit _ _) => idtac
  | prog _ 0 => idtac
  | prog _ f32_one_units => idtac
  | prog_top => idtac
  end.

Ltac bound_side :=
  lazymatch goal with
  | |- ?a <= ?b =>
      first [ (constr_eq a b; reflexivity)
            | (closed_bound a; closed_bound b; by vm_compute)
            | assumption ]
  end.

Ltac evar_pre P :=
  first [ is_evar P | match P with ?f _ => is_evar f end ].

(** One step along the structure of a computation; stops where the
    precondition is not known yet. *)
Ltac tri_step :=
  lazymatch goal with
  | |- triple _ ?P _ _ =>
      tryif evar_pre P then fail
      else
        lazymatch goal with
        | |- triple _ _ (bind _ _) _ => (eapply triple_bind; [| intros ?])
        | |- triple _ _ (gets _) _ => apply triple_gets
        | |- triple _ (K _ ?i ?b) (updateProgress ?y _) _ =>
            (apply (triple_updateProgress _ i b y); try bound_side)
        | |- triple _ _ _ _ =>
            first [ frame
                  | lazymatch goal with
                    | |- triple _ _ (match ?x with _ => _ end) _ =>
                        destruct x eqn:?
                    | |- triple _ _ (ret _) _ => apply triple_ret
                    end ]
        end
  end.

Ltac tri := repeat tri_step.

(** A bound is weakened to a larger closed one. *)
Ltac weaken :=
  let H := fresh in
  lazymatch goal with
  | |- forall s, K _ _ ?b s -> K _ _ ?b' s =>
      intros ? H;
      tryif constr_eq b b' then exact H
      else (eapply K_weaken; [| | exact H]; bound_side)
  | |- forall s, K _ _ _ s -> W _ (stage_bound _ ?r) s =>
      intros ? H; try (is_var r; destruct r); cbn [stage_bound];
      first [ by eapply K_top
            | (apply K_W in H; revert H; apply W_weaken; bound_side) ]
  | |- forall s, W _ _ s -> W _ (stage_bound _ ?r) s =>
      intros ? H; try (is_var r; destruct r); cbn [stage_bound];
      first [ by eapply W_top
            | (revert H; apply W_weaken; bound_side) ]
  end.

Lemma ratio_nonneg k n :
  0 <= k -> 1 <= n -> 0 <= f32_div (f32_of_int k) (f32_of_int n).
Proof.
  intros. apply f32_div_nonneg; [by apply f32_of_int_nonneg | by apply f32_of_int_pos].
Qed.

Lemma ratio_le_one k n :
  0 <= k -> k <= n -> 1 <= n ->
  f32_div (f32_of_int k) (f32_of_int n) <= f32_one_units.
Proof.
  intros. apply f32_div_le_one;
    [by apply f32_of_int_nonneg | by apply f32_of_int_mono | by apply f32_of_int_pos].
Qed.

Lemma ratio_mono k k' n :
  0 <= k -> k <= k' -> 1 <= n ->
  f32_div (f32_of_int k) (f32_of_int n) <= f32_div (f32_of_int k') (f32_of_int n).
Proof.
  intros. apply f32_div_mono;
    [by apply f32_of_int_nonneg | by apply f32_of_int_mono | by apply f32_of_int_pos].
Qed.

Lemma ratio_zero n : 1 <= n -> f32_div (f32_of_int 0) (f32_of_int n) = 0.
Proof. intros. rewrite f32_of_int_zero. apply f32_div_zero. by apply f32_of_int_pos. Qed.

Section ProgressStages.
Variable n0 : nat.

Lemma triple_pre_and {A} (P : BS -> Prop) (Q : Prop) (m : M A) V :
  (Q -> triple n0 P m V) -> triple n0 (fun s => P s /\ Q) m V.
Proof. intros H s [HP HQ]. by apply H. Qed.

Lemma triple_prepareOutputDirectory b :
  b <= prog 0 0 ->
  triple n0 (W n0 b) prepareOutputDirectory
         (fun r => W n0 (stage_bound 0 r)).
Proof.
  intros Hb. unfold prepareOutputDirectory.
  eapply triple_bind;
    [apply (triple_beginStep n0 _ _ 0%nat b); [done | lia | done | by vm_compute] |].
  intros ?. tri. all: weaken.
Qed.

Lemma triple_generateExecutable b :
  b <= prog 4 0 ->
  triple n0 (W n0 b) generateExecutable (fun r => W n0 (stage_bound 4 r)).
Proof.
  intros Hb.
  unfold generateExecutable, buildWindowsExecutable, buildLinuxExecutable,
    buildMacOSBundle.
  eapply triple_bind;
    [apply (triple_beginStep n0 _ _ 4%nat b); [done | lia | done | by vm_compute] |].
  intros ?. tri. all: weaken.
Qed.

Lemma triple_signAndFinalize b :
  b <= prog 5 0 ->
  triple n0 (W n0 b) signAndFinalize (fun r => W n0 (stage_bound 5 r)).
Proof.
  intros Hb. unfold signAndFinalize.
  eapply triple_bind;
    [apply (triple_beginStep n0 _ _ 5%nat b); [done | lia | done | by vm_compute] |].
  intros ?. tri. all: weaken.
Qed.

Lemma triple_compileScripts b :
  b <= prog 1 0 ->
  triple n0 (W n0 b) compileScripts (fun r => W n0 (stage_bound 1 r)).
Proof.
  intros Hb. unfold compileScripts, compileBytecode.
  eapply triple_bind;
    [apply (triple_beginStep n0 _ _ 1%nat b); [done | lia | done | by vm_compute] |].
  intros ?. tri.
  - weaken.
  - set (n := Z.of_nat (length (s :: l))).
    assert (1 <= n) as Hn by (subst n; simpl; lia).
    eapply triple_conseq;
      [| apply (triple_for_each n0
                  (fun rest (a : Z * list ScriptCompileResult) st =>
                     K n0 1 (prog 1 (f32_div (f32_of_int a.1) (f32_of_int n))) st
                     /\ (0 <= a.1 /\ a.1 + Z.of_nat (length rest) = n))
                  (fun r => W n0 (stage_bound 1 r)))
       | intros ? ? H; exact H].
    + intros st HK. cbn [fst]. rewrite ratio_zero by done.
      split; [exact HK | subst n; lia].
    + intros x rest [k res]. cbn [fst].
      apply triple_pre_and. intros [Hk Hkn]. rewrite length_cons in Hkn.
      pose proof (ratio_nonneg k n Hk Hn) as Hr0.
      pose proof (ratio_le_one k n Hk ltac:(lia) Hn) as Hr1.
      tri.
      * weaken.
      * apply prog_le_top; [lia | done | done].
      * intros st HK. cbn [fst]. split; [| lia].
        eapply K_weaken; [| | exact HK].
        -- apply prog_mono; [done | apply ratio_mono; lia].
        -- apply prog_le_top; [lia | apply ratio_nonneg; lia | apply ratio_le_one; lia].
  - destruct a3 as [[k res]|r].
    + cbn [fst]. apply triple_pre_and. intros [Hk Hkn].
      set (n := Z.of_nat (length (s :: l))) in *.
      assert (1 <= n) as Hn by (subst n; simpl; lia).
      tri. all: try weaken.
      intros st HK. apply K_W in HK. revert HK. cbn [stage_bound].
      apply W_weaken; [| by vm_compute].
      apply prog_mono; [by apply ratio_nonneg | apply ratio_le_one; simpl in Hkn; lia].
    + tri. intros ? H; exact H.
Qed.

Lemma triple_processAssets b :
  b <= prog 2 0 ->
  triple n0 (W n0 b) processAssets (fun r => W n0 (stage_bound 2 r)).
Proof.
  intros Hb.
  unfold processAssets, processImage, processAudio, processFont, processData.
  eapply triple_bind;
    [apply (triple_beginStep n0 _ _ 2%nat b); [done | lia | done | by vm_compute] |].
  intros ?. tri.
  - weaken.
  - set (n := Z.of_nat (length (s :: l))).
    assert (1 <= n) as Hn by (subst n; simpl; lia).
    eapply triple_conseq;
      [| apply (triple_for_each n0
                  (fun rest (k : Z) st =>
                     K n0 2 (prog 2 (f32_div (f32_of_int k) (f32_of_int n))) st
                     /\ (0 <= k /\ k + Z.of_nat (length rest) = n))
                  (fun r => W n0 (stage_bound 2 r)))
       | intros ? ? H; exact H].
    + intros st HK. rewrite ratio_zero by done.
      split; [exact HK | subst n; lia].
    + intros x rest k.
      apply triple_pre_and. intros [Hk Hkn]. rewrite length_cons in Hkn.
      pose proof (ratio_nonneg k n Hk Hn) as Hr0.
      pose proof (ratio_le_one k n Hk ltac:(lia) Hn) as Hr1.
      tri.
      * weaken.
      * apply prog_le_top; [lia | done | done].
      * intros st HK. split; [| lia].
        eapply K_weaken; [| | exact HK].
        -- apply prog_mono; [done | apply ratio_mono; lia].
        -- apply prog_le_top; [lia | apply ratio_nonneg; lia | apply ratio_le_one; lia].
  - destruct a4 as [k|r].
    + apply triple_pre_and. intros [Hk Hkn].
      set (n := Z.of_nat (length (s :: l))) in *.
      assert (1 <= n) as Hn by (subst n; simpl; lia).
      tri. all: try weaken.
      intros st HK. apply K_W in HK. revert HK. cbn [stage_bound].
      apply W_weaken; [| by vm_compute].
      apply prog_mono; [by apply ratio_nonneg | apply ratio_le_one; simpl in Hkn; lia].
    + tri. intros ? H; exact H.
Qed.

Lemma triple_packResources b :
  b <= prog 3 0 ->
  triple n0 (W n0 b) packResources (fun r => W n0 (stage_bound 3 r)).
Proof.
  intros Hb. unfold packResources.
  eapply triple_bind;
    [apply (triple_beginStep n0 _ _ 3%nat b); [done | lia | done | by vm_compute] |].
  intros ?. tri_step; [tri_step |].
  destruct (includedLanguages a0) as [|lang langs] eqn:Hlangs.
  { tri.
    - weaken.
    - cbn [for_each].
      apply (triple_ret n0 _ _ (fun _ => K n0 3 (prog 3 (f32_lit 1 10)))).
      intros ? HK; exact HK.
    - tri. all: weaken.
    - weaken. }
 
  set (n := Z.of_nat (length (lang :: langs))).
  assert (1 <= n) as Hn by (subst n; simpl; lia).
  tri.
  - weaken.
  - eapply triple_conseq;
      [| apply (triple_for_each n0
                  (fun rest (k : Z) st =>
                     K n0 3 (prog 3 (pack_progress k n)) st
                     /\ (0 <= k /\ k + Z.of_nat (length rest) <= n))
                  (fun r => W n0 (stage_bound 3 r)))
       | intros ? ? HV; exact HV].
    + intros st HK. split; [| clear HK; lia].
     
      eapply K_weaken; [| | exact HK].
      * apply prog_mono; [by vm_compute |].
        etrans; [| apply pack_progress_ge; lia]. by vm_compute.
      * apply prog_le_top; [lia | |].
        -- etrans; [| apply pack_progress_ge; lia]. by vm_compute.
        -- etrans; [apply pack_progress_le; lia |]. by vm_compute.
    + intros x rest k.
      apply triple_pre_and. intros [Hk Hkn]. rewrite length_cons in Hkn.
      assert (0 <= pack_progress k n) as Hp0.
      { etrans; [| apply pack_progress_ge; lia]. by vm_compute. }
      assert (forall k', 0 <= k' <= n -> prog 3 (pack_progress k' n) <= prog_top)
        as Htop.
      { intros k' Hk'. apply prog_le_top; [lia | |].
        - etrans; [| apply pack_progress_ge; lia]. by vm_compute.
        - etrans; [apply pack_progress_le; lia |]. by vm_compute. }
      fold (pack_progress k n).
      tri.
      * weaken.
      * apply Htop. lia.
      * intros st HK. split; [exact HK | clear HK; lia].
      * intros st HK. split; [| clear HK; lia].
        eapply K_weaken; [| | exact HK]; [| apply Htop; lia].
        apply prog_mono; [done | apply pack_progress_mono; lia].
      * intros st HK. split; [exact HK | clear HK; lia].
  - destruct a7 as [k|r].
    + apply triple_pre_and. intros [Hk Hkn]. simpl in Hkn.
      assert (prog 3 (pack_progress k n) <= prog 3 (f32_lit 95 100)) as Hle.
      { apply prog_mono.
        - etrans; [| apply pack_progress_ge; lia]. by vm_compute.
        - apply pack_progress_le; lia. }
      tri. all: weaken.
    + tri. intros ? HV; exact HV.
  - weaken.
Qed.

(** A stage that is skipped leaves the reports alone; one that runs starts
    above everything reported before it. *)
Lemma triple_guarded_stage i stage st b :
  (i < 5)%nat ->
  (forall b', b' <= prog (S i) 0 ->
     triple n0 (W n0 b') stage (fun r => W n0 (stage_bound (S i) r))) ->
  b <= prog (S i) 0 ->
  triple n0 (W n0 (locals_bound st b)) (guarded_stage stage st)
         (fun st' => W n0 (locals_bound st' (prog (S i) f32_one_units))).
Proof.
  intros Hi Hstage Hb. unfold guarded_stage.
  assert (prog (S i) 0 <= prog (S i) f32_one_units) as H01.
  { apply prog_mono; [done | by vm_compute]. }
  assert (prog (S i) f32_one_units <= prog_top) as H1t.
  { apply prog_le_top; [lia | by vm_compute | done]. }
  destruct st as [[|] msg]; cbn [fst locals_bound andb].
  - eapply triple_bind; [apply triple_gets |]. intros cancelled.
    destruct cancelled; cbn [negb].
    + apply triple_ret. intros s. cbn [fst locals_bound]. apply W_weaken; lia.
    + eapply triple_bind; [by apply Hstage |]. intros [[]|e].
      * apply triple_ret. intros s HW. exact HW.
      * apply triple_ret. intros s HW. exact HW.
  - eapply triple_bind; [apply triple_gets |]. intros cancelled.
    apply triple_ret. intros s HW. exact HW.
Qed.

Lemma triple_pipeline_stages b :
  b <= prog 0 0 ->
  triple n0 (W n0 b) pipeline_stages (fun _ => W n0 prog_top).
Proof.
  intros Hb. unfold pipeline_stages, promote_staging.
  eapply triple_bind; [apply triple_gets |]. intros config.
  apply triple_try_catch; [| intros w; apply triple_ret; by intros s HW].
  eapply triple_bind; [apply triple_gets |]. intros d.
  eapply triple_bind; [frame |]. intros ?.
  eapply triple_bind; [frame |]. intros ?.
  eapply triple_bind; [apply triple_gets |]. intros cancelled.
  eapply (triple_bind n0 _ _ _ (fun st => W n0 (locals_bound st (prog 0 f32_one_units)))).
  { destruct cancelled; cbn [negb].
    - apply triple_ret. intros s. cbn [fst locals_bound].
      apply W_weaken; [| by vm_compute]. etrans; [exact Hb |]. by vm_compute.
    - eapply triple_bind; [by apply triple_prepareOutputDirectory |].
      intros [[]|e]; apply triple_ret; intros s HW; exact HW. }
  intros st0.
  eapply triple_bind;
    [apply (triple_guarded_stage 0); [lia | apply triple_compileScripts | by vm_compute] |].
  intros st1.
  eapply triple_bind;
    [apply (triple_guarded_stage 1); [lia | apply triple_processAssets | by vm_compute] |].
  intros st2.
  eapply triple_bind;
    [apply (triple_guarded_stage 2); [lia | apply triple_packResources | by vm_compute] |].
  intros st3.
  eapply triple_bind;
    [apply (triple_guarded_stage 3); [lia | apply triple_generateExecutable | by vm_compute] |].
  intros st4.
  eapply triple_bind;
    [apply (triple_guarded_stage 4); [lia | apply triple_signAndFinalize | by vm_compute] |].
  intros st5.
  eapply triple_conseq; [intros s HW; eapply W_top; exact HW | | intros ? s HW; exact HW].
  tri. all: intros ? HW; exact HW.
Qed.

Lemma triple_runBuildPipeline b :
  b <= prog 0 0 ->
  triple n0 (W n0 b) runBuildPipeline (fun _ => W n0 prog_top).
Proof.
  intros Hb. unfold runBuildPipeline.
  eapply triple_bind; [by apply triple_pipeline_stages |].
  intros [success errorMessage]. unfold pipeline_finish, cleanup. tri.
  all: intros ? HW; exact HW.
Qed.
End ProgressStages.

(** X12 (progress never goes back).  In every build that [startBuild]
    accepted, the aggregate [progress] values handed to the progress callback
    are in non-decreasing order over the whole run and never exceed 1.0,
    whatever the stages do (error, exception, cancellation) and however many
    scripts, assets and languages there are.  Values are binary32 numbers,
    each operation rounded to nearest. *)
Theorem build_progress_monotone config s0 :
  (build config s0).1 = Ok tt ->
  let reported := progress <$> reports_of_build config s0 in
  StronglySorted Z.le reported
  /\ Forall (fun v => v <= f32_one_units) reported.
Proof.
  intros Hok. cbv zeta. unfold reports_of_build, build in *.
  destruct (startBuild config s0) as [[[]|e] s1] eqn:Hs; [| done].
  apply startBuild_ok in Hs as (Hb & Hc & Hcfg & Hcb1 & Hr1 & Hp1).
  cbn [fst snd].
  set (n0 := length (progressReports s0)).
  assert (W n0 0 s1) as HW.
  { unfold W, new_progress. rewrite Hp1, Hr1. cbn [progress_set_steps steps].
    subst n0. rewrite drop_all.
    repeat split; [constructor | constructor | by vm_compute]. }
  pose proof (triple_runBuildPipeline n0 0 ltac:(by vm_compute) s1 HW) as HT.
  assert (W n0 prog_top (runBuildPipeline s1).2) as (_ & _ & Hsorted & Hle & _).
  { by destruct ((runBuildPipeline s1).1). }
  split; [exact Hsorted |]. rewrite <- prog_top_one. exact Hle.
Qed.

Lemma build_progress_monotone_witness :
  let reported :=
    progress <$> reports_of_build config_example
                   (BS_new fs_project_example 42 (Some never_cancel)) in
  (0 < length reported)%nat
  /\ StronglySorted Z.le reported
  /\ Forall (fun v => v <= f32_one_units) reported.
Proof.
  intros reported. split; [apply Nat.ltb_lt; by vm_compute |].
  apply (build_progress_monotone config_example
           (BS_new fs_project_example 42 (Some never_cancel))).
  by vm_compute.
Defined.
(** ** An empty input file *)

Lemma write_resource_data_failed fs files o :
  failbit o = true -> write_resource_data fs files o = o.
Proof.
  intros Hf. induction files as [|f files IH]; [done |].
  cbn [write_resource_data]. unfold stream_insert_rdbuf. rewrite Hf.
  by destruct (read_file fs f).
Qed.

(** The data loop copies the files before the first empty one; inserting
    the empty one sets the fail bit and nothing is written after it. *)
Lemma write_resource_data_empty fs pre f post b :
  Forall (fun g => is_regular_file fs g = true) pre ->
  Forall (fun g => read_file fs g <> Some []) pre ->
  read_file fs f = Some [] ->
  write_resource_data fs (pre ++ f :: post) (app_stream b)
  = mkStream (b ++ file_contents fs pre) (length (b ++ file_contents fs pre))
             true.
Proof.
  intros Hreg Hne Hf. revert b.
  induction pre as [|g pre IH]; intros b.
  - cbn [app write_resource_data]. rewrite Hf. cbn.
    rewrite write_resource_data_failed by done.
    unfold file_contents. cbn. by rewrite app_nil_r.
  - apply Forall_cons in Hreg as [Hg Hreg]. apply Forall_cons in Hne as [Hgn Hne].
    cbn [app write_resource_data]. unfold is_regular_file in Hg.
    unfold file_contents. cbn [fmap list_fmap concat].
    unfold read_file in *. destruct (fs !! g) as [[c|]|] eqn:E; try done.
    cbn [default]. destruct c as [|x c]; [done |].
    unfold stream_insert_rdbuf. cbn [failbit app_stream].
    rewrite stream_write_app, IH by done.
    unfold file_contents, read_file. by rewrite <- !app_assoc.
Qed.

Lemma file_contents_write fs out c files :
  out ∉ files -> file_contents (write_file fs out c) files = file_contents fs files.
Proof.
  intros Hout. unfold file_contents. f_equal. apply list_fmap_ext.
  intros i f Hf. unfold read_file, write_file.
  rewrite lookup_insert_ne; [done |].
  intros ->. apply Hout. by eapply list_elem_of_lookup_2.
Qed.

Lemma stream_write_fail bs b n :
  stream_write bs (mkStream b n true) = mkStream b n true.
Proof. done. Qed.

Lemma seekp_fail p b n : seekp p (mkStream b n true) = mkStream b n true.
Proof. done. Qed.

Lemma length_header_prefix n enc comp : length (header_prefix n enc comp) = 16%nat.
Proof. by destruct enc, comp. Qed.

(** C1 (the code misses the claim).  When the output file opens and the
    inputs are existing regular files one of which is empty, [buildPack]
    still returns [ok], but the file it leaves is not a pack: the copy of
    the empty file sets the stream's fail bit, so the data of the later
    files, the footer and the patch of the header are all dropped.  What is
    written is the header with its four offset fields still zero, the
    resource table, the string table and the data of the files before the
    first empty one, and nothing else. *)
Theorem buildPack_empty_input_truncates now fs out pre f post enc comp :
  can_open_write fs out = true ->
  Forall (fun g => is_regular_file fs g = true) (pre ++ f :: post) ->
  out ∉ pre ++ f :: post ->
  Forall (fun g => read_file fs g <> Some []) pre ->
  read_file fs f = Some [] ->
  let files := pre ++ f :: post in
  let r := buildPack now fs out files enc comp in
  let bs := pack_bytes r out in
  r.1 = Ok tt
  /\ bs = header_prefix (length files) enc comp ++ zeros 48
          ++ concat (entry_bytes
                       <$> table_rows (build_string_table files 0).2
                                      (file_sizes fs files) 0)
          ++ string_table_bytes (filename <$> files)
                                (build_string_table files 0).2
          ++ file_contents fs pre
  /\ header_resourceTableOffset bs = 0
  /\ header_stringTableOffset bs = 0
  /\ header_dataOffset bs = 0
  /\ header_totalFileSize bs = 0.
Proof.
  intros Hopen Hreg Hout Hpre Hf. cbv zeta.
  set (files := pre ++ f :: post) in *.
  assert (buildPack now fs out files enc comp
          = (Ok tt,
             write_file (write_file fs out []) out
               (header_prefix (length files) enc comp ++ zeros 48
                ++ concat (entry_bytes
                             <$> table_rows (build_string_table files 0).2
                                            (file_sizes fs files) 0)
                ++ string_table_bytes (filename <$> files)
                                      (build_string_table files 0).2
                ++ file_contents fs pre))) as Hr.
  { unfold buildPack. rewrite Hopen. cbn [negb].
    change stream_open with (app_stream []).
    rewrite stream_write_app, !write_u16_app, !write_u32_app, !write_u64_app,
      stream_write_app.
    pose proof (build_string_table_fst files 0) as Hids.
    pose proof (build_string_table_length files 0) as Hlen.
    destruct (build_string_table files 0) as [ids offs]. simpl in Hids, Hlen.
    subst ids.
    match goal with
    | |- context [write_resource_table ?fs' files offs 0 (app_stream ?b)] =>
        destruct (write_resource_table_app fs' files offs 0 b) as [d' Hd'];
          [by apply regular_write | done |]; rewrite Hd'
    end.
    rewrite !tellp_app, write_u32_app, foldl_write_u32_app, foldl_write_cstr_app.
    rewrite file_sizes_write by done.
    assert (out ∉ pre) as Houtpre.
    { intros Hin. apply Hout. subst files. apply elem_of_app. by left. }
    assert (Forall (fun g => is_regular_file fs g = true) pre) as Hregpre.
    { subst files. by apply Forall_app in Hreg as [? _]. }
    subst files.
    rewrite write_resource_data_empty.
    - rewrite file_contents_write by done.
      unfold write_u32, write_u64.
      repeat (rewrite stream_write_fail || rewrite seekp_fail).
      cbn [buf]. f_equal. f_equal.
      unfold header_prefix, string_table_bytes. rewrite length_fmap.
      change (zeros 48)
        with (le_bytes 8 0 ++ le_bytes 8 0 ++ le_bytes 8 0 ++ le_bytes 8 0
              ++ zeros 16).
      by rewrite <- !app_assoc.
    - by apply regular_write.
    - apply Forall_forall. intros g Hin. rewrite Forall_forall in Hpre.
      unfold read_file, write_file. rewrite lookup_insert_ne by (by intros ->).
      by apply Hpre.
    - unfold read_file, write_file. rewrite lookup_insert_ne; [exact Hf |].
      intros ->. apply Hout. apply elem_of_app. right. by left. }
  rewrite Hr. unfold pack_bytes, read_file, write_file. cbn [fst snd].
  rewrite lookup_insert_eq. cbn [default]. unfold id.
  split; [done |]. split; [done |].
  set (R := concat _ ++ _).
  pose proof (length_header_prefix (length files) enc comp) as Hh.
  unfold header_resourceTableOffset, header_stringTableOffset,
    header_dataOffset, header_totalFileSize, get_u64, slice.
  change (zeros 48)
    with (le_bytes 8 0 ++ le_bytes 8 0 ++ le_bytes 8 0 ++ le_bytes 8 0
          ++ zeros 16).
  rewrite <- !app_assoc.
  split; [by rewrite (field_u64 _ 0 _ 16) |].
  rewrite (app_assoc (header_prefix _ _ _)).
  split; [by rewrite (field_u64 _ 0 _ 24) by (by rewrite length_app, Hh) |].
  rewrite (app_assoc (_ ++ _)).
  split; [by rewrite (field_u64 _ 0 _ 32) by (by rewrite !length_app, Hh) |].
  rewrite (app_assoc (_ ++ _)).
  by rewrite (field_u64 _ 0 _ 40) by (by rewrite !length_app, Hh).
Qed.

Lemma buildPack_empty_input_truncates_witness :
  let r := buildPack 77 fs_pack_example "/s/packs/Base.nmres"
             files_pack_example true false in
  let bs := pack_bytes r "/s/packs/Base.nmres" in
  r.1 = Ok tt
  /\ length bs = 249%nat
  /\ header_resourceCount bs = 3
  /\ header_resourceTableOffset bs = 0
  /\ header_stringTableOffset bs = 0
  /\ header_dataOffset bs = 0
  /\ header_totalFileSize bs = 0
  /\ drop 246 bs = [1; 2; 3].
Proof.
  destruct (buildPack_empty_input_truncates 77 fs_pack_example
              "/s/packs/Base.nmres" ["/s/assets/a/x.png"] "/s/assets/empty.dat"
              ["/s/assets/b/x.png"] true false)
    as (H1 & H2 & H3 & H4 & H5 & H6).
  - reflexivity.
  - repeat constructor.
  - apply (bool_decide_unpack _). vm_compute. exact I.
  - repeat constructor. vm_compute. discriminate.
  - reflexivity.
  - cbv zeta. split; [exact H1 |].
    split; [by vm_compute |]. split; [by vm_compute |].
    split; [exact H3 |]. split; [exact H4 |]. split; [exact H5 |].
    split; [exact H6 |]. by vm_compute.
Defined.
